(** * MapRAG: the marker, sidebar and search pipeline of [main.js]

    A shallow embedding of the browser script: the JavaScript values the
    script receives from its webhooks, the module-level variables it keeps,
    the Leaflet layers it creates, and the functions [plotMarkers],
    [clearMarkers], [drawSearchCircle], [highlightSearchLocation],
    [updateSidebar] with the feedback form of its cards, [geocodeAddress],
    [handleSearch], [loadAllPins], [handleUpdateMap], [toggleSidebar],
    [adjustMapWidth] and [formatCoordinates], followed by the properties
    proved about them.

    Numbers.  A JavaScript number is modelled by [number]: NaN, the two
    infinities, and finite values as the rational they denote.  Arithmetic on
    finite values is exact; rounding, overflow and the sign of zero are not
    modelled.  Every branch the script takes on a number ([isNaN], [<= 0],
    the sign of a difference, truthiness) is modelled.

    Asynchrony.  An [async] function is cut at its [await]s: one definition
    per stretch that runs without interruption, and one that runs the whole
    function given what the awaited requests come back with.  Requests,
    alerts, warnings, viewport calls and timers are recorded, in order, in
    [events].

    Leaflet.  The library is modelled by what the script relies on: layers
    are objects with an identity, [addTo] and [removeLayer] change the set
    of layers on the map, and a coordinate pair with a NaN in it makes the
    layer constructors and [setView] throw, as [L.LatLng] does.

    Layout.  The classes of the sidebar, its toggle button and the inline
    width of the map element are modelled apart from the page state, in
    [Layout]: the functions that work on them read and write nothing else.

    Left out: [console.log] and [console.error] lines, the scroll position,
    the zoom level, and the timers that take a message away again.  The
    earlier copy of the script in the repository has the same
    [geocodeAddress], [plotMarkers] and [clearMarkers]; it works in
    kilometres and has no sidebar, and what differs in it is modelled in
    [Legacy]. *)

From Stdlib Require Import ZArith QArith String Ascii List Bool Lia Lqa.
From Stdlib Require Import Qabs Qround Sorted Permutation.
From stdpp Require Import gmap strings pretty.
Import ListNotations.

#[local] Set Warnings "-register-all".
#[local] Open Scope string_scope.

(** ** JavaScript numbers *)

Inductive number : Type :=
| NaN
| NegInf
| PosInf
| Fin (q : Q).

(** Finite results are kept in lowest terms, so that equal numbers are equal
    terms. *)
Definition fin (q : Q) : number := Fin (Qred q).

Definition of_Z (z : Z) : number := Fin (inject_Z z).
Definition of_nat (n : nat) : number := of_Z (Z.of_nat n).

Definition isNaN (n : number) : bool :=
  match n with NaN => true | _ => false end.

Definition isFinite (n : number) : bool :=
  match n with Fin _ => true | _ => false end.

Definition neg (a : number) : number :=
  match a with
  | NaN => NaN
  | NegInf => PosInf
  | PosInf => NegInf
  | Fin x => fin (- x)
  end.

(** [a + b]; opposite infinities give NaN. *)
Definition add (a b : number) : number :=
  match a, b with
  | NaN, _ | _, NaN => NaN
  | PosInf, NegInf | NegInf, PosInf => NaN
  | PosInf, _ | _, PosInf => PosInf
  | NegInf, _ | _, NegInf => NegInf
  | Fin x, Fin y => fin (x + y)
  end.

(** [a - b]; in particular [Infinity - Infinity] is NaN. *)
Definition sub (a b : number) : number := add a (neg b).

(** An infinity multiplied by a finite [x]: NaN for zero, else signed. *)
Definition scale_inf (positive : bool) (x : Q) : number :=
  match Qcompare x 0 with
  | Eq => NaN
  | Gt => if positive then PosInf else NegInf
  | Lt => if positive then NegInf else PosInf
  end.

Definition mul (a b : number) : number :=
  match a, b with
  | NaN, _ | _, NaN => NaN
  | Fin x, Fin y => fin (x * y)
  | PosInf, Fin x | Fin x, PosInf => scale_inf true x
  | NegInf, Fin x | Fin x, NegInf => scale_inf false x
  | PosInf, PosInf | NegInf, NegInf => PosInf
  | PosInf, NegInf | NegInf, PosInf => NegInf
  end.

Definition div (a b : number) : number :=
  match a, b with
  | NaN, _ | _, NaN => NaN
  | Fin x, Fin y =>
      match Qcompare y 0 with
      | Eq => scale_inf true x
      | _ => fin (x / y)
      end
  | Fin _, _ => Fin 0
  | PosInf, Fin y => match Qcompare y 0 with Lt => NegInf | _ => PosInf end
  | NegInf, Fin y => match Qcompare y 0 with Lt => PosInf | _ => NegInf end
  | _, _ => NaN
  end.

(** [a < b]: false as soon as one side is NaN. *)
Definition ltb (a b : number) : bool :=
  match a, b with
  | NaN, _ | _, NaN => false
  | _, NegInf => false
  | NegInf, _ => true
  | PosInf, _ => false
  | _, PosInf => true
  | Fin x, Fin y => match Qcompare x y with Lt => true | _ => false end
  end.

(** [a <= b]. *)
Definition leb (a b : number) : bool :=
  match a, b with
  | NaN, _ | _, NaN => false
  | NegInf, _ => true
  | _, PosInf => true
  | _, NegInf => false
  | PosInf, _ => false
  | Fin x, Fin y => match Qcompare x y with Gt => false | _ => true end
  end.

(** [a === b] on numbers (NaN differs from itself). *)
Definition num_eqb (a b : number) : bool :=
  match a, b with
  | NegInf, NegInf | PosInf, PosInf => true
  | Fin x, Fin y => Qeq_bool x y
  | _, _ => false
  end.

(** ToBoolean of a number: NaN and zero are falsy. *)
Definition num_truthy (a : number) : bool :=
  match a with
  | NaN => false
  | Fin x => negb (Qeq_bool x 0)
  | _ => true
  end.

(** ** Strings of the runtime *)

Definition nl : string := String "010"%char "".
Definition dquote : string := String "034"%char "".

(** WhiteSpace and LineTerminator characters, those of one byte. *)
Definition is_ws (c : ascii) : bool :=
  let n := nat_of_ascii c in
  ((9 <=? n) && (n <=? 13))%nat || (n =? 32)%nat.

Fixpoint skip_ws (s : string) : string :=
  match s with
  | String c r => if is_ws c then skip_ws r else s
  | EmptyString => s
  end.

Definition string_rev (s : string) : string :=
  string_of_list_ascii (List.rev (list_ascii_of_string s)).

(** [String.prototype.trim]. *)
Definition trim (s : string) : string :=
  string_rev (skip_ws (string_rev (skip_ws s))).

(** [String.prototype.includes]. *)
Definition includes (s t : string) : bool :=
  match String.index 0 t s with
  | Some _ => true
  | None => false
  end.

Definition startsWith (s t : string) : bool := String.prefix t s.

Definition digit_of (c : ascii) : option Z :=
  let n := nat_of_ascii c in
  if ((48 <=? n) && (n <=? 57))%nat then Some (Z.of_nat n - 48)%Z else None.

(** Reads a run of decimal digits: the value accumulated onto [acc], how
    many digits were read, and the rest of the string. *)
Fixpoint take_digits (s : string) (acc : Z) (count : nat) : Z * nat * string :=
  match s with
  | String c r =>
      match digit_of c with
      | Some d => take_digits r (10 * acc + d)%Z (S count)
      | None => (acc, count, s)
      end
  | EmptyString => (acc, count, s)
  end.

Definition take_sign (s : string) : bool * string :=
  match s with
  | String "-"%char r => (true, r)
  | String "+"%char r => (false, r)
  | _ => (false, s)
  end.

(** The exponent part [e[+-]digits], zero when absent or malformed. *)
Definition take_exponent (s : string) : Z :=
  match s with
  | String c r =>
      if (Ascii.eqb c "e" || Ascii.eqb c "E")%char then
        let '(eneg, r') := take_sign r in
        let '(ev, n, _) := take_digits r' 0%Z 0%nat in
        match n with
        | O => 0%Z
        | _ => if eneg then (- ev)%Z else ev
        end
      else 0%Z
  | EmptyString => 0%Z
  end.

(** [m * 10^e] as a number. *)
Definition decimal (m e : Z) : number :=
  if (0 <=? e)%Z then fin (inject_Z (m * 10 ^ e))
  else fin (Qmake m (Z.to_pos (10 ^ (- e)))).

(** [parseFloat] on a string: leading white space is skipped and the longest
    prefix that is a decimal literal is converted; NaN when there is none. *)
Definition parseFloatStr (s : string) : number :=
  let '(negative, s0) := take_sign (skip_ws s) in
  if String.prefix "Infinity" s0 then (if negative then NegInf else PosInf)
  else
    let '(ip, n1, s1) := take_digits s0 0%Z 0%nat in
    let '(m, n2, s2) :=
      match s1 with
      | String "."%char r => take_digits r ip 0%nat
      | _ => (ip, 0%nat, s1)
      end in
    match (n1 + n2)%nat with
    | O => NaN
    | _ =>
        let e := (take_exponent s2 - Z.of_nat n2)%Z in
        decimal (if negative then (- m)%Z else m) e
    end.

Definition hex_digit (n : nat) : ascii :=
  if (n <? 10)%nat then ascii_of_nat (48 + n) else ascii_of_nat (55 + n).

(** Characters [encodeURIComponent] leaves as they are. *)
Definition uri_unreserved (c : ascii) : bool :=
  let n := nat_of_ascii c in
  ((48 <=? n) && (n <=? 57))%nat || ((65 <=? n) && (n <=? 90))%nat
  || ((97 <=? n) && (n <=? 122))%nat
  || existsb (Ascii.eqb c) ["-"; "_"; "."; "!"; "~"; "*"; "'"; "("; ")"]%char.

(** [encodeURIComponent] on the UTF-8 bytes of the string. *)
Fixpoint encodeURIComponent (s : string) : string :=
  match s with
  | EmptyString => ""
  | String c r =>
      if uri_unreserved c then String c (encodeURIComponent r)
      else
        let n := nat_of_ascii c in
        String "%" (String (hex_digit (n / 16)) (String (hex_digit (n mod 16))
                   (encodeURIComponent r)))
  end.

(** ** JavaScript values, as JSON delivers them *)

Inductive value : Type :=
| VUndef
| VNull
| VBool (b : bool)
| VNum (n : number)
| VStr (s : string)
| VArr (a : list value)
| VObj (o : gmap string value).

(** A raw record: an object of the response array. *)
Abbreviation record := (gmap string value).

(** ToBoolean. *)
Definition truthy (v : value) : bool :=
  match v with
  | VUndef | VNull => false
  | VBool b => b
  | VNum n => num_truthy n
  | VStr s => negb (String.eqb s "")
  | VArr _ | VObj _ => true
  end.

(** [a || b] *)
Definition or_ (a b : value) : value := if truthy a then a else b.

(** [a ?? b] *)
Definition nullish (a b : value) : value :=
  match a with
  | VUndef | VNull => b
  | _ => a
  end.

(** [v.k] for the property names the script reads (none of them is an index
    or [length]); the receiver is never null or undefined where this is
    used. *)
Definition get (v : value) (k : string) : value :=
  match v with
  | VObj o => match o !! k with Some x => x | None => VUndef end
  | _ => VUndef
  end.

(** [parseFloat(v)]: the argument is converted to a string first.  A number
    prints to a literal that reads back as itself, an array prints its
    elements separated by commas so that only the first one is read, and
    the other values print to text that is no literal. *)
Fixpoint parseFloat (v : value) : number :=
  match v with
  | VNum n => n
  | VStr s => parseFloatStr s
  | VArr (x :: _) => parseFloat x
  | _ => NaN
  end.

(** ** The runtime's implementation-defined functions

    The script calls [Math.sin], [Math.cos], [Math.sqrt] and [Math.atan2],
    which the language leaves to the engine, and prints numbers inside
    template literals.  They are taken as an interface; what is proved holds
    for every engine. *)

Class Engine : Type := {
  Number_toString : number -> string;
  Math_PI : number;
  Math_sin : number -> number;
  Math_cos : number -> number;
  Math_sqrt : number -> number;
  Math_atan2 : number -> number -> number
}.

(** [Number(x.toFixed(1))]: [toFixed] prints the magnitude rounded to one
    decimal (a tie goes up) behind the sign, and prints numbers from 1e21 on,
    NaN and the infinities as they are; [Number] reads the text back. *)
Definition toFixed1 (x : number) : number :=
  match x with
  | Fin q =>
      if Qle_bool (inject_Z (10 ^ 21)) (Qabs q) then Fin q
      else
        let tenths := Qfloor (Qabs q * 10 + (1 # 2)) in
        let r := Qmake tenths 10 in
        fin (if Qle_bool 0 q then r else - r)
  | _ => x
  end.

(** One entry of [processedResults] in [updateSidebar]. *)
Record Processed : Type := mkProcessed {
  index : nat;
  serial : value;
  name : value;
  businessName : value;
  address : value;
  type : value;
  state : value;
  contact : value;
  email : value;
  website : value;
  distance : option number;
  rating : value;
  feedback : value
}.

(** [result.index = i] *)
Definition set_index (r : Processed) (i : nat) : Processed :=
  {| index := i; serial := serial r; name := name r;
     businessName := businessName r; address := address r; type := type r;
     state := state r; contact := contact r; email := email r;
     website := website r; distance := distance r; rating := rating r;
     feedback := feedback r |}.

(** *** [Array.prototype.sort]

    The language fixes the result of [sort] for a consistent comparator: the
    stable arrangement.  It is computed here by insertion; SortCompare reads a
    NaN returned by the comparator as zero.  (For a comparator that is not
    consistent the language leaves the arrangement to the engine; the model
    then gives the one insertion gives.) *)
Section Sort.
Context {A : Type} (comparefn : A -> A -> number).

(** [x] has to come after [y]: the comparator's value is above zero. *)
Definition comes_after (x y : A) : bool := ltb (Fin 0) (comparefn x y).

Fixpoint insert_sorted (x : A) (l : list A) : list A :=
  match l with
  | [] => [x]
  | y :: r => if comes_after x y then y :: insert_sorted x r else x :: y :: r
  end.

Fixpoint sort (l : list A) : list A :=
  match l with
  | [] => []
  | x :: r => insert_sorted x (sort r)
  end.
End Sort.

(** [r.distance !== null] *)
Definition hasDistance (r : Processed) : bool :=
  match distance r with
  | Some _ => true
  | None => false
  end.

(** [a.distance !== null ? a.distance : Infinity] *)
Definition distOrInfinity (r : Processed) : number :=
  match distance r with
  | Some d => d
  | None => PosInf
  end.

(** The comparator handed to [processedResults.sort]. *)
Definition byDistance (a b : Processed) : number :=
  sub (distOrInfinity a) (distOrInfinity b).

(** [processedResults.forEach((result, index) => result.index = index + 1)] *)
Definition renumber (l : list Processed) : list Processed :=
  imap (fun i r => set_index r (i + 1)) l.

(** "Sort by distance if available": lines 671-682 of [updateSidebar]. *)
Definition sortByDistance (processedResults : list Processed) : list Processed :=
  if (0 <? length processedResults)%nat && existsb hasDistance processedResults
  then renumber (sort byDistance processedResults)
  else processedResults.

Section Runtime.
Context {E : Engine}.

(** ToString, as template literals and [String(...)] apply it. *)
Fixpoint ToString (v : value) : string :=
  match v with
  | VUndef => "undefined"
  | VNull => "null"
  | VBool true => "true"
  | VBool false => "false"
  | VNum n => Number_toString n
  | VStr s => s
  | VObj _ => "[object Object]"
  | VArr a =>
      let element x :=
        match x with
        | VUndef | VNull => ""
        | _ => ToString x
        end in
      let fix join (l : list value) : string :=
        match l with
        | [] => ""
        | [x] => element x
        | x :: r => element x ++ "," ++ join r
        end in
      join a
  end.

(** [x * Math.PI / 180] *)
Definition toRadians (x : number) : number := div (mul x Math_PI) (of_Z 180).

(** [calculateDistance] of [main.js]: haversine distance in miles. *)
Definition calculateDistance (lat1 lng1 lat2 lng2 : number) : number :=
  let R := of_Z 3959 in
  let dLat := toRadians (sub lat2 lat1) in
  let dLng := toRadians (sub lng2 lng1) in
  let a :=
    add (mul (Math_sin (div dLat (of_Z 2))) (Math_sin (div dLat (of_Z 2))))
        (mul (mul (mul (Math_cos (toRadians lat1)) (Math_cos (toRadians lat2)))
                  (Math_sin (div dLng (of_Z 2))))
             (Math_sin (div dLng (of_Z 2)))) in
  let c := mul (of_Z 2) (Math_atan2 (Math_sqrt a) (Math_sqrt (sub (of_Z 1) a))) in
  mul R c.

(** [raw.json || raw] *)
Definition unwrap (raw : record) : value :=
  or_ (get (VObj raw) "json") (VObj raw).

(** The callback of [results.map] in [updateSidebar]; [i] is the array
    index. *)
Definition processResult (lastSearchLocation : option (number * number))
    (i : nat) (raw : record) : Processed :=
  let rec := unwrap raw in
  let locLat :=
    parseFloat (nullish (nullish (nullish (get rec "latitude") (get rec "lat"))
                                 (get rec "Latitude")) (get rec "Lat")) in
  let locLon :=
    parseFloat (nullish (nullish (nullish (get rec "longitude") (get rec "lon"))
                                 (get rec "Longitude")) (get rec "Lon")) in
  let distanceMiles :=
    match lastSearchLocation with
    | Some (lat, lon) =>
        if negb (isNaN locLat) && negb (isNaN locLon)
        then Some (toFixed1 (calculateDistance lat lon locLat locLon))
        else None
    | None => None
    end in
  {| index := i + 1;
     serial := or_ (get rec "serial") (or_ (get rec "Serial")
                (or_ (get rec "Serial No.") (or_ (get rec "Serial No")
                (or_ (get rec "serial_no") (VNum (of_nat (i + 1)))))));
     name := or_ (get rec "name") (or_ (get rec "Name") (VStr "Unnamed"));
     businessName := or_ (get rec "business_name") (or_ (get rec "Business Name") (VStr ""));
     address := or_ (get rec "address") (or_ (get rec "Address") (VStr ""));
     type := or_ (get rec "type") (or_ (get rec "Type") (VStr ""));
     state := or_ (get rec "state") (or_ (get rec "State") (VStr ""));
     contact := or_ (get rec "contact") (or_ (get rec "Contact") (VStr ""));
     email := or_ (get rec "email") (or_ (get rec "Email") (VStr ""));
     website := or_ (get rec "website") (or_ (get rec "Website") (VStr ""));
     distance := distanceMiles;
     rating := or_ (get rec "rating") (or_ (get rec "Rating") VNull);
     feedback := or_ (get rec "feedback") (or_ (get rec "Feedback") VNull) |}.

(** [processedResults] as the card loop of [updateSidebar] receives it. *)
Definition processResults (lastSearchLocation : option (number * number))
    (results : list record) : list Processed :=
  sortByDistance (imap (processResult lastSearchLocation) results).

(** The popup text [plotMarkers] binds to a marker. *)
Definition popupContent (rec : value) : string :=
  nl ++
  "            <b>" ++ ToString (or_ (get rec "name") (or_ (get rec "Name") (VStr "Unnamed"))) ++ "</b><br>" ++ nl ++
  "            <i>" ++ ToString (or_ (get rec "business_name") (or_ (get rec "Business Name") (VStr ""))) ++ "</i><br>" ++ nl ++
  "            <span style=" ++ dquote ++ "font-weight:600;" ++ dquote ++ ">"
    ++ ToString (or_ (get rec "type") (or_ (get rec "Type") (VStr ""))) ++ "</span><br>" ++ nl ++
  "            " ++ ToString (or_ (get rec "address") (or_ (get rec "Address") (VStr ""))) ++ "<br>" ++ nl ++
  "          " ++ nl ++
  "            <a" ++ nl ++
  "              href=" ++ dquote ++ "mailto:" ++ ToString (or_ (get rec "email") (get rec "Email")) ++ "?" ++ dquote ++ nl ++
  "              class=" ++ dquote ++ "email-link" ++ dquote ++ nl ++
  "            >" ++ nl ++
  "              " ++ ToString (or_ (get rec "email") (get rec "Email")) ++ nl ++
  "            </a><br>" ++ nl ++
  "          " ++ nl ++
  "            " ++ ToString (or_ (get rec "contact") (or_ (get rec "Contact") (VStr ""))) ++ "<br>" ++ nl ++
  "            " ++ ToString (or_ (get rec "rates") (or_ (get rec "Rates") (VStr ""))) ++ nl ++
  "          ".
End Runtime.

(** ** The page: module-level variables, the Leaflet map, the document *)

(** A layer object created by [L.tileLayer], [L.marker], [L.circle] or
    [L.circleMarker]. *)
Inductive layerObj : Type :=
| TileLayer (url : string)
| Marker (lat lon : number) (popup : option string)
| Circle (lat lon radius : number)
| CircleMarker (lat lon : number) (popup : option string).

Definition isMarker (o : layerObj) : bool :=
  match o with Marker _ _ _ => true | _ => false end.

Definition isCircle (o : layerObj) : bool :=
  match o with Circle _ _ _ => true | _ => false end.

(** [layer.bindPopup(content)] on the object itself. *)
Definition withPopup (content : string) (o : layerObj) : layerObj :=
  match o with
  | Marker lat lon _ => Marker lat lon (Some content)
  | CircleMarker lat lon _ => CircleMarker lat lon (Some content)
  | Circle lat lon r => Circle lat lon r
  | TileLayer url => TileLayer url
  end.

(** The [let] variables at the top of [main.js]; layers are held by
    reference (their stamp). *)
Record Globals : Type := mkGlobals {
  markers : list nat;
  searchCircle : option nat;
  searchLocationMarker : option nat;
  isLoading : bool;
  lastSearchLocation : option (number * number)
}.

(** The Leaflet side: every layer object created so far, the stamps of the
    layers now on the map, and the last stamp handed out. *)
Record LeafletMap : Type := mkLeaflet {
  objects : gmap nat layerObj;
  mapLayers : gset nat;
  lastId : nat
}.

Inductive event : Type :=
| HttpGet (url : string)
| HttpPost (url : string) (body : value)
| ConsoleWarn (text : string) (arg : value)
| Alert (text : string)
| FitBounds (layers : list nat)
| SetView (lat lon : number)
| SetTimeout (ms : nat) (task : string).

Inductive exn : Type :=
| TypeError (text : string)
| Error (text : string)
| NetworkError.

(** What an awaited [axios] call gives back. *)
Inductive outcome (A : Type) : Type :=
| Resolved (data : A)
| Rejected.
Arguments Resolved {A} data.
Arguments Rejected {A}.

Record Button : Type := mkButton {
  disabled : bool;
  textContent : string
}.

Record Field : Type := mkField {
  label : string;
  text : value;
  href : option string
}.

(** A result card with its feedback form: the closure variable
    [selectedRating] and the properties of the elements the handlers
    touch. *)
Record Card : Type := mkCard {
  card_result : Processed;
  card_fields : list Field;
  ratingDisplay : string;
  feedbackDisplay : string;
  writeFeedbackBtn_display : string;
  feedbackForm_display : string;
  selectedRating : nat;
  stars_selected : list bool;
  stars_pointerEvents : string;
  textarea_value : string;
  textarea_disabled : bool;
  submitBtn : Button;
  submitBtn_submitting : bool;
  submitBtn_background : string
}.

Inductive Node : Type :=
| ResultEmpty
| ResultCard (c : Card).

Inductive messageKind : Type := ErrorMessage | SuccessMessage.

(** The elements of the document the modelled functions write to.  Layout
    (sidebar classes, widths, scrolling) and the timers that take a message
    away again are left out. *)
Record Page : Type := mkPage {
  loadingIndicator_hidden : bool;
  searchBtn_disabled : bool;
  updateMapBtn : option Button;
  message : option (messageKind * string);
  sidebarTitle : string;
  sidebarContent : list Node
}.

Record State : Type := mkState {
  globals : Globals;
  leaflet : LeafletMap;
  page : Page;
  events : list event
}.

Definition with_globals (f : Globals -> Globals) (st : State) : State :=
  {| globals := f (globals st); leaflet := leaflet st; page := page st;
     events := events st |}.
Definition with_leaflet (f : LeafletMap -> LeafletMap) (st : State) : State :=
  {| globals := globals st; leaflet := f (leaflet st); page := page st;
     events := events st |}.
Definition with_page (f : Page -> Page) (st : State) : State :=
  {| globals := globals st; leaflet := leaflet st; page := f (page st);
     events := events st |}.

(** A call that leaves the page. *)
Definition emit (e : event) (st : State) : State :=
  {| globals := globals st; leaflet := leaflet st; page := page st;
     events := events st ++ [e] |}.

Definition set_markers (v : list nat) (g : Globals) : Globals :=
  {| markers := v; searchCircle := searchCircle g;
     searchLocationMarker := searchLocationMarker g; isLoading := isLoading g;
     lastSearchLocation := lastSearchLocation g |}.
Definition set_searchCircle (v : option nat) (g : Globals) : Globals :=
  {| markers := markers g; searchCircle := v;
     searchLocationMarker := searchLocationMarker g; isLoading := isLoading g;
     lastSearchLocation := lastSearchLocation g |}.
Definition set_searchLocationMarker (v : option nat) (g : Globals) : Globals :=
  {| markers := markers g; searchCircle := searchCircle g;
     searchLocationMarker := v; isLoading := isLoading g;
     lastSearchLocation := lastSearchLocation g |}.
Definition set_isLoading (v : bool) (g : Globals) : Globals :=
  {| markers := markers g; searchCircle := searchCircle g;
     searchLocationMarker := searchLocationMarker g; isLoading := v;
     lastSearchLocation := lastSearchLocation g |}.
Definition set_lastSearchLocation (v : option (number * number)) (g : Globals) : Globals :=
  {| markers := markers g; searchCircle := searchCircle g;
     searchLocationMarker := searchLocationMarker g; isLoading := isLoading g;
     lastSearchLocation := v |}.

Definition set_objects (v : gmap nat layerObj) (m : LeafletMap) : LeafletMap :=
  {| objects := v; mapLayers := mapLayers m; lastId := lastId m |}.
Definition set_mapLayers (v : gset nat) (m : LeafletMap) : LeafletMap :=
  {| objects := objects m; mapLayers := v; lastId := lastId m |}.

Definition set_loading (hidden : bool) (search_off : bool) (p : Page) : Page :=
  {| loadingIndicator_hidden := hidden; searchBtn_disabled := search_off;
     updateMapBtn :=
       match updateMapBtn p with
       | Some b => Some {| disabled := search_off; textContent := textContent b |}
       | None => None
       end;
     message := message p; sidebarTitle := sidebarTitle p;
     sidebarContent := sidebarContent p |}.
Definition set_updateMapBtn (f : Button -> Button) (p : Page) : Page :=
  {| loadingIndicator_hidden := loadingIndicator_hidden p;
     searchBtn_disabled := searchBtn_disabled p;
     updateMapBtn := match updateMapBtn p with Some b => Some (f b) | None => None end;
     message := message p; sidebarTitle := sidebarTitle p;
     sidebarContent := sidebarContent p |}.
Definition set_message (v : option (messageKind * string)) (p : Page) : Page :=
  {| loadingIndicator_hidden := loadingIndicator_hidden p;
     searchBtn_disabled := searchBtn_disabled p; updateMapBtn := updateMapBtn p;
     message := v; sidebarTitle := sidebarTitle p;
     sidebarContent := sidebarContent p |}.
Definition set_sidebarTitle (v : string) (p : Page) : Page :=
  {| loadingIndicator_hidden := loadingIndicator_hidden p;
     searchBtn_disabled := searchBtn_disabled p; updateMapBtn := updateMapBtn p;
     message := message p; sidebarTitle := v;
     sidebarContent := sidebarContent p |}.
Definition set_sidebarContent (v : list Node) (p : Page) : Page :=
  {| loadingIndicator_hidden := loadingIndicator_hidden p;
     searchBtn_disabled := searchBtn_disabled p; updateMapBtn := updateMapBtn p;
     message := message p; sidebarTitle := sidebarTitle p;
     sidebarContent := v |}.

(** *** Leaflet calls *)

(** [L.marker(...)], [L.circle(...)], [L.circleMarker(...)]: a new object
    under the next stamp. *)
Definition newLayer (o : layerObj) (st : State) : nat * State :=
  let id := S (lastId (leaflet st)) in
  (id, with_leaflet (fun m =>
         {| objects := <[id := o]> (objects m); mapLayers := mapLayers m;
            lastId := id |}) st).

(** [layer.addTo(map)] *)
Definition addLayer (id : nat) (st : State) : State :=
  with_leaflet (fun m => set_mapLayers ({[id]} ∪ mapLayers m) m) st.

(** [map.removeLayer(layer)] *)
Definition removeLayer (id : nat) (st : State) : State :=
  with_leaflet (fun m => set_mapLayers (mapLayers m ∖ {[id]}) m) st.

(** [layer.bindPopup(content)] *)
Definition bindPopup (id : nat) (content : string) (st : State) : State :=
  with_leaflet (fun m => set_objects (alter (withPopup content) id (objects m)) m) st.

(** [toLatLng([lat, lon])], which every layer constructor and [setView]
    go through, throws on a NaN coordinate. *)
Definition invalidLatLng (lat lon : number) : bool := isNaN lat || isNaN lon.
Definition InvalidLatLng : exn := Error "Invalid LatLng object".

(** ** Configuration *)

Definition API_BASE_URL : string := "https://n8n.srv1108756.hstgr.cloud/webhook/map".
Definition API_UPDATE_URL : string := "https://n8n.srv1108756.hstgr.cloud/webhook/map/update".
Definition API_REVIEW_URL : string := "https://n8n.srv1108756.hstgr.cloud/webhook/map/review".
Definition NOMINATIM_API : string := "https://nominatim.openstreetmap.org/search".

(** ** Computations that may throw *)

Definition M (A : Type) : Type := State -> (exn + A) * State.

Definition ret {A : Type} (a : A) : M A := fun st => (inr a, st).

Definition bind {A B : Type} (m : M A) (f : A -> M B) : M B :=
  fun st =>
    match m st with
    | (inr a, st') => f a st'
    | (inl e, st') => (inl e, st')
    end.

Definition throw {A : Type} (e : exn) : M A := fun st => (inl e, st).

(** A statement that cannot throw. *)
Definition run (f : State -> State) : M unit := fun st => (inr tt, f st).

(** [try { m } catch (error) { handler }] *)
Definition try_catch (m : M unit) (handler : State -> State) : M unit :=
  fun st =>
    match m st with
    | (inr a, st') => (inr a, st')
    | (inl _, st') => (inr tt, handler st')
    end.

(** [try { m } finally { cleanup }] *)
Definition try_finally (m : M unit) (cleanup : State -> State) : M unit :=
  fun st => let '(r, st') := m st in (r, cleanup st').

#[export] Instance M_ret : MRet M := @ret.
#[export] Instance M_bind : MBind M := fun A B f m => bind m f.

Section Script.
Context {E : Engine}.

(** *** Messages and the loading indicator *)

(** [showError(message)]: any message on display is replaced. *)
Definition showError (text : string) (st : State) : State :=
  with_page (set_message (Some (ErrorMessage, text))) st.

(** [showSuccess(message)] *)
Definition showSuccess (text : string) (st : State) : State :=
  with_page (set_message (Some (SuccessMessage, text))) st.

(** [showLoading(show)] *)
Definition showLoading (show : bool) (st : State) : State :=
  with_globals (set_isLoading show)
    (with_page (set_loading (negb show) show) st).

(** *** Markers *)

(** The callback of [data.forEach] in [plotMarkers]; [L.marker] is called
    behind the script's own NaN test and so accepts the coordinates. *)
Definition plotMarker (raw : record) (st : State) : State :=
  let rec := unwrap raw in
  let lat := parseFloat (get rec "latitude") in
  let lon := parseFloat (get rec "longitude") in
  if isNaN lat || isNaN lon then
    emit (ConsoleWarn "Invalid coordinates in record:" rec) st
  else
    let '(marker, st1) := newLayer (Marker lat lon None) st in
    let st2 := addLayer marker st1 in
    let st3 := bindPopup marker (popupContent rec) st2 in
    with_globals (fun g => set_markers (markers g ++ [marker]) g) st3.

(** [plotMarkers(data)] *)
Definition plotMarkers (data : list record) (st : State) : State :=
  match data with
  | [] => st
  | _ =>
      let st1 := foldl (fun s raw => plotMarker raw s) st data in
      match markers (globals st1) with
      | [] => st1
      | ms => emit (FitBounds ms) st1
      end
  end.

(** [clearMarkers()] *)
Definition clearMarkers (st : State) : State :=
  let st1 := foldl (fun s marker => removeLayer marker s) st (markers (globals st)) in
  with_globals (set_markers []) st1.

(** [drawSearchCircle(lat, lon, radiusMiles)]: the circle in place is
    taken off the map before [L.circle] is called. *)
Definition drawSearchCircle (lat lon radiusMiles : number) : M unit :=
  fun st =>
    let st1 :=
      match searchCircle (globals st) with
      | Some c => removeLayer c st
      | None => st
      end in
    if invalidLatLng lat lon then (inl InvalidLatLng, st1)
    else
      let '(c, st2) := newLayer (Circle lat lon (mul radiusMiles (Fin 1609.34))) st1 in
      (inr tt, with_globals (set_searchCircle (Some c)) (addLayer c st2)).

(** [highlightSearchLocation(lat, lon, label)]; the map exists once the
    page has loaded. *)
Definition highlightSearchLocation (lat lon : number) (label : value) : M unit :=
  fun st =>
    let label := match label with VUndef => VStr "" | _ => label end in
    let st1 :=
      match searchLocationMarker (globals st) with
      | Some m => removeLayer m st
      | None => st
      end in
    if invalidLatLng lat lon then (inl InvalidLatLng, st1)
    else
      let '(m, st2) := newLayer (CircleMarker lat lon None) st1 in
      let st3 := with_globals (set_searchLocationMarker (Some m)) (addLayer m st2) in
      (inr tt,
       if truthy label then
         bindPopup m ("<strong>Search location</strong><br>" ++ ToString label) st3
       else st3).

(** [map.setView([lat, lon], ...)] *)
Definition setView (lat lon : number) : M unit :=
  fun st =>
    if invalidLatLng lat lon then (inl InvalidLatLng, st)
    else (inr tt, emit (SetView lat lon) st).

(** *** Result cards *)

(** [updateStars(starsContainer, rating)]: which of the five stars carry
    [star-selected]. *)
Definition updateStars (rating : nat) : list bool :=
  map (fun starRating => (starRating <=? rating)%nat) [1; 2; 3; 4; 5]%nat.

(** A field is put on the card only when its value is truthy. *)
Definition plainField (label : string) (v : value) : list Field :=
  if truthy v then [{| label := label; text := v; href := None |}] else [].

Definition emailField (v : value) : list Field :=
  if truthy v then
    [{| label := "Email:"; text := v; href := Some ("mailto:" ++ ToString v) |}]
  else [].

(** The website field calls [websiteUrl.startsWith], which only a string
    has. *)
Definition websiteField (v : value) : exn + list Field :=
  if truthy v then
    match v with
    | VStr s =>
        let websiteUrl :=
          if negb (startsWith s "http://") && negb (startsWith s "https://")
          then "https://" ++ s else s in
        inr [{| label := "Website:"; text := v; href := Some websiteUrl |}]
    | _ => inl (TypeError "websiteUrl.startsWith is not a function")
    end
  else inr [].

(** The card built for one processed result, with its form closed and
    empty. *)
Definition newCard (result : Processed) : exn + Card :=
  match websiteField (website result) with
  | inl e => inl e
  | inr site =>
      inr {| card_result := result;
             card_fields :=
               plainField "Business:" (businessName result)
               ++ plainField "Address:" (address result)
               ++ plainField "Type:" (type result)
               ++ plainField "State:" (state result)
               ++ plainField "Contact:" (contact result)
               ++ emailField (email result)
               ++ site;
             ratingDisplay :=
               if truthy (rating result) then ToString (rating result) ++ " ⭐"
               else "Not rated yet";
             feedbackDisplay :=
               ToString (or_ (feedback result) (VStr "No feedback yet"));
             writeFeedbackBtn_display := "";
             feedbackForm_display := "none";
             selectedRating := 0;
             stars_selected := updateStars 0;
             stars_pointerEvents := "";
             textarea_value := "";
             textarea_disabled := false;
             submitBtn := {| disabled := false; textContent := "💾 Submit" |};
             submitBtn_submitting := false;
             submitBtn_background := "" |}
  end.

(** The body of [processedResults.forEach(result => ...)]: the card is
    appended once it is complete. *)
Definition appendCard (result : Processed) : M unit :=
  fun st =>
    match newCard result with
    | inl e => (inl e, st)
    | inr c =>
        (inr tt, with_page (fun p =>
           set_sidebarContent (sidebarContent p ++ [ResultCard c]) p) st)
    end.

Fixpoint forEach {A : Type} (f : A -> M unit) (l : list A) : M unit :=
  match l with
  | [] => ret tt
  | x :: r => bind (f x) (fun _ => forEach f r)
  end.

Definition span : string :=
  "<br><span style=" ++ dquote ++ "font-size: 14px; font-weight: 400; opacity: 0.9;"
  ++ dquote ++ ">".

(** [updateSidebar(results, radius)] *)
Definition updateSidebar (results : list record) (radius : number) : M unit :=
  (run (with_page (set_sidebarTitle
     match results with
     | [] => "Search Results" ++ span ++ "Total results: 0</span>"
     | _ => "Results within " ++ Number_toString radius ++ " miles" ++ span
            ++ "Total results: " ++ Number_toString (of_nat (length results))
            ++ "</span>"
     end)) ;;
   run (with_page (set_sidebarContent [])) ;;
   match results with
   | [] => run (with_page (set_sidebarContent [ResultEmpty]))
   | _ =>
       fun st =>
         forEach appendCard
           (processResults (lastSearchLocation (globals st)) results) st
   end).

(** *** The feedback form of a card *)

Definition set_rating (rating : nat) (c : Card) : Card :=
  {| card_result := card_result c; card_fields := card_fields c;
     ratingDisplay := ratingDisplay c; feedbackDisplay := feedbackDisplay c;
     writeFeedbackBtn_display := writeFeedbackBtn_display c;
     feedbackForm_display := feedbackForm_display c;
     selectedRating := rating; stars_selected := updateStars rating;
     stars_pointerEvents := stars_pointerEvents c;
     textarea_value := textarea_value c;
     textarea_disabled := textarea_disabled c; submitBtn := submitBtn c;
     submitBtn_submitting := submitBtn_submitting c;
     submitBtn_background := submitBtn_background c |}.

Definition set_textarea_value (v : string) (c : Card) : Card :=
  {| card_result := card_result c; card_fields := card_fields c;
     ratingDisplay := ratingDisplay c; feedbackDisplay := feedbackDisplay c;
     writeFeedbackBtn_display := writeFeedbackBtn_display c;
     feedbackForm_display := feedbackForm_display c;
     selectedRating := selectedRating c; stars_selected := stars_selected c;
     stars_pointerEvents := stars_pointerEvents c;
     textarea_value := v;
     textarea_disabled := textarea_disabled c; submitBtn := submitBtn c;
     submitBtn_submitting := submitBtn_submitting c;
     submitBtn_background := submitBtn_background c |}.

Definition set_displays (form button : string) (c : Card) : Card :=
  {| card_result := card_result c; card_fields := card_fields c;
     ratingDisplay := ratingDisplay c; feedbackDisplay := feedbackDisplay c;
     writeFeedbackBtn_display := button;
     feedbackForm_display := form;
     selectedRating := selectedRating c; stars_selected := stars_selected c;
     stars_pointerEvents := stars_pointerEvents c;
     textarea_value := textarea_value c;
     textarea_disabled := textarea_disabled c; submitBtn := submitBtn c;
     submitBtn_submitting := submitBtn_submitting c;
     submitBtn_background := submitBtn_background c |}.

Definition set_shown (ratingText feedbackText : string) (c : Card) : Card :=
  {| card_result := card_result c; card_fields := card_fields c;
     ratingDisplay := ratingText; feedbackDisplay := feedbackText;
     writeFeedbackBtn_display := writeFeedbackBtn_display c;
     feedbackForm_display := feedbackForm_display c;
     selectedRating := selectedRating c; stars_selected := stars_selected c;
     stars_pointerEvents := stars_pointerEvents c;
     textarea_value := textarea_value c;
     textarea_disabled := textarea_disabled c; submitBtn := submitBtn c;
     submitBtn_submitting := submitBtn_submitting c;
     submitBtn_background := submitBtn_background c |}.

(** The submit button, the textarea and the stars, switched together. *)
Definition set_controls (off : bool) (buttonText background pointerEvents : string)
    (c : Card) : Card :=
  {| card_result := card_result c; card_fields := card_fields c;
     ratingDisplay := ratingDisplay c; feedbackDisplay := feedbackDisplay c;
     writeFeedbackBtn_display := writeFeedbackBtn_display c;
     feedbackForm_display := feedbackForm_display c;
     selectedRating := selectedRating c; stars_selected := stars_selected c;
     stars_pointerEvents := pointerEvents;
     textarea_value := textarea_value c;
     textarea_disabled := off;
     submitBtn := {| disabled := off; textContent := buttonText |};
     submitBtn_submitting := off;
     submitBtn_background := background |}.

(** The click listener of star [i]. *)
Definition star_click (i : nat) (c : Card) : Card := set_rating i c.

(** The click listener of the "Write Feedback" button. *)
Definition writeFeedbackBtn_click (c : Card) : Card :=
  let isVisible := negb (String.eqb (feedbackForm_display c) "none") in
  let c1 :=
    set_displays (if isVisible then "none" else "block")
                 (if isVisible then "block" else "none") c in
  if negb isVisible then set_textarea_value "" (set_rating 0 c1) else c1.

(** The body sent to the review webhook. *)
Definition requestBody (result : Processed) (rating : nat) (feedbackText : string)
    : value :=
  VObj (<["serial" := VStr (ToString (serial result))]>
       (<["review" := VNum (of_nat rating)]>
       (<["feedback" := VStr feedbackText]> ∅))).

(** The click listener of the submit button, up to its first [await]: the
    card, the calls made, and the feedback text when a request is now in
    flight. *)
Definition submitBtn_click (c : Card) : Card * list event * option string :=
  if (selectedRating c =? 0)%nat then
    (c, [Alert "Please select a star rating before submitting."], None)
  else
    let feedbackText := trim (textarea_value c) in
    (set_controls true "⏳ Submitting..." (submitBtn_background c) "none" c,
     [HttpPost API_REVIEW_URL (requestBody (card_result c) (selectedRating c) feedbackText)],
     Some feedbackText).

(** The listener after [await axios.post(...)]: on success it awaits the
    half-second pause, on failure it runs the [catch] block. *)
Definition submitBtn_posted (o : outcome value) (c : Card) : Card * list event :=
  match o with
  | Resolved _ =>
      (set_controls true "✅ Submitted!" "#2ed573" (stars_pointerEvents c) c,
       [SetTimeout 500 "resolve"])
  | Rejected =>
      (set_controls false "💾 Submit" "" "auto" c,
       [Alert "Failed to submit feedback. Please try again."])
  end.

(** The rest of the success path, after the pause. *)
Definition submitBtn_finished (feedbackText : string) (c : Card) : Card * list event :=
  let c1 := set_displays "none" "block" c in
  let c2 :=
    set_shown (Number_toString (of_nat (selectedRating c)) ++ " ⭐")
              (if String.eqb feedbackText "" then "No feedback yet" else feedbackText)
              c1 in
  let c3 := set_textarea_value "" (set_rating 0 c2) in
  (set_controls false "💾 Submit" "" "auto" c3, [Alert "Feedback submitted!"]).

(** The cards now in the sidebar. *)
Definition cards (st : State) : list Card :=
  omap (fun n => match n with ResultCard c => Some c | ResultEmpty => None end)
       (sidebarContent (page st)).
End Script.

Section Flows.
Context {E : Engine}.

(** *** Geocoding *)

Record GeoResult : Type := mkGeo {
  lat : number;
  lon : number;
  display_name : value
}.

(** The request [geocodeAddress] sends. *)
Definition geocodeUrl (address : string) : string :=
  NOMINATIM_API ++ "?format=json&q=" ++ encodeURIComponent address ++ "&limit=1".

(** Reading a property throws on null and undefined. *)
Definition getProp (v : value) (k : string) : exn + value :=
  match v with
  | VUndef | VNull => inl (TypeError "Cannot read properties")
  | _ => inr (get v k)
  end.

(** The [try] block of [geocodeAddress] from the [await] on; the response
    data is the JSON array the service answers with. *)
Definition geocodeAddress_try (response : outcome (list value))
    : exn + option GeoResult :=
  match response with
  | Rejected => inl NetworkError
  | Resolved [] => inr None
  | Resolved (result :: _) =>
      match getProp result "lat", getProp result "lon", getProp result "display_name" with
      | inr la, inr lo, inr dn =>
          inr (Some {| lat := parseFloat la; lon := parseFloat lo; display_name := dn |})
      | inl e, _, _ | _, inl e, _ | _, _, inl e => inl e
      end
  end.

(** [geocodeAddress]: what its promise settles to, [inl] being a
    rejection. *)
Definition geocodeAddress (response : outcome (list value))
    : exn + option GeoResult :=
  match geocodeAddress_try response with
  | inr r => inr r
  | inl _ => inr None
  end.

(** *** [handleSearch] *)

Record SearchTask : Type := mkTask {
  task_address : string;
  task_radius : number;
  task_radiusKm : number
}.

(** From the call to the first [await]: validation, the single-flight
    guard, and the geocoding request. *)
Definition handleSearch_begin (addressInput_value radiusInput_value : string)
    (st : State) : State * option SearchTask :=
  let address := trim addressInput_value in
  let radius := parseFloatStr radiusInput_value in
  if String.eqb address "" then
    (showError "Please enter an address" st, None)
  else if negb (num_truthy radius) || leb radius (Fin 0) then
    (showError "Please enter a valid radius (greater than 0)" st, None)
  else if isLoading (globals st) then (st, None)
  else
    let st1 := showLoading true st in
    let radiusKm := mul radius (Fin 1.60934) in
    (emit (HttpGet (geocodeUrl address)) st1,
     Some {| task_address := address; task_radius := radius;
             task_radiusKm := radiusKm |}).

(** The [keypress] listener of the address and radius inputs. *)
Definition input_keypress (key addressInput_value radiusInput_value : string)
    (st : State) : State * option SearchTask :=
  if String.eqb key "Enter" && negb (isLoading (globals st))
  then handleSearch_begin addressInput_value radiusInput_value st
  else (st, None).

(** A click on the search button; a disabled button dispatches none. *)
Definition searchBtn_click (addressInput_value radiusInput_value : string)
    (st : State) : State * option SearchTask :=
  if searchBtn_disabled (page st) then (st, None)
  else handleSearch_begin addressInput_value radiusInput_value st.

(** The body of the query request. *)
Definition queryBody (g : GeoResult) (radiusKm : number) : value :=
  VObj (<["latitude" := VNum (lat g)]>
       (<["longitude" := VNum (lon g)]>
       (<["radius" := VNum radiusKm]> ∅))).

(** From the geocoding result to the second [await]. *)
Definition handleSearch_geocoded (task : SearchTask) (geocodeResult : option GeoResult)
    (st : State) : State * option GeoResult :=
  match geocodeResult with
  | None =>
      (showLoading false
         (showError "Could not find the specified address. Please try a different address." st),
       None)
  | Some g =>
      let st1 := with_globals (set_lastSearchLocation (Some (lat g, lon g))) st in
      (emit (HttpPost (API_BASE_URL ++ "/query") (queryBody g (task_radiusKm task))) st1,
       Some g)
  end.

(** Steps 3 to 6 of [handleSearch]. *)
Definition showResults (task : SearchTask) (g : GeoResult) (data : list record)
    : M unit :=
  run clearMarkers ;;
  run (plotMarkers data) ;;
  updateSidebar data (task_radius task) ;;
  drawSearchCircle (lat g) (lon g) (task_radius task) ;;
  highlightSearchLocation (lat g) (lon g)
    (or_ (display_name g) (VStr (task_address task))) ;;
  setView (lat g) (lon g) ;;
  run (fun st =>
         match data with
         | [] => showError "No locations found within that radius." st
         | _ => st
         end).

(** From the query response to the end, through [catch] and [finally]. *)
Definition handleSearch_queried (task : SearchTask) (g : GeoResult)
    (response : outcome (list record)) (st : State) : State :=
  snd (try_finally
         (try_catch
            match response with
            | Rejected => throw NetworkError
            | Resolved data => showResults task g data
            end
            (showError "Search failed. Please try again."))
         (showLoading false) st).

(** One search run to its end, given what the two requests come back
    with. *)
Definition handleSearch (addressInput_value radiusInput_value : string)
    (geocoding : outcome (list value)) (query : outcome (list record))
    (st : State) : State :=
  match handleSearch_begin addressInput_value radiusInput_value st with
  | (st1, None) => st1
  | (st1, Some task) =>
      match geocodeAddress geocoding with
      | inl _ =>
          showLoading false (showError "Search failed. Please try again." st1)
      | inr geocodeResult =>
          match handleSearch_geocoded task geocodeResult st1 with
          | (st2, None) => st2
          | (st2, Some g) => handleSearch_queried task g query st2
          end
      end
  end.

(** *** [loadAllPins] *)

Definition loadAllPins_begin (st : State) : State :=
  emit (HttpGet (API_BASE_URL ++ "/data")) (showLoading true st).

Definition loadAllPins_loaded (response : outcome (list record)) (st : State) : State :=
  showLoading false
    match response with
    | Resolved data => plotMarkers data st
    | Rejected =>
        showError "Failed to load locations. Please check your connection and try again." st
    end.

Definition loadAllPins (response : outcome (list record)) (st : State) : State :=
  loadAllPins_loaded response (loadAllPins_begin st).

(** *** [handleUpdateMap] *)

Definition handleUpdateMap_begin (st : State) : State * bool :=
  if isLoading (globals st) then (st, false)
  else
    let st1 := showLoading true st in
    let st2 :=
      with_page (set_updateMapBtn (fun _ =>
        {| disabled := true; textContent := "Updating..." |})) st1 in
    (emit (HttpPost API_UPDATE_URL VUndef) st2, true).

Definition handleUpdateMap_updated (response : outcome value) (st : State) : State :=
  let st1 :=
    match response with
    | Resolved _ =>
        emit (SetTimeout 1000 "loadAllPins")
          (showSuccess "Map update triggered successfully!" st)
    | Rejected => showError "Failed to trigger map update. Please try again." st
    end in
  with_page (set_updateMapBtn (fun _ =>
    {| disabled := false; textContent := "Update Map" |})) (showLoading false st1).
End Flows.

(** The page once [initializeMap] has run: the tile layer is on the map
    and nothing else is. *)
Definition loaded : State :=
  {| globals := {| markers := []; searchCircle := None;
                   searchLocationMarker := None; isLoading := false;
                   lastSearchLocation := None |};
     leaflet := {| objects := {[ 1%nat := TileLayer "https://{s}.tile.openstreetmap.org/{z}/{x}/{y}.png" ]};
                   mapLayers := {[ 1%nat ]}; lastId := 1 |};
     page := {| loadingIndicator_hidden := true; searchBtn_disabled := false;
                updateMapBtn := Some {| disabled := false; textContent := "Update Map" |};
                message := None; sidebarTitle := ""; sidebarContent := [] |};
     events := [] |}.

(** ** The feedback form inside the page *)

Section Sidebar.
Context {E : Engine}.

Definition emit_all (l : list event) (st : State) : State :=
  foldl (fun s e => emit e s) st l.

(** A click on the submit button of the card at position [i] of the
    sidebar. *)
Definition submit_click (i : nat) (st : State) : State * option string :=
  match sidebarContent (page st) !! i with
  | Some (ResultCard c) =>
      let '(c', calls, pending) := submitBtn_click c in
      (emit_all calls
         (with_page (fun p =>
            set_sidebarContent (<[i := ResultCard c']> (sidebarContent p)) p) st),
       pending)
  | _ => (st, None)
  end.
End Sidebar.

(** ** Notions the statements use *)

Section Notions.
Context {E : Engine}.

(** The coordinates [plotMarkers] reads off a record. *)
Definition markerLat (raw : record) : number :=
  parseFloat (get (unwrap raw) "latitude").
Definition markerLon (raw : record) : number :=
  parseFloat (get (unwrap raw) "longitude").

(** The record passes the [isNaN] test of [plotMarkers]. *)
Definition plottable (raw : record) : bool :=
  negb (isNaN (markerLat raw) || isNaN (markerLon raw)).

(** The marker [plotMarkers] makes of a record that passes. *)
Definition markerOf (raw : record) : layerObj :=
  Marker (markerLat raw) (markerLon raw) (Some (popupContent (unwrap raw))).

(** Latitude in [[-90, 90]] and longitude in [[-180, 180]]. *)
Definition inRange (lat lon : number) : bool :=
  leb (of_Z (-90)) lat && leb lat (of_Z 90)
  && leb (of_Z (-180)) lon && leb lon (of_Z 180).

Definition layerInRange (o : layerObj) : bool :=
  match o with
  | Marker lat lon _ => isFinite lat && isFinite lon && inRange lat lon
  | _ => true
  end.

(** The layer objects behind a list of stamps. *)
Definition layersOf (st : State) (ids : list nat) : list (option layerObj) :=
  map (fun id => objects (leaflet st) !! id) ids.

Definition hasKind (kind : layerObj -> bool) (st : State) (id : nat) : bool :=
  match objects (leaflet st) !! id with
  | Some o => kind o
  | None => false
  end.

(** The stamps on the map that belong to layers of one kind. *)
Definition onMap (kind : layerObj -> bool) (st : State) : gset nat :=
  filter (fun id => hasKind kind st id = true) (mapLayers (leaflet st)).

(** Stamps are handed out in increasing order: no object, no layer on
    the map, no search circle and no search marker carries a stamp above
    the last one. *)
Definition stamped (st : State) : Prop :=
  (forall id, is_Some (objects (leaflet st) !! id) -> (id <= lastId (leaflet st))%nat)
  /\ (forall id, id ∈ mapLayers (leaflet st) -> (id <= lastId (leaflet st))%nat)
  /\ (forall id, searchLocationMarker (globals st) = Some id ->
        (id <= lastId (leaflet st))%nat)
  /\ (forall id, searchCircle (globals st) = Some id ->
        (id <= lastId (leaflet st))%nat).

(** Every marker on the map is held in [markers]. *)
Definition tracked (st : State) : Prop :=
  forall id, id ∈ onMap isMarker st -> In id (markers (globals st)).

(** The only circle the map can carry is the one [searchCircle] holds. *)
Definition oneCircle (st : State) : Prop :=
  forall id, id ∈ onMap isCircle st -> searchCircle (globals st) = Some id.

(** Rank-free view of a processed result. *)
Definition unranked (r : Processed) : Processed := set_index r 0.

(** [a] may stand before [b]: distances do not decrease, and a missing
    distance comes last. *)
Definition precedes (a b : Processed) : Prop :=
  match distance a, distance b with
  | Some x, Some y => leb x y = true
  | Some _, None => True
  | None, None => True
  | None, Some _ => False
  end.

(** [r] has the distance [d] (or, for [None], has none). *)
Definition sameDistance (d : option number) (r : Processed) : bool :=
  match d, distance r with
  | Some x, Some y => num_eqb x y
  | None, None => true
  | _, _ => false
  end.

(** Every distance present is a finite number. *)
Definition finiteDistance (r : Processed) : bool :=
  match distance r with
  | Some d => isFinite d
  | None => true
  end.

(** The sort key of [r] is a number other than NaN. *)
Definition numericKey (r : Processed) : Prop := isNaN (distOrInfinity r) = false.

(** The card loop of [updateSidebar] gets through the record. *)
Definition renderable (raw : record) : bool :=
  match websiteField (website (processResult None 0 raw)) with
  | inr _ => true
  | inl _ => false
  end.

(** The radius is accepted by the validation of [handleSearch]. *)
Definition validRadius (radius : number) : bool :=
  negb (negb (num_truthy radius) || leb radius (Fin 0)).

(** The controls [showLoading] switches are usable again. *)
Definition controlsEnabled (st : State) : Prop :=
  isLoading (globals st) = false
  /\ searchBtn_disabled (page st) = false
  /\ loadingIndicator_hidden (page st) = true
  /\ match updateMapBtn (page st) with
     | Some b => disabled b = false
     | None => True
     end.

(** The page once [drawSearchCircle] has returned. *)
Definition circleDrawn (lat lon radiusMiles : number) (st : State) : State :=
  snd (drawSearchCircle lat lon radiusMiles st).

(** The page once [highlightSearchLocation] has returned. *)
Definition locationMarked (lat lon : number) (label : value) (st : State) : State :=
  snd (highlightSearchLocation lat lon label st).

(** A computation keeps a property of the page, whether it returns or
    throws. *)
Definition maintains {A : Type} (I : State -> Prop) (m : M A) : Prop :=
  forall st, I st -> I (snd (m st)).

Definition isPost (e : event) : bool :=
  match e with HttpPost _ _ => true | _ => false end.
Definition isRequest (e : event) : bool :=
  match e with HttpPost _ _ | HttpGet _ => true | _ => false end.
End Notions.

(** ** Sample data *)

Module Samples.
(** The answer of the geocoding service for "Birmingham, AL". *)
Definition birmingham : value :=
  VObj (<["lat" := VStr "33.5207"]> (<["lon" := VStr "-86.8025"]>
       (<["display_name" := VStr "Birmingham, Jefferson County, Alabama, United States"]> ∅))).

(** An answer of the geocoding service without coordinates. *)
Definition uncharted : value := VObj (<["display_name" := VStr "Somewhere"]> ∅).

(** The record of the README. *)
Definition office : record :=
  <["Name" := VStr "Office Name"]> (<["Business Name" := VStr "Business Name"]>
  (<["Type" := VStr "Office Type"]> (<["Address" := VStr "123 Main St, City, State"]>
  (<["latitude" := VNum (Fin 33.5207)]> (<["longitude" := VNum (Fin (-86.8025))]>
  (<["Email" := VStr "contact@office.com"]> (<["Contact" := VStr "(205) 123-4567"]>
  (<["Rates" := VStr "$200/hour"]> ∅)))))))).

Definition montgomery : record :=
  <["name" := VStr "Montgomery"]> (<["latitude" := VStr "32.3668"]>
  (<["longitude" := VStr "-86.3"]> (<["email" := VStr "m@example.org"]> ∅))).

(** Coordinates that parse but lie outside the globe. *)
Definition offGlobe : record :=
  <["name" := VStr "Far"]> (<["latitude" := VStr "200"]>
  (<["longitude" := VStr "0"]> ∅)).

(** Coordinates under the short aliases only. *)
Definition aliased : record :=
  <["name" := VStr "Alias"]> (<["lat" := VStr "33.4"]> (<["lon" := VStr "-86.9"]> ∅)).

(** No coordinates at all. *)
Definition unplaced : record := <["name" := VStr "Nowhere"]> ∅.

(** Coordinates, a name, and no e-mail address. *)
Definition noEmail : record :=
  <["name" := VStr "Office"]> (<["latitude" := VStr "33.5"]>
  (<["longitude" := VStr "-86.8"]> ∅)).

(** A latitude that parses to [Infinity], under the short aliases: the
    map leaves the record out, the sidebar measures it. *)
Definition unbounded : record :=
  <["name" := VStr "Pole"]> (<["lat" := VStr "Infinity"]> (<["lon" := VStr "0"]> ∅)).

(** What [geocodeAddress] makes of [birmingham]. *)
Definition birminghamResult : GeoResult :=
  {| lat := Fin 33.5207; lon := fin (-86.8025);
     display_name := VStr "Birmingham, Jefferson County, Alabama, United States" |}.

Definition withDistance (d : option number) : Processed :=
  {| index := 0; serial := VStr "s"; name := VStr "n"; businessName := VStr "";
     address := VStr ""; type := VStr ""; state := VStr ""; contact := VStr "";
     email := VStr ""; website := VStr ""; distance := d; rating := VNull;
     feedback := VNull |}.
End Samples.

(** ** A reference engine

    An engine to run the script on: numbers print in positional decimal
    notation, and the [Math] functions are computed from their series to
    about eighteen decimals.  It serves the worked examples; the general
    statements do not depend on it. *)
Module RefEngine.

(** [q] cut to eighteen decimals. *)
Definition approx (q : Q) : Q :=
  Qred (Qmake (Qfloor (q * inject_Z (10 ^ 18))) (Z.to_pos (10 ^ 18))).

Definition pi : Q := 3.141592653589793%Q.

Fixpoint frac_digits (fuel : nat) (num den : Z) : string :=
  match fuel with
  | O => ""
  | S f =>
      if (num =? 0)%Z then ""
      else String (ascii_of_nat (48 + Z.to_nat (10 * num / den)))
                  (frac_digits f (10 * num mod den)%Z den)
  end.

Definition toString (n : number) : string :=
  match n with
  | NaN => "NaN"
  | PosInf => "Infinity"
  | NegInf => "-Infinity"
  | Fin q =>
      let a := Qabs q in
      let whole := Qfloor a in
      let rest := (Qnum a - whole * Zpos (Qden a))%Z in
      (if Qle_bool 0 q then "" else "-") ++ pretty whole
      ++ (if (rest =? 0)%Z then "" else "." ++ frac_digits 17 rest (Zpos (Qden a)))
  end.

(** Sine of an argument already brought into [-pi/2, pi/2]. *)
Definition sin_series (x : Q) : Q :=
  let x2 := approx (x * x) in
  approx (x * (1 - x2 / 6 * (1 - x2 / 20 * (1 - x2 / 42 * (1 - x2 / 72
          * (1 - x2 / 110 * (1 - x2 / 156 * (1 - x2 / 210 * (1 - x2 / 272))))))))).

Definition sin_q (x : Q) : Q :=
  let turns := Qfloor (x / (2 * pi) + (1 # 2)) in
  let r := approx (x - inject_Z turns * (2 * pi)) in
  if Qle_bool (pi / 2) r then sin_series (pi - r)
  else if Qle_bool r (- (pi / 2)) then sin_series (- pi - r)
  else sin_series r.

Definition sqrt_q (x : Q) : Q :=
  Qred (Qmake (Z.sqrt (Qfloor (x * inject_Z (10 ^ 36)))) (Z.to_pos (10 ^ 18))).

(** Arctangent of [t] in [0, 1]: the argument is halved twice, then the
    series is summed. *)
Definition atan_unit (t : Q) : Q :=
  let halve u := approx (u / (1 + sqrt_q (1 + u * u))) in
  let u := halve (halve t) in
  let u2 := approx (u * u) in
  approx (4 * (u * (1 - u2 * ((1 # 3) - u2 * ((1 # 5) - u2 * ((1 # 7)
          - u2 * ((1 # 9) - u2 * ((1 # 11) - u2 * ((1 # 13) - u2 * (1 # 15)))))))))).

(** Arctangent of [t >= 0]. *)
Definition atan_q (t : Q) : Q :=
  if Qle_bool t 1 then atan_unit t else approx (pi / 2 - atan_unit (/ t)).

Definition atan2_q (y x : Q) : Q :=
  match Qcompare x 0, Qcompare y 0 with
  | Eq, Eq => 0
  | Eq, Gt => pi / 2
  | Eq, Lt => - (pi / 2)
  | Gt, Lt => - atan_q (- y / x)
  | Gt, _ => atan_q (y / x)
  | Lt, Lt => - (pi - atan_q (y / x))
  | Lt, _ => pi - atan_q (- y / x)
  end.

Definition sin (x : number) : number :=
  match x with Fin q => fin (sin_q q) | _ => NaN end.

Definition cos (x : number) : number :=
  match x with Fin q => fin (sin_q (q + pi / 2)) | _ => NaN end.

Definition sqrt (x : number) : number :=
  match x with
  | Fin q => if Qle_bool 0 q then fin (sqrt_q q) else NaN
  | PosInf => PosInf
  | _ => NaN
  end.

Definition atan2 (y x : number) : number :=
  match y, x with
  | NaN, _ | _, NaN => NaN
  | Fin a, Fin b => fin (atan2_q a b)
  | Fin a, PosInf => Fin 0
  | Fin a, NegInf => if Qle_bool 0 a then Fin pi else fin (- pi)
  | PosInf, Fin _ => fin (pi / 2)
  | NegInf, Fin _ => fin (- (pi / 2))
  | PosInf, PosInf => fin (pi / 4)
  | PosInf, NegInf => fin (3 * pi / 4)
  | NegInf, PosInf => fin (- (pi / 4))
  | NegInf, NegInf => fin (- (3 * pi / 4))
  end.

Definition engine : Engine :=
  {| Number_toString := toString;
     Math_PI := Fin pi;
     Math_sin := sin;
     Math_cos := cos;
     Math_sqrt := sqrt;
     Math_atan2 := atan2 |}.
End RefEngine.

(** ** The page over time *)

Section Pages.
Context {E : Engine}.

(** A listener of the card at position [i] of the sidebar runs: the card
    is replaced by what the listener makes of it, and its calls leave the
    page. *)
Definition card_step (i : nat) (listener : Card -> Card * list event) (st : State)
    : State :=
  match sidebarContent (page st) !! i with
  | Some (ResultCard c) =>
      let '(c', calls) := listener c in
      emit_all calls
        (with_page (fun p =>
           set_sidebarContent (<[i := ResultCard c']> (sidebarContent p)) p) st)
  | _ => st
  end.

(** One stretch of script that runs without interruption: a handler up to
    its next [await], for any input and any answer of the network.  The
    stretches of different handlers may follow one another in any order. *)
Inductive stretch : State -> State -> Prop :=
| search_begun (addressInput_value radiusInput_value : string) (st : State) :
    stretch st (fst (handleSearch_begin addressInput_value radiusInput_value st))
| search_geocoded (task : SearchTask) (geocodeResult : option GeoResult) (st : State) :
    stretch st (fst (handleSearch_geocoded task geocodeResult st))
| search_queried (task : SearchTask) (g : GeoResult) (response : outcome (list record))
    (st : State) :
    stretch st (handleSearch_queried task g response st)
| pins_begun (st : State) : stretch st (loadAllPins_begin st)
| pins_loaded (response : outcome (list record)) (st : State) :
    stretch st (loadAllPins_loaded response st)
| update_begun (st : State) : stretch st (fst (handleUpdateMap_begin st))
| update_answered (response : outcome value) (st : State) :
    stretch st (handleUpdateMap_updated response st)
| card_handled (i : nat) (listener : Card -> Card * list event) (st : State) :
    stretch st (card_step i listener st).

(** The pages the script can get to from the page [initializeMap] leaves. *)
Inductive reachable : State -> Prop :=
| reachable_loaded : reachable loaded
| reachable_stretch (st st' : State) : reachable st -> stretch st st' -> reachable st'.

Definition isCircleMarker (o : layerObj) : bool :=
  match o with CircleMarker _ _ _ => true | _ => false end.

(** Every stamp in [markers] is a marker on the map. *)
Definition held (st : State) : Prop :=
  forall id, In id (markers (globals st)) -> id ∈ onMap isMarker st.

(** [searchCircle] holds a circle and [searchLocationMarker] a circle
    marker. *)
Definition sorted_out (st : State) : Prop :=
  (forall c, searchCircle (globals st) = Some c -> hasKind isCircle st c = true)
  /\ (forall m, searchLocationMarker (globals st) = Some m ->
        hasKind isCircleMarker st m = true).

(** The only circle marker the map can carry is the one
    [searchLocationMarker] holds. *)
Definition oneSearchMarker (st : State) : Prop :=
  forall id, id ∈ onMap isCircleMarker st -> searchLocationMarker (globals st) = Some id.

(** The module variables and the map agree. *)
Definition consistent (st : State) : Prop :=
  stamped st /\ oneCircle st /\ oneSearchMarker st /\ tracked st /\ held st
  /\ sorted_out st /\ NoDup (markers (globals st)).

(** The controls are switched off exactly while [isLoading] is set. *)
Definition controlsFollow (st : State) : Prop :=
  searchBtn_disabled (page st) = isLoading (globals st)
  /\ loadingIndicator_hidden (page st) = negb (isLoading (globals st))
  /\ match updateMapBtn (page st) with
     | Some b => disabled b = isLoading (globals st)
     | None => True
     end.
End Pages.

(** ** The layout: the sidebar, its toggle button and the width of the map *)

(** The [sidebar] element: its class list and its inline [transform]. *)
Record SidebarElement : Type := mkSidebar {
  classList : gset string;
  style_transform : string
}.

(** The [toggleSidebarBtn] element. *)
Record ToggleButton : Type := mkToggle {
  toggle_textContent : string;
  toggle_title : string
}.

(** The three elements [toggleSidebar] and [adjustMapWidth] look up, each
    absent when the document has none, the inline width of the map
    element, and the timers set. *)
Record Layout : Type := mkLayout {
  sidebar : option SidebarElement;
  toggleSidebarBtn : option ToggleButton;
  mapElement_width : option string;
  timers : list event
}.

Definition set_classList (f : gset string -> gset string) (l : Layout) : Layout :=
  {| sidebar :=
       match sidebar l with
       | Some s => Some {| classList := f (classList s);
                           style_transform := style_transform s |}
       | None => None
       end;
     toggleSidebarBtn := toggleSidebarBtn l;
     mapElement_width := mapElement_width l; timers := timers l |}.

Definition set_transform (v : string) (l : Layout) : Layout :=
  {| sidebar :=
       match sidebar l with
       | Some s => Some {| classList := classList s; style_transform := v |}
       | None => None
       end;
     toggleSidebarBtn := toggleSidebarBtn l;
     mapElement_width := mapElement_width l; timers := timers l |}.

Definition set_toggle (text title : string) (l : Layout) : Layout :=
  {| sidebar := sidebar l;
     toggleSidebarBtn :=
       match toggleSidebarBtn l with
       | Some _ => Some {| toggle_textContent := text; toggle_title := title |}
       | None => None
       end;
     mapElement_width := mapElement_width l; timers := timers l |}.

(** [mapElement.style.width = v], on an element that is there. *)
Definition set_width (v : string) (l : Layout) : Layout :=
  {| sidebar := sidebar l; toggleSidebarBtn := toggleSidebarBtn l;
     mapElement_width :=
       match mapElement_width l with Some _ => Some v | None => None end;
     timers := timers l |}.

(** [setTimeout(() => { if (map) map.invalidateSize(); }, ms)] *)
Definition invalidateSize_later (ms : nat) (l : Layout) : Layout :=
  {| sidebar := sidebar l; toggleSidebarBtn := toggleSidebarBtn l;
     mapElement_width := mapElement_width l;
     timers := timers l ++ [SetTimeout ms "invalidateSize"] |}.

Definition has_class (name : string) (l : Layout) : bool :=
  match sidebar l with
  | Some s => bool_decide (name ∈ classList s)
  | None => false
  end.

(** [toggleSidebar()]; [innerWidth] is [window.innerWidth] at the time of
    the call.  Writing the width of a map element that is not there
    throws. *)
Definition toggleSidebar (innerWidth : Z) (l : Layout) : (exn + unit) * Layout :=
  match sidebar l, toggleSidebarBtn l with
  | Some _, Some _ =>
      let isMinimized := has_class "minimized" l in
      let write_width (v : string) (l1 : Layout) : (exn + unit) * Layout :=
        match mapElement_width l1 with
        | Some _ => (inr tt, invalidateSize_later 300 (set_width v l1))
        | None => (inl (TypeError "Cannot read properties of null (reading 'style')"), l1)
        end in
      if isMinimized then
        let l1 := set_toggle "−" "Minimize sidebar"
                    (set_classList (fun cl => cl ∖ {["minimized"]}) l) in
        if (768 <? innerWidth)%Z then write_width "calc(100vw - 32%)" l1
        else (inr tt, invalidateSize_later 300 l1)
      else
        let l1 := set_toggle "+" "Expand sidebar"
                    (set_classList (fun cl => {["minimized"]} ∪ cl) l) in
        write_width "100vw" l1
  | _, _ => (inr tt, l)
  end.

(** [adjustMapWidth()] *)
Definition adjustMapWidth (innerWidth : Z) (l : Layout) : Layout :=
  match sidebar l, mapElement_width l with
  | Some _, Some _ =>
      let l1 :=
        if (768 <? innerWidth)%Z then
          if negb (has_class "hidden" l) && negb (has_class "minimized" l) then
            set_transform "translateX(0)"
              (set_classList (fun cl => cl ∖ {["open"]})
                 (set_width "calc(100vw - 32%)" l))
          else set_width "100vw" l
        else set_width "100vw" l in
      invalidateSize_later 100 l1
  | _, _ => l
  end.

(** The first lines of [updateSidebar]: the sidebar is shown and
    expanded. *)
Definition updateSidebar_expand (l : Layout) : Layout :=
  match sidebar l with
  | Some _ =>
      set_toggle "−" "Minimize sidebar"
        (set_classList (fun cl => cl ∖ {["hidden"]} ∖ {["minimized"]}) l)
  | None => l
  end.

(** The last lines of [updateSidebar], the same behind the empty card and
    behind the cards: on a narrow window the sidebar is opened, then the
    map is fitted.  Adding a class to a sidebar that is not there
    throws. *)
Definition updateSidebar_reveal (innerWidth : Z) (l : Layout) : (exn + unit) * Layout :=
  if (innerWidth <=? 768)%Z then
    match sidebar l with
    | Some _ =>
        (inr tt, adjustMapWidth innerWidth (set_classList (fun cl => {["open"]} ∪ cl) l))
    | None => (inl (TypeError "Cannot read properties of null (reading 'classList')"), l)
    end
  else (inr tt, adjustMapWidth innerWidth l).

(** The width [adjustMapWidth] gives the map. *)
Definition fittedWidth (innerWidth : Z) (l : Layout) : string :=
  if (768 <? innerWidth)%Z && negb (has_class "hidden" l) && negb (has_class "minimized" l)
  then "calc(100vw - 32%)" else "100vw".

(** The toggle button says what a click on it will do. *)
Definition toggleAgrees (l : Layout) : Prop :=
  toggleSidebarBtn l
  = Some (if has_class "minimized" l
          then {| toggle_textContent := "+"; toggle_title := "Expand sidebar" |}
          else {| toggle_textContent := "−"; toggle_title := "Minimize sidebar" |}).

(** ** The earlier copy of the script

    [unnamed/part_000] works in kilometres, has no sidebar, no search
    marker and no Update Map button, and talks to a local webhook.  Its
    [geocodeAddress], [plotMarkers] and [clearMarkers] are those above,
    word for word; what differs is modelled here. *)
Module Legacy.
Section Script.
Context {E : Engine}.

Definition API_BASE_URL : string := "http://localhost:5678/webhook/map".

(** [showLoading(show)]: the indicator, the search button and the flag. *)
Definition showLoading (show : bool) (st : State) : State :=
  with_globals (set_isLoading show)
    (with_page (fun p =>
       {| loadingIndicator_hidden := negb show; searchBtn_disabled := show;
          updateMapBtn := updateMapBtn p; message := message p;
          sidebarTitle := sidebarTitle p; sidebarContent := sidebarContent p |}) st).

(** [drawSearchCircle(lat, lon, radiusKm)] *)
Definition drawSearchCircle (lat lon radiusKm : number) : M unit :=
  fun st =>
    let st1 :=
      match searchCircle (globals st) with
      | Some c => removeLayer c st
      | None => st
      end in
    if invalidLatLng lat lon then (inl InvalidLatLng, st1)
    else
      let '(c, st2) := newLayer (Circle lat lon (mul radiusKm (Fin 1000))) st1 in
      (inr tt, with_globals (set_searchCircle (Some c)) (addLayer c st2)).

(** [calculateDistance]: haversine distance in kilometres. *)
Definition calculateDistance (lat1 lng1 lat2 lng2 : number) : number :=
  let R := of_Z 6371 in
  let dLat := toRadians (sub lat2 lat1) in
  let dLng := toRadians (sub lng2 lng1) in
  let a :=
    add (mul (Math_sin (div dLat (of_Z 2))) (Math_sin (div dLat (of_Z 2))))
        (mul (mul (mul (Math_cos (toRadians lat1)) (Math_cos (toRadians lat2)))
                  (Math_sin (div dLng (of_Z 2))))
             (Math_sin (div dLng (of_Z 2)))) in
  let c := mul (of_Z 2) (Math_atan2 (Math_sqrt a) (Math_sqrt (sub (of_Z 1) a))) in
  mul R c.

(** [handleSearch] up to its first [await]; the radius is not
    converted. *)
Definition handleSearch_begin (addressInput_value radiusInput_value : string)
    (st : State) : State * option SearchTask :=
  let address := trim addressInput_value in
  let radius := parseFloatStr radiusInput_value in
  if String.eqb address "" then
    (showError "Please enter an address" st, None)
  else if negb (num_truthy radius) || leb radius (Fin 0) then
    (showError "Please enter a valid radius (greater than 0)" st, None)
  else if isLoading (globals st) then (st, None)
  else
    (emit (HttpGet (geocodeUrl address)) (showLoading true st),
     Some {| task_address := address; task_radius := radius; task_radiusKm := radius |}).

(** From the geocoding result to the second [await]. *)
Definition handleSearch_geocoded (task : SearchTask) (geocodeResult : option GeoResult)
    (st : State) : State * option GeoResult :=
  match geocodeResult with
  | None =>
      (showLoading false
         (showError "Could not find the specified address. Please try a different address." st),
       None)
  | Some g =>
      (emit (HttpPost (API_BASE_URL ++ "/query") (queryBody g (task_radius task))) st,
       Some g)
  end.

(** Steps 3 to 5 of [handleSearch]. *)
Definition showResults (task : SearchTask) (g : GeoResult) (data : list record)
    : M unit :=
  run clearMarkers ;;
  run (plotMarkers data) ;;
  drawSearchCircle (lat g) (lon g) (task_radius task) ;;
  setView (lat g) (lon g) ;;
  run (fun st =>
         match data with
         | [] => showError "No locations found within that radius." st
         | _ => st
         end).

Definition handleSearch_queried (task : SearchTask) (g : GeoResult)
    (response : outcome (list record)) (st : State) : State :=
  snd (try_finally
         (try_catch
            match response with
            | Rejected => throw NetworkError
            | Resolved data => showResults task g data
            end
            (showError "Search failed. Please try again."))
         (showLoading false) st).

Definition handleSearch (addressInput_value radiusInput_value : string)
    (geocoding : outcome (list value)) (query : outcome (list record))
    (st : State) : State :=
  match handleSearch_begin addressInput_value radiusInput_value st with
  | (st1, None) => st1
  | (st1, Some task) =>
      match geocodeAddress geocoding with
      | inl _ =>
          showLoading false (showError "Search failed. Please try again." st1)
      | inr geocodeResult =>
          match handleSearch_geocoded task geocodeResult st1 with
          | (st2, None) => st2
          | (st2, Some g) => handleSearch_queried task g query st2
          end
      end
  end.
End Script.
End Legacy.

(** ** Printing coordinates *)

Section Printing.
Context {E : Engine}.

Fixpoint zeros (n : nat) : string :=
  match n with
  | O => ""
  | S k => String "0" (zeros k)
  end.

(** [Number.prototype.toFixed(fractionDigits)]: NaN and the infinities
    print as they are and a magnitude from 1e21 on prints as [ToString]
    prints it; below that, the magnitude is rounded to the nearest multiple
    of [10^-fractionDigits] (a tie goes up), its digits are padded with
    zeros in front until one stands before the point, and a negative number
    gets its sign. *)
Definition toFixed (fractionDigits : nat) (x : number) : string :=
  match x with
  | NaN => "NaN"
  | PosInf => "Infinity"
  | NegInf => "-Infinity"
  | Fin q =>
      let s := if Qle_bool 0 q then "" else "-" in
      let x := Qabs q in
      if Qle_bool (inject_Z (10 ^ 21)) x then s ++ Number_toString (Fin x)
      else
        let n := Qfloor (x * inject_Z (10 ^ Z.of_nat fractionDigits) + (1 # 2)) in
        let m := pretty (Z.to_N n) in
        match fractionDigits with
        | O => s ++ m
        | S _ =>
            let k := String.length m in
            let m := if (k <=? fractionDigits)%nat
                     then zeros (fractionDigits + 1 - k) ++ m else m in
            let k := String.length m in
            s ++ substring 0 (k - fractionDigits) m ++ "."
              ++ substring (k - fractionDigits) fractionDigits m
        end
  end.

(** [formatCoordinates(lat, lng)] *)
Definition formatCoordinates (lat lng : number) : string :=
  toFixed 4 lat ++ ", " ++ toFixed 4 lng.
End Printing.

(** The number a run of decimal digits stands for, read onto [acc]. *)
Fixpoint readDigits (s : string) (acc : Z) : Z :=
  match s with
  | String c r =>
      match digit_of c with
      | Some d => readDigits r (10 * acc + d)%Z
      | None => acc
      end
  | EmptyString => acc
  end.

Fixpoint allDigits (s : string) : bool :=
  match s with
  | String c r =>
      match digit_of c with
      | Some _ => allDigits r
      | None => false
      end
  | EmptyString => true
  end.

(** What may follow the digits of a decimal literal without becoming part
    of it: nothing, or a character that is neither a digit nor an exponent
    mark. *)
Definition endsLiteral (rest : string) : bool :=
  match rest with
  | EmptyString => true
  | String c _ =>
      match digit_of c with
      | Some _ => false
      | None => negb (Ascii.eqb c "e" || Ascii.eqb c "E")%char
      end
  end.

(** [x] rounded to [fractionDigits] decimals, a tie going away from
    zero. *)
Definition rounded (fractionDigits : nat) (q : Q) : Q :=
  let n := Qfloor (Qabs q * inject_Z (10 ^ Z.of_nat fractionDigits) + (1 # 2)) in
  let r := Qmake n (Z.to_pos (10 ^ Z.of_nat fractionDigits)) in
  if Qle_bool 0 q then r else (- r)%Q.

(** ** More sample data *)

Module Cases.
(** A record whose website is a number. *)
Definition numbered : record :=
  <["name" := VStr "Shop"]> (<["latitude" := VStr "33.5"]>
  (<["longitude" := VStr "-86.8"]> (<["website" := VNum (Fin 123)]> ∅))).

(** An item as n8n hands it over: the record under [json]. *)
Definition item : record :=
  <["json" := VObj Samples.montgomery]> (<["pairedItem" := VNum (Fin 0)]> ∅).

(** A card with its form open, four stars chosen and a text typed. *)
Definition draft : Card :=
  {| card_result := Samples.withDistance None; card_fields := [];
     ratingDisplay := "Not rated yet"; feedbackDisplay := "No feedback yet";
     writeFeedbackBtn_display := "none"; feedbackForm_display := "block";
     selectedRating := 4; stars_selected := [true; true; true; true; false];
     stars_pointerEvents := ""; textarea_value := " Great ";
     textarea_disabled := false;
     submitBtn := {| disabled := false; textContent := "💾 Submit" |};
     submitBtn_submitting := false; submitBtn_background := "" |}.

(** The layout with the sidebar expanded beside the map. *)
Definition expanded : Layout :=
  {| sidebar := Some {| classList := {["sidebar"]}; style_transform := "" |};
     toggleSidebarBtn :=
       Some {| toggle_textContent := "−"; toggle_title := "Minimize sidebar" |};
     mapElement_width := Some "calc(100vw - 32%)";
     timers := [] |}.
End Cases.

(** * Properties *)

(** ** Facts about numbers *)

Lemma Qred_compare (x y : Q) : Qcompare (Qred x) y = Qcompare x y.
Proof. apply Qcompare_comp; [apply Qred_correct | reflexivity]. Qed.

Lemma Qcompare_sub_0 (x y : Q) : Qcompare 0%Q (x - y)%Q = Qcompare y x.
Proof.
  destruct (Qcompare_spec y x) as [H|H|H].
  - apply Qeq_alt. rewrite H. ring.
  - apply Qlt_alt. apply (Qplus_lt_l _ _ y). ring_simplify. exact H.
  - apply Qgt_alt. apply (Qplus_lt_l _ _ y). ring_simplify. exact H.
Qed.

(** Between numbers that are not NaN, the sign of the difference is the
    order of the operands. *)
Lemma sub_sign (a b : number) :
  isNaN a = false -> isNaN b = false ->
  ltb (Fin 0) (sub a b) = ltb b a.
Proof.
  destruct a as [| | |x], b as [| | |y]; intros Ha Hb; try discriminate; try reflexivity.
  unfold sub, neg, add, fin, ltb.
  rewrite <- (Qcompare_sub_0 x y).
  assert (Heq : (Qred (x + Qred (- y)) == x - y)%Q).
  { rewrite !Qred_correct. reflexivity. }
  rewrite (Qcompare_comp 0%Q 0%Q (Qeq_refl 0%Q) _ _ Heq). reflexivity.
Qed.

Lemma ltb_irrefl_sym (a b : number) : ltb a b = true -> ltb b a = false.
Proof.
  destruct a as [| | |x], b as [| | |y]; simpl; try congruence.
  rewrite <- (Qcompare_antisym x y). destruct (Qcompare x y); simpl; congruence.
Qed.

Lemma ltb_false_trans (a b c : number) :
  isNaN a = false -> isNaN b = false -> isNaN c = false ->
  ltb b a = false -> ltb c b = false -> ltb c a = false.
Proof.
  destruct a as [| | |x], b as [| | |y], c as [| | |z]; simpl; try congruence.
  intros _ _ _ H1 H2.
  destruct (Qcompare_spec y x) as [E1|E1|E1]; try discriminate;
  destruct (Qcompare_spec z y) as [E2|E2|E2]; try discriminate;
  destruct (Qcompare_spec z x) as [E3|E3|E3]; try reflexivity; exfalso; lra.
Qed.

Lemma ltb_false_leb (x y : Q) : ltb (Fin y) (Fin x) = false -> leb (Fin x) (Fin y) = true.
Proof.
  simpl. rewrite <- (Qcompare_antisym x y). destruct (Qcompare x y); simpl; congruence.
Qed.

Lemma num_eqb_not_after (a b c : number) :
  num_eqb c a = true -> num_eqb c b = true -> ltb (Fin 0) (sub a b) = false.
Proof.
  destruct a as [| | |x], b as [| | |y], c as [| | |z]; simpl; try congruence; try reflexivity.
  intros H1 H2. apply Qeq_bool_iff in H1, H2.
  change (ltb (Fin 0) (sub (Fin x) (Fin y)) = false).
  rewrite sub_sign by reflexivity. simpl.
  assert (H : (y == x)%Q) by (rewrite <- H1, <- H2; reflexivity).
  apply Qeq_alt in H. rewrite H. reflexivity.
Qed.

Lemma positive_is_valid (r : number) : ltb (Fin 0) r = true -> validRadius r = true.
Proof.
  destruct r as [| | |q]; try (simpl; congruence); try reflexivity.
  unfold ltb. destruct (Qcompare_spec 0%Q q) as [E|E|E]; try discriminate. intros _.
  assert (Hne : Qeq_bool q 0 = false).
  { apply not_true_is_false. intros Hq. apply Qeq_bool_iff in Hq. lra. }
  unfold validRadius, num_truthy, leb. rewrite Hne.
  destruct (Qcompare_spec q 0%Q); [lra | lra | reflexivity].
Qed.

(** ** The model of [Array.prototype.sort] *)

Section SortFacts.
Context {A : Type} (comparefn : A -> A -> number).

#[local] Abbreviation after := (comes_after comparefn).

Lemma insert_sorted_perm (x : A) (l : list A) :
  Permutation (insert_sorted comparefn x l) (x :: l).
Proof.
  induction l as [|y r IH]; simpl; [reflexivity|].
  destruct (after x y); [|reflexivity].
  rewrite IH. apply perm_swap.
Qed.

Lemma sort_perm (l : list A) : Permutation (sort comparefn l) l.
Proof.
  induction l as [|x r IH]; simpl; [reflexivity|].
  rewrite insert_sorted_perm. apply perm_skip, IH.
Qed.

(** Members of one class are never ordered strictly: the sort keeps
    them as they came. *)
Lemma insert_sorted_filter (c : A -> bool) (x : A) (l : list A) :
  (forall y, c x = true -> c y = true -> after x y = false) ->
  List.filter c (insert_sorted comparefn x l) = List.filter c (x :: l).
Proof.
  intros Hc. induction l as [|y r IH]; [reflexivity|].
  simpl. destruct (after x y) eqn:Hxy; [|reflexivity].
  simpl. rewrite IH. simpl.
  destruct (c x) eqn:Hx, (c y) eqn:Hy; try reflexivity.
  rewrite (Hc y eq_refl Hy) in Hxy. discriminate.
Qed.

Lemma sort_stable (c : A -> bool) (l : list A) :
  (forall x y, c x = true -> c y = true -> after x y = false) ->
  List.filter c (sort comparefn l) = List.filter c l.
Proof.
  intros Hc. induction l as [|x r IH]; [reflexivity|].
  simpl sort. rewrite insert_sorted_filter by (intros; apply Hc; assumption).
  simpl. rewrite IH. reflexivity.
Qed.

(** On elements where the comparator is a total preorder the result is
    sorted. *)
Section Ordered.
Variable ok : A -> Prop.
Hypothesis total : forall x y, ok x -> ok y -> after x y = true -> after y x = false.
Hypothesis trans : forall x y z, ok x -> ok y -> ok z ->
  after x y = false -> after y z = false -> after x z = false.

#[local] Abbreviation inorder := (fun a b => after a b = false).

Lemma insert_sorted_sorted (x : A) (l : list A) :
  ok x -> Forall ok l -> StronglySorted inorder l ->
  StronglySorted inorder (insert_sorted comparefn x l).
Proof.
  intros Hx Hl Hs. induction Hs as [|y r Hs IH Hy]; simpl.
  - constructor; constructor.
  - inversion Hl as [|? ? Hoky Hokr]; subst.
    destruct (after x y) eqn:Hxy.
    + constructor; [apply IH; assumption|].
      rewrite insert_sorted_perm.
      constructor; [apply total; assumption | exact Hy].
    + constructor; [constructor; assumption|].
      constructor; [exact Hxy|].
      rewrite List.Forall_forall in Hy, Hokr |- *. intros z Hz.
      apply (trans x y z); auto.
Qed.

Lemma sort_sorted (l : list A) :
  Forall ok l -> StronglySorted inorder (sort comparefn l).
Proof.
  induction 1 as [|x r Hx Hr IH]; simpl; [constructor|].
  apply insert_sorted_sorted; [exact Hx| |exact IH].
  rewrite sort_perm. exact Hr.
Qed.
End Ordered.
End SortFacts.

(** ** Sorting the processed results *)

Lemma set_index_distance (r : Processed) (i : nat) : distance (set_index r i) = distance r.
Proof. reflexivity. Qed.

Lemma unranked_set_index (r : Processed) (i : nat) : unranked (set_index r i) = unranked r.
Proof. reflexivity. Qed.

Lemma imap_set_index_unranked (l : list Processed) (n : nat) :
  map unranked (imap (fun i r => set_index r (i + n)) l) = map unranked l.
Proof.
  revert n. induction l as [|x r IH]; intros n; [reflexivity|].
  simpl. f_equal.
  rewrite <- (IH (S n)). f_equal. apply imap_ext. intros i y _. simpl.
  f_equal. lia.
Qed.

Lemma imap_set_index_index (l : list Processed) (n : nat) :
  map index (imap (fun i r => set_index r (i + n)) l) = seq n (length l).
Proof.
  revert n. induction l as [|x r IH]; intros n; [reflexivity|].
  simpl. f_equal.
  rewrite <- (IH (S n)). f_equal. apply imap_ext. intros i y _. simpl.
  f_equal. lia.
Qed.



Lemma finiteDistance_numericKey (r : Processed) : finiteDistance r = true -> numericKey r.
Proof.
  unfold finiteDistance, numericKey, distOrInfinity.
  destruct (distance r) as [[| | |q]|]; simpl; congruence.
Qed.

Lemma byDistance_after (a b : Processed) :
  numericKey a -> numericKey b ->
  comes_after byDistance a b = ltb (distOrInfinity b) (distOrInfinity a).
Proof. intros Ha Hb. apply sub_sign; assumption. Qed.

Lemma byDistance_precedes (a b : Processed) :
  finiteDistance a = true -> finiteDistance b = true ->
  comes_after byDistance a b = false -> precedes a b.
Proof.
  intros Ha Hb. rewrite byDistance_after by (apply finiteDistance_numericKey; assumption).
  unfold finiteDistance, precedes, distOrInfinity in *.
  destruct (distance a) as [[| | |x]|], (distance b) as [[| | |y]|];
    try discriminate; try (intros; exact I).
  apply ltb_false_leb.
Qed.

Lemma sameDistance_not_after (d : option number) (x y : Processed) :
  sameDistance d x = true -> sameDistance d y = true ->
  comes_after byDistance x y = false.
Proof.
  unfold sameDistance, comes_after, byDistance, distOrInfinity.
  destruct d as [d|], (distance x) as [a|], (distance y) as [b|];
    try discriminate; [apply num_eqb_not_after | reflexivity].
Qed.

Lemma StronglySorted_weaken {A : Type} (R S : A -> A -> Prop) (P : A -> Prop) (l : list A) :
  (forall a b, P a -> P b -> R a b -> S a b) ->
  Forall P l -> StronglySorted R l -> StronglySorted S l.
Proof.
  intros HRS HP Hs. induction Hs as [|x r Hs IH Hx]; [constructor|].
  inversion HP as [|? ? Hpx Hpr]; subst.
  constructor; [apply IH; assumption|].
  rewrite List.Forall_forall in Hx, Hpr |- *. intros z Hz. apply HRS; auto.
Qed.

(** C3, as amended.  For every list of processed results in which some
    element has a distance and every distance present is a finite number,
    the sort step of [updateSidebar] arranges the list so that distances do
    not decrease and every element without a distance comes after all
    elements with one; elements with equal distances, and elements
    without a distance, keep their input order; and each element is then
    given its 1-based position as rank. *)
Theorem sortByDistance_sorts (l : list Processed) :
  existsb hasDistance l = true ->
  Forall (fun r => finiteDistance r = true) l ->
  exists sorted : list Processed,
    Permutation sorted l
    /\ StronglySorted precedes sorted
    /\ (forall d, List.filter (sameDistance d) sorted = List.filter (sameDistance d) l)
    /\ map unranked (sortByDistance l) = map unranked sorted
    /\ map index (sortByDistance l) = seq 1 (length l).
Proof.
  intros Hsome Hfin.
  exists (sort byDistance l).
  assert (Hperm : Permutation (sort byDistance l) l) by apply sort_perm.
  assert (Hfin' : Forall (fun r => finiteDistance r = true) (sort byDistance l)).
  { rewrite Hperm. exact Hfin. }
  assert (Hrun : sortByDistance l = renumber (sort byDistance l)).
  { unfold sortByDistance. rewrite Hsome.
    destruct l; [discriminate | reflexivity]. }
  split; [exact Hperm|]. split; [|split; [|split]].
  - apply (StronglySorted_weaken (fun a b => comes_after byDistance a b = false)
             precedes (fun r => finiteDistance r = true)); [ | exact Hfin' | ].
    + intros a b Ha Hb. apply byDistance_precedes; assumption.
    + apply (sort_sorted byDistance numericKey).
      * intros x y Hx Hy. rewrite !byDistance_after by assumption.
        apply ltb_irrefl_sym.
      * intros x y z Hx Hy Hz. rewrite !byDistance_after by assumption.
        apply ltb_false_trans; assumption.
      * eapply Forall_impl; [exact Hfin|]. apply finiteDistance_numericKey.
  - intros d. apply sort_stable. intros x y. apply sameDistance_not_after.
  - rewrite Hrun. apply imap_set_index_unranked.
  - rewrite Hrun. unfold renumber. rewrite imap_set_index_index.
    f_equal. apply Permutation_length. exact Hperm.
Qed.

Section Results.
Context {E : Engine}.

(** ** Results without a reference point *)

Lemma processResult_no_distance (i : nat) (raw : record) :
  distance (processResult None i raw) = None.
Proof. reflexivity. Qed.

Lemma imap_processResult_no_distance (results : list record) (n : nat) :
  existsb hasDistance (imap (fun i => processResult None (i + n)) results) = false.
Proof.
  revert n. induction results as [|raw r IH]; intros n; [reflexivity|].
  simpl. rewrite <- (IH (S n)). f_equal. apply imap_ext. intros i y _. simpl.
  f_equal. lia.
Qed.

Lemma imap_processResult_index (loc : option (number * number))
    (results : list record) (n : nat) :
  map index (imap (fun i => processResult loc (i + n)) results)
  = seq (S n) (length results).
Proof.
  revert n. induction results as [|raw r IH]; intros n; [reflexivity|].
  simpl. f_equal; [lia|].
  rewrite <- (IH (S n)). f_equal. apply imap_ext. intros i y _. simpl.
  f_equal. lia.
Qed.

Lemma imap_shift0 {A B : Type} (f : nat -> A -> B) (l : list A) :
  imap f l = imap (fun i => f (i + 0)%nat) l.
Proof. apply imap_ext. intros i x _. simpl. f_equal. lia. Qed.

(** C4.  With no search location no element gets a distance: the
    processed list holds the input records in input order, nothing is
    reordered, and the ranks are 1, 2, ..., n in that order. *)
Theorem no_reference_point_keeps_order (results : list record) :
  processResults None results = imap (processResult None) results
  /\ map index (processResults None results) = seq 1 (length results)
  /\ Forall (fun r => distance r = None) (processResults None results).
Proof.
  assert (Hid : processResults None results = imap (processResult None) results).
  { unfold processResults, sortByDistance.
    rewrite (imap_shift0 (processResult None)), imap_processResult_no_distance.
    rewrite andb_false_r. reflexivity. }
  rewrite Hid. split; [reflexivity|]. split.
  - rewrite (imap_shift0 (processResult None)). apply imap_processResult_index.
  - apply List.Forall_forall. intros r Hr.
    apply list_elem_of_In, elem_of_lookup_imap in Hr as (i & raw & -> & _).
    reflexivity.
Qed.

(** ** The feedback form *)

Lemma with_page_id (st : State) (f : Page -> Page) :
  f (page st) = page st -> with_page f st = st.
Proof. intros H. destruct st. unfold with_page. simpl in *. rewrite H. reflexivity. Qed.

Lemma set_sidebarContent_id (p : Page) : set_sidebarContent (sidebarContent p) p = p.
Proof. destruct p. reflexivity. Qed.

(** C8.  A click on the submit button of a card whose selected rating is
    0 is turned down on the spot: the card is left as it is (draft text,
    rating, controls, what it displays), nothing else on the page changes,
    and the only call made is the alert; no request is sent. *)
Theorem submit_without_rating_is_rejected (i : nat) (c : Card) (st : State) :
  sidebarContent (page st) !! i = Some (ResultCard c) ->
  selectedRating c = 0%nat ->
  submitBtn_click c = (c, [Alert "Please select a star rating before submitting."], None)
  /\ snd (submit_click i st) = None
  /\ page (fst (submit_click i st)) = page st
  /\ globals (fst (submit_click i st)) = globals st
  /\ events (fst (submit_click i st))
     = (events st ++ [Alert "Please select a star rating before submitting."])%list
  /\ List.filter isRequest (events (fst (submit_click i st)))
     = List.filter isRequest (events st).
Proof.
  intros Hi Hr.
  assert (Hc : submitBtn_click c
               = (c, [Alert "Please select a star rating before submitting."], None)).
  { unfold submitBtn_click. rewrite Hr. reflexivity. }
  split; [exact Hc|].
  unfold submit_click. rewrite Hi, Hc. simpl.
  rewrite (list_insert_id _ _ _ Hi), set_sidebarContent_id.
  repeat split; try reflexivity.
  rewrite List.filter_app. simpl. apply app_nil_r.
Qed.
End Results.

Section Searching.
Context {E : Engine}.

(** ** The single-flight guard *)

Lemma showLoading_false_enables (st : State) : controlsEnabled (showLoading false st).
Proof.
  unfold controlsEnabled. simpl. repeat split.
  destruct (updateMapBtn (page st)); [reflexivity | exact I].
Qed.

Lemma try_finally_snd (m : M unit) (cleanup : State -> State) (st : State) :
  snd (try_finally m cleanup st) = cleanup (snd (m st)).
Proof. unfold try_finally. destruct (m st). reflexivity. Qed.

Lemma handleSearch_queried_enables (task : SearchTask) (g : GeoResult)
    (response : outcome (list record)) (st : State) :
  controlsEnabled (handleSearch_queried task g response st).
Proof.
  unfold handleSearch_queried. rewrite try_finally_snd. apply showLoading_false_enables.
Qed.

(** What [handleSearch_begin] does when it goes ahead. *)
Lemma handleSearch_begin_started (a rt : string) (st st1 : State) (task : SearchTask) :
  handleSearch_begin a rt st = (st1, Some task) ->
  trim a <> "" /\ validRadius (parseFloatStr rt) = true
  /\ isLoading (globals st) = false
  /\ st1 = emit (HttpGet (geocodeUrl (trim a))) (showLoading true st)
  /\ task = {| task_address := trim a; task_radius := parseFloatStr rt;
               task_radiusKm := mul (parseFloatStr rt) (Fin 1.60934) |}.
Proof.
  unfold handleSearch_begin, validRadius.
  destruct (String.eqb_spec (trim a) "") as [Ha|Ha]; [discriminate|].
  destruct (negb (num_truthy (parseFloatStr rt)) || leb (parseFloatStr rt) (Fin 0));
    [discriminate|].
  destruct (isLoading (globals st)); [discriminate|].
  intros H. injection H as <- <-. repeat split; try reflexivity. exact Ha.
Qed.

Lemma handleSearch_begin_valid (a rt : string) (st : State) :
  trim a <> "" -> validRadius (parseFloatStr rt) = true ->
  isLoading (globals st) = false ->
  handleSearch_begin a rt st
  = (emit (HttpGet (geocodeUrl (trim a))) (showLoading true st),
     Some {| task_address := trim a; task_radius := parseFloatStr rt;
             task_radiusKm := mul (parseFloatStr rt) (Fin 1.60934) |}).
Proof.
  unfold handleSearch_begin, validRadius. intros Ha Hr Hl.
  destruct (String.eqb_spec (trim a) "") as [Ha'|_]; [contradiction|].
  apply negb_true_iff in Hr. rewrite Hr, Hl. reflexivity.
Qed.


(** ** Geocoding *)

Lemma geocodeAddress_total (response : outcome (list value)) :
  exists r, geocodeAddress response = inr r.
Proof. unfold geocodeAddress. destruct (geocodeAddress_try response); eauto. Qed.

(** C10.  [geocodeAddress] never rejects: for every response it settles
    to a result with numeric [lat] and [lon] and a display name, or to
    null, and to null whenever its [try] block throws (a failed request, an
    element that cannot be read).  A search whose geocoding fails this way
    therefore shows "Could not find the specified address", sends no query,
    leaves the map alone and re-enables the controls. *)
Theorem geocoding_failure_is_not_found (addressInput_value radiusInput_value : string)
    (response : outcome (list value)) (query : outcome (list record))
    (st st1 : State) (task : SearchTask) (e : exn) :
  handleSearch_begin addressInput_value radiusInput_value st = (st1, Some task) ->
  geocodeAddress_try response = inl e ->
  (forall response', exists r, geocodeAddress response' = inr r)
  /\ geocodeAddress response = inr None
  /\ let st' := handleSearch addressInput_value radiusInput_value response query st in
     message (page st')
     = Some (ErrorMessage,
             "Could not find the specified address. Please try a different address.")
     /\ events st' = (events st ++ [HttpGet (geocodeUrl (trim addressInput_value))])%list
     /\ List.filter isPost (events st') = List.filter isPost (events st)
     /\ leaflet st' = leaflet st
     /\ controlsEnabled st'.
Proof.
  intros Hb He.
  assert (Hg : geocodeAddress response = inr None).
  { unfold geocodeAddress. rewrite He. reflexivity. }
  split; [apply geocodeAddress_total|]. split; [exact Hg|].
  cbv zeta. unfold handleSearch. rewrite Hb, Hg.
  apply handleSearch_begin_started in Hb as (_ & _ & _ & -> & _).
  simpl. split; [reflexivity|]. split; [reflexivity|].
  split; [rewrite List.filter_app; simpl; apply app_nil_r|].
  split; [reflexivity|]. apply (showLoading_false_enables (showError _ (emit _ (showLoading true st)))).
Qed.
End Searching.

Section Plotting.
Context {E : Engine}.

(** ** [plotMarkers] *)

Lemma plotMarker_skip (raw : record) (st : State) :
  plottable raw = false ->
  plotMarker raw st
  = emit (ConsoleWarn "Invalid coordinates in record:" (unwrap raw)) st.
Proof.
  unfold plottable, plotMarker, markerLat, markerLon. intros H.
  apply negb_false_iff in H. rewrite H. reflexivity.
Qed.

Lemma plotMarker_place (raw : record) (st : State) :
  plottable raw = true ->
  plotMarker raw st
  = {| globals := set_markers (markers (globals st) ++ [S (lastId (leaflet st))])
                    (globals st);
       leaflet :=
         {| objects :=
              alter (withPopup (popupContent (unwrap raw))) (S (lastId (leaflet st)))
                (<[S (lastId (leaflet st)) := Marker (markerLat raw) (markerLon raw) None]>
                   (objects (leaflet st)));
            mapLayers := {[S (lastId (leaflet st))]} ∪ mapLayers (leaflet st);
            lastId := S (lastId (leaflet st)) |};
       page := page st;
       events := events st |}.
Proof.
  unfold plottable, plotMarker, markerLat, markerLon. intros H.
  apply negb_true_iff in H. rewrite H. reflexivity.
Qed.

(** What the loop of [plotMarkers] leaves behind: one marker per record
    that passes, stamped in order, on the map and at the end of
    [markers]; everything older is as it was. *)
Lemma plot_all (data : list record) (st : State) :
  let st' := foldl (fun s raw => plotMarker raw s) st data in
  let passed := List.filter plottable data in
  let base := lastId (leaflet st) in
  markers (globals st') = (markers (globals st) ++ seq (S base) (length passed))%list
  /\ searchCircle (globals st') = searchCircle (globals st)
  /\ searchLocationMarker (globals st') = searchLocationMarker (globals st)
  /\ isLoading (globals st') = isLoading (globals st)
  /\ lastSearchLocation (globals st') = lastSearchLocation (globals st)
  /\ lastId (leaflet st') = (base + length passed)%nat
  /\ (forall id, (id <= base)%nat ->
        objects (leaflet st') !! id = objects (leaflet st) !! id)
  /\ (forall id, (base + length passed < id)%nat ->
        objects (leaflet st') !! id = objects (leaflet st) !! id)
  /\ (forall i raw, passed !! i = Some raw ->
        objects (leaflet st') !! (S base + i)%nat = Some (markerOf raw))
  /\ mapLayers (leaflet st')
     = list_to_set (seq (S base) (length passed)) ∪ mapLayers (leaflet st)
  /\ page st' = page st.
Proof.
  revert st. induction data as [|raw data IH]; intros st; cbv zeta.
  - simpl. rewrite app_nil_r, Nat.add_0_r.
    do 6 (split; [reflexivity|]).
    split; [intros; reflexivity|]. split; [intros; reflexivity|].
    split; [intros i raw; discriminate|].
    split; [symmetry; apply (left_id_L ∅ (∪)) | reflexivity].
  - simpl foldl.
    specialize (IH (plotMarker raw st)). cbv zeta in IH.
    destruct IH as (Hm & Hc & Hs & Hl & Hloc & Hid & Hold & Hnew & Hobj & Hmap & Hpage).
    destruct (plottable raw) eqn:Hp.
    + simpl List.filter. rewrite Hp.
      rewrite (plotMarker_place raw st Hp) in *. simpl in *.
      set (base := lastId (leaflet st)) in *.
      set (passed := List.filter plottable data) in *.
      split; [rewrite Hm, <- app_assoc; reflexivity|].
      split; [exact Hc|]. split; [exact Hs|]. split; [exact Hl|].
      split; [exact Hloc|]. split; [rewrite Hid; lia|].
      split; [|split; [|split; [|split]]].
      * intros id Hle. rewrite Hold by lia.
        rewrite lookup_alter_ne by lia. rewrite lookup_insert_ne by lia. reflexivity.
      * intros id Hlt. rewrite Hnew by lia.
        rewrite lookup_alter_ne by lia. rewrite lookup_insert_ne by lia. reflexivity.
      * intros [|i] r Hi.
        -- simpl in Hi. injection Hi as <-. rewrite Nat.add_0_r.
           rewrite Hold by lia. rewrite lookup_alter_eq, lookup_insert_eq. reflexivity.
        -- simpl in Hi. rewrite <- (Hobj i r Hi). f_equal. lia.
      * rewrite Hmap. simpl.
        rewrite (assoc_L (∪)). f_equal. apply (comm_L (∪)).
      * exact Hpage.
    + simpl List.filter. rewrite Hp.
      rewrite (plotMarker_skip raw st Hp) in *. simpl in *.
      do 10 (split; [assumption|]). assumption.
Qed.

Lemma plotMarkers_loop (data : list record) (st : State) :
  globals (plotMarkers data st)
  = globals (foldl (fun s raw => plotMarker raw s) st data)
  /\ leaflet (plotMarkers data st)
     = leaflet (foldl (fun s raw => plotMarker raw s) st data)
  /\ page (plotMarkers data st)
     = page (foldl (fun s raw => plotMarker raw s) st data).
Proof.
  unfold plotMarkers. destruct data as [|raw data]; [repeat split|].
  destruct (markers (globals (foldl _ st (raw :: data)))); repeat split.
Qed.

Lemma length_filter_le {A : Type} (f : A -> bool) (l : list A) :
  (length (List.filter f l) <= length l)%nat.
Proof.
  induction l as [|x l IH]; simpl; [lia|]. destruct (f x); simpl; lia.
Qed.

End Plotting.

Section Layers.
Context {E : Engine}.

(** ** Layers on the map *)

Lemma elem_of_onMap (kind : layerObj -> bool) (st : State) (id : nat) :
  id ∈ onMap kind st <-> id ∈ mapLayers (leaflet st) /\ hasKind kind st id = true.
Proof. unfold onMap. rewrite elem_of_filter. tauto. Qed.

(** [onMap] looks at the Leaflet side only. *)
Lemma onMap_leaflet (kind : layerObj -> bool) (st st' : State) :
  leaflet st' = leaflet st -> onMap kind st' = onMap kind st.
Proof. unfold onMap, hasKind. intros ->. reflexivity. Qed.

Lemma stamped_frame (st st' : State) :
  leaflet st' = leaflet st ->
  searchLocationMarker (globals st') = searchLocationMarker (globals st) ->
  searchCircle (globals st') = searchCircle (globals st) ->
  stamped st -> stamped st'.
Proof. unfold stamped. intros -> -> ->. tauto. Qed.

Lemma oneCircle_frame (st st' : State) :
  leaflet st' = leaflet st ->
  searchCircle (globals st') = searchCircle (globals st) ->
  oneCircle st -> oneCircle st'.
Proof.
  unfold oneCircle. intros Hl -> H id. rewrite (onMap_leaflet _ _ _ Hl). apply H.
Qed.

Lemma oneCircle_size (st : State) : oneCircle st -> (size (onMap isCircle st) <= 1)%nat.
Proof.
  intros H. destruct (searchCircle (globals st)) as [c|] eqn:Hc.
  - transitivity (size ({[c]} : gset nat)); [|rewrite size_singleton; lia].
    apply subseteq_size. intros id Hid. apply H in Hid.
    rewrite Hc in Hid. injection Hid as ->. apply elem_of_singleton. reflexivity.
  - replace (onMap isCircle st) with (∅ : gset nat); [rewrite size_empty; lia|].
    symmetry. apply leibniz_equiv, elem_of_equiv_empty. intros id Hid.
    apply H in Hid. rewrite Hc in Hid. discriminate.
Qed.

(** *** [clearMarkers] *)

Lemma removeLayers (l : list nat) (st : State) :
  foldl (fun s marker => removeLayer marker s) st l
  = with_leaflet (fun m => set_mapLayers (mapLayers m ∖ list_to_set l) m) st.
Proof.
  revert st. induction l as [|id l IH]; intros st.
  - simpl. destruct st as [g [o ml li] p ev]. unfold with_leaflet, set_mapLayers. simpl.
    do 2 f_equal. symmetry. apply leibniz_equiv. apply difference_empty.
  - simpl. rewrite IH. destruct st as [g [o ml li] p ev].
    unfold removeLayer, with_leaflet, set_mapLayers. simpl.
    do 2 f_equal. apply leibniz_equiv. apply difference_difference_l.
Qed.

Lemma clearMarkers_eq (st : State) :
  clearMarkers st
  = with_globals (set_markers [])
      (with_leaflet (fun m =>
         set_mapLayers (mapLayers m ∖ list_to_set (markers (globals st))) m) st).
Proof. unfold clearMarkers. rewrite removeLayers. reflexivity. Qed.

Lemma clearMarkers_stamped (st : State) : stamped st -> stamped (clearMarkers st).
Proof.
  rewrite clearMarkers_eq. intros (Ho & Hm & Hs & Hsc).
  repeat split; simpl; auto.
  intros id Hid. apply Hm. apply elem_of_difference in Hid. tauto.
Qed.

Lemma clearMarkers_keeps (st : State) :
  stamped st -> oneCircle st ->
  stamped (clearMarkers st) /\ oneCircle (clearMarkers st).
Proof.
  intros Hs Hc. split; [apply clearMarkers_stamped, Hs|].
  rewrite clearMarkers_eq.
  intros id Hid. apply Hc. apply elem_of_onMap in Hid as [Hid Hk].
  apply elem_of_onMap. split; [|exact Hk].
  simpl in Hid. apply elem_of_difference in Hid. tauto.
Qed.

(** *** [plotMarkers] *)

Lemma plotMarkers_stamped (data : list record) (st : State) :
  stamped st -> stamped (plotMarkers data st).
Proof.
  intros (Ho & Hm & Hs & Hcb).
  destruct (plotMarkers_loop data st) as (Hg & Hl & _).
  destruct (plot_all data st) as (_ & Hsc & Hsl & _ & _ & Hid & Hold & Hnew & Hobj & Hmap & _).
  cbv zeta in *.
  set (passed := List.filter plottable data) in *.
  set (base := lastId (leaflet st)) in *.
  unfold stamped. rewrite Hg, Hl, Hsl, Hsc, Hid. repeat split.
  - intros id [o Hlook].
    destruct (Nat.le_gt_cases id (base + length passed)) as [|Hgt]; [assumption|].
    rewrite Hnew in Hlook by exact Hgt.
    assert (id <= base)%nat by (apply Ho; eauto). lia.
  - intros id. rewrite Hmap, elem_of_union, elem_of_list_to_set, list_elem_of_In, in_seq.
    intros [?|Hin]; [lia|]. apply Hm in Hin. lia.
  - intros id Hin. apply Hs in Hin. lia.
  - intros id Hin. apply Hcb in Hin. lia.
Qed.

Lemma plotMarkers_keeps (data : list record) (st : State) :
  stamped st -> oneCircle st ->
  stamped (plotMarkers data st) /\ oneCircle (plotMarkers data st).
Proof.
  intros Hst Hc. split; [apply plotMarkers_stamped, Hst|].
  destruct Hst as (Ho & Hm & Hs & Hcb).
  destruct (plotMarkers_loop data st) as (Hg & Hl & _).
  destruct (plot_all data st) as (_ & Hsc & _ & _ & _ & _ & Hold & _ & Hobj & Hmap & _).
  cbv zeta in *.
  set (passed := List.filter plottable data) in *.
  set (base := lastId (leaflet st)) in *.
  intros id Hin. rewrite Hg, Hsc. apply elem_of_onMap in Hin as [Hin Hk].
  rewrite Hl, Hmap, elem_of_union, elem_of_list_to_set, list_elem_of_In, in_seq in Hin.
  unfold hasKind in Hk. rewrite Hl in Hk.
  destruct Hin as [Hin|Hin].
  - exfalso. destruct (lookup_lt_is_Some_2 passed (id - S base)) as [raw Hraw]; [lia|].
    apply Hobj in Hraw. replace (S base + (id - S base))%nat with id in Hraw by lia.
    rewrite Hraw in Hk. discriminate.
  - apply Hc. apply elem_of_onMap. split; [exact Hin|].
    unfold hasKind. rewrite <- Hold by (apply Hm; exact Hin). exact Hk.
Qed.
End Layers.

Section Rendering.
Context {E : Engine}.

(** ** Computations and what they maintain *)

Lemma maintains_ret {A : Type} (I : State -> Prop) (a : A) : maintains I (ret a).
Proof. intros st H. exact H. Qed.

Lemma maintains_throw {A : Type} (I : State -> Prop) (e : exn) :
  maintains I (throw (A := A) e).
Proof. intros st H. exact H. Qed.

Lemma maintains_run (I : State -> Prop) (f : State -> State) :
  (forall st, I st -> I (f st)) -> maintains I (run f).
Proof. intros Hf st H. apply Hf, H. Qed.

Lemma maintains_bind {A B : Type} (I : State -> Prop) (m : M A) (f : A -> M B) :
  maintains I m -> (forall a, maintains I (f a)) -> maintains I (bind m f).
Proof.
  intros Hm Hf st H. unfold bind. specialize (Hm st H).
  destruct (m st) as [[e|a] st1]; simpl in *; [exact Hm|].
  apply Hf, Hm.
Qed.

Lemma maintains_try_catch (I : State -> Prop) (m : M unit) (handler : State -> State) :
  maintains I m -> (forall st, I st -> I (handler st)) -> maintains I (try_catch m handler).
Proof.
  intros Hm Hh st H. unfold try_catch. specialize (Hm st H).
  destruct (m st) as [[e|a] st1]; simpl in *; [apply Hh, Hm | exact Hm].
Qed.

Lemma maintains_forEach {A : Type} (I : State -> Prop) (f : A -> M unit) (l : list A) :
  (forall x, maintains I (f x)) -> maintains I (forEach f l).
Proof.
  intros Hf. induction l as [|x l IH]; simpl.
  - apply maintains_ret.
  - apply maintains_bind; [apply Hf | intros _; exact IH].
Qed.

(** ** [updateSidebar] *)

(** [updateSidebar] writes to the sidebar and to nothing else. *)
Lemma updateSidebar_maintains (I : State -> Prop) (results : list record) (radius : number) :
  (forall st f, I st -> I (with_page f st)) ->
  maintains I (updateSidebar results radius).
Proof.
  intros Hp. unfold updateSidebar.
  apply maintains_bind; [apply maintains_run; intros; apply Hp; assumption|]. intros _.
  apply maintains_bind; [apply maintains_run; intros; apply Hp; assumption|]. intros _.
  destruct results as [|raw results].
  - apply maintains_run; intros; apply Hp; assumption.
  - intros st H.
    apply (maintains_forEach I appendCard); [|exact H].
    intros r st1 H1. unfold appendCard.
    destruct (newCard r); simpl; [exact H1 | apply Hp, H1].
Qed.

Lemma updateSidebar_frame (results : list record) (radius : number) (st : State) :
  globals (snd (updateSidebar results radius st)) = globals st
  /\ leaflet (snd (updateSidebar results radius st)) = leaflet st
  /\ events (snd (updateSidebar results radius st)) = events st.
Proof.
  apply (updateSidebar_maintains
           (fun s => globals s = globals st /\ leaflet s = leaflet st
                     /\ events s = events st)).
  - intros s f H. exact H.
  - repeat split.
Qed.

Lemma newCard_result (r : Processed) (c : Card) : newCard r = inr c -> card_result c = r.
Proof.
  unfold newCard. destruct (websiteField (website r)); [discriminate|].
  intros H. injection H as <-. reflexivity.
Qed.

Lemma newCard_ok (r : Processed) :
  (exists site, websiteField (website r) = inr site) -> exists c, newCard r = inr c.
Proof. intros [site H]. unfold newCard. rewrite H. eauto. Qed.

(** The card loop, when every website field can be built: one card per
    processed result, in order, after what the sidebar held. *)
Lemma forEach_appendCard (l : list Processed) (st : State) :
  Forall (fun r => exists site, websiteField (website r) = inr site) l ->
  exists st',
    forEach appendCard l st = (inr tt, st')
    /\ map card_result (cards st') = (map card_result (cards st) ++ l)%list.
Proof.
  intros Hl. revert st. induction Hl as [|r l Hr Hl IH]; intros st.
  - exists st. split; [reflexivity|]. rewrite app_nil_r. reflexivity.
  - destruct (newCard_ok r Hr) as [c Hc].
    simpl. unfold bind. unfold appendCard at 1. rewrite Hc.
    destruct (IH (with_page (fun p =>
                set_sidebarContent (sidebarContent p ++ [ResultCard c]) p) st))
      as (st' & Hrun & Hcards).
    exists st'. split; [exact Hrun|].
    rewrite Hcards. unfold cards. simpl.
    rewrite omap_app, map_app. simpl. rewrite <- app_assoc.
    rewrite (newCard_result r c Hc). reflexivity.
Qed.

Lemma website_processResult (loc : option (number * number)) (i : nat) (raw : record) :
  website (processResult loc i raw) = website (processResult None 0 raw).
Proof. reflexivity. Qed.

Lemma sortByDistance_Forall (P : Processed -> Prop) (l : list Processed) :
  (forall r i, P r -> P (set_index r i)) ->
  Forall P l -> Forall P (sortByDistance l).
Proof.
  intros Hset Hl. unfold sortByDistance.
  destruct (_ && _); [|exact Hl].
  unfold renumber.
  assert (Hs : Forall P (sort byDistance l)) by (rewrite sort_perm; exact Hl).
  apply List.Forall_forall. intros r Hr.
  apply list_elem_of_In, elem_of_lookup_imap in Hr as (i & x & -> & Hx).
  apply Hset. rewrite List.Forall_forall in Hs. apply Hs.
  apply list_elem_of_In. eapply list_elem_of_lookup_2. exact Hx.
Qed.

Lemma processResults_renderable (loc : option (number * number)) (results : list record) :
  Forall (fun raw => renderable raw = true) results ->
  Forall (fun r => exists site, websiteField (website r) = inr site)
         (processResults loc results).
Proof.
  intros H. unfold processResults. apply sortByDistance_Forall.
  - intros r i Hr. exact Hr.
  - apply List.Forall_forall. intros r Hr.
    apply list_elem_of_In, elem_of_lookup_imap in Hr as (i & raw & -> & Hraw).
    rewrite List.Forall_forall in H.
    assert (Hin : In raw results).
    { apply list_elem_of_In. eapply list_elem_of_lookup_2. exact Hraw. }
    specialize (H raw Hin). unfold renderable in H.
    rewrite website_processResult.
    destruct (websiteField (website (processResult None 0 raw))); [discriminate|eauto].
Qed.

(** When every record can be rendered, [updateSidebar] returns, and the
    sidebar then holds the cards of the processed results and no other. *)
Lemma updateSidebar_ok (results : list record) (radius : number) (st : State) :
  Forall (fun raw => renderable raw = true) results ->
  exists st',
    updateSidebar results radius st = (inr tt, st')
    /\ map card_result (cards st')
       = processResults (lastSearchLocation (globals st)) results.
Proof.
  intros H. unfold updateSidebar. unfold mbind, M_bind, bind, run.
  destruct results as [|raw results].
  - eexists. split; [reflexivity|]. reflexivity.
  - match goal with
    | |- context [forEach appendCard ?l ?s] =>
        destruct (forEach_appendCard l s) as (st' & Hrun & Hcards)
    end.
    { apply processResults_renderable. exact H. }
    exists st'. split; [exact Hrun|]. rewrite Hcards. reflexivity.
Qed.
End Rendering.

Section Circle.
Context {E : Engine}.

(** ** The search circle and the search marker *)

Lemma drawSearchCircle_returns (lat lon radiusMiles : number) (st : State) :
  invalidLatLng lat lon = false ->
  drawSearchCircle lat lon radiusMiles st = (inr tt, circleDrawn lat lon radiusMiles st).
Proof. intros Hv. unfold circleDrawn, drawSearchCircle. rewrite Hv. reflexivity. Qed.

Lemma drawSearchCircle_throws (lat lon radiusMiles : number) (st : State) :
  invalidLatLng lat lon = true ->
  drawSearchCircle lat lon radiusMiles st
  = (inl InvalidLatLng,
     match searchCircle (globals st) with
     | Some c => removeLayer c st
     | None => st
     end).
Proof. intros Hv. unfold drawSearchCircle. rewrite Hv. reflexivity. Qed.

Lemma highlightSearchLocation_returns (lat lon : number) (label : value) (st : State) :
  invalidLatLng lat lon = false ->
  highlightSearchLocation lat lon label st = (inr tt, locationMarked lat lon label st).
Proof. intros Hv. unfold locationMarked, highlightSearchLocation. rewrite Hv. reflexivity. Qed.

Lemma highlightSearchLocation_throws (lat lon : number) (label : value) (st : State) :
  invalidLatLng lat lon = true ->
  highlightSearchLocation lat lon label st
  = (inl InvalidLatLng,
     match searchLocationMarker (globals st) with
     | Some m => removeLayer m st
     | None => st
     end).
Proof. intros Hv. unfold highlightSearchLocation. rewrite Hv. reflexivity. Qed.

Lemma drawSearchCircle_shape (lat lon radiusMiles : number) (st : State) :
  invalidLatLng lat lon = false ->
  let st' := circleDrawn lat lon radiusMiles st in
  let c := S (lastId (leaflet st)) in
  searchCircle (globals st') = Some c
  /\ searchLocationMarker (globals st') = searchLocationMarker (globals st)
  /\ lastId (leaflet st') = c
  /\ objects (leaflet st') = <[c := Circle lat lon (mul radiusMiles (Fin 1609.34))]>
                               (objects (leaflet st))
  /\ (forall id, id ∈ mapLayers (leaflet st') <->
        id = c \/ (id ∈ mapLayers (leaflet st) /\ searchCircle (globals st) <> Some id))
  /\ events st' = events st.
Proof.
  intros Hv. cbv zeta. unfold circleDrawn, drawSearchCircle. rewrite Hv.
  destruct (searchCircle (globals st)) as [old|] eqn:Hold; simpl;
    repeat (split; [reflexivity|]); (split; [|reflexivity]); intros id.
  - rewrite elem_of_union, elem_of_singleton, elem_of_difference, elem_of_singleton.
    split; (intros [?|[? ?]]; [left; assumption | right; split; [assumption|congruence]]).
  - rewrite elem_of_union, elem_of_singleton.
    split; [intros [?|?]; [left; assumption | right; split; [assumption|congruence]]
           | intros [?|[? _]]; [left|right]; assumption].
Qed.

Lemma highlightSearchLocation_shape (lat lon : number) (label : value) (st : State) :
  invalidLatLng lat lon = false ->
  let st' := locationMarked lat lon label st in
  let m := S (lastId (leaflet st)) in
  searchCircle (globals st') = searchCircle (globals st)
  /\ searchLocationMarker (globals st') = Some m
  /\ lastId (leaflet st') = m
  /\ (forall id, id <> m -> objects (leaflet st') !! id = objects (leaflet st) !! id)
  /\ hasKind isCircle st' m = false
  /\ (forall id, id ∈ mapLayers (leaflet st') <->
        id = m \/ (id ∈ mapLayers (leaflet st)
                   /\ searchLocationMarker (globals st) <> Some id))
  /\ events st' = events st.
Proof.
  intros Hv. cbv zeta. unfold locationMarked, highlightSearchLocation. rewrite Hv.
  assert (Hin : forall (old : option nat) (id : nat) (X : gset nat),
    id ∈ {[S (lastId (leaflet st))]} ∪
         (match old with Some o => X ∖ {[o]} | None => X end)
    <-> id = S (lastId (leaflet st)) \/ (id ∈ X /\ old <> Some id)).
  { intros [o|] id X.
    - rewrite elem_of_union, elem_of_singleton, elem_of_difference, elem_of_singleton.
      split; (intros [?|[? ?]]; [left; assumption | right; split; [assumption|congruence]]).
    - rewrite elem_of_union, elem_of_singleton.
      split; [intros [?|?]; [left; assumption | right; split; [assumption|congruence]]
             | intros [?|[? _]]; [left|right]; assumption]. }
  destruct (truthy match label with VUndef => VStr "" | _ => label end);
    destruct (searchLocationMarker (globals st)) as [old|] eqn:Hold; simpl;
    unfold hasKind; simpl;
    (split; [reflexivity|]); (split; [reflexivity|]); (split; [reflexivity|]);
    (split; [intros id Hne;
             rewrite ?lookup_alter_ne by congruence;
             rewrite lookup_insert_ne by congruence; reflexivity|]);
    (split; [rewrite ?lookup_alter_eq, lookup_insert_eq; reflexivity|]);
    (split; [|reflexivity]); intros id.
  - apply (Hin (Some old)).
  - apply (Hin None).
  - apply (Hin (Some old)).
  - apply (Hin None).
Qed.

Lemma drawSearchCircle_keeps (lat lon radiusMiles : number) (st : State) :
  invalidLatLng lat lon = false ->
  stamped st -> oneCircle st ->
  let st' := circleDrawn lat lon radiusMiles st in
  let c := S (lastId (leaflet st)) in
  stamped st' /\ oneCircle st'
  /\ onMap isCircle st' = {[c]}
  /\ (forall m, searchLocationMarker (globals st') = Some m -> m <> c).
Proof.
  intros Hv (Ho & Hm & Hs & _) Hc. cbv zeta.
  destruct (drawSearchCircle_shape lat lon radiusMiles st Hv)
    as (Hsc & Hsl & Hid & Hobj & Hmap & _). cbv zeta in *.
  set (st' := circleDrawn lat lon radiusMiles st) in *.
  set (c := S (lastId (leaflet st))) in *.
  assert (Hcircles : forall id, id ∈ onMap isCircle st' <-> id = c).
  { intros id. rewrite elem_of_onMap, Hmap. unfold hasKind. rewrite Hobj. split.
    - intros [[->|[Hin Hne]] Hk]; [reflexivity|]. exfalso.
      assert (id <= lastId (leaflet st))%nat by (apply Hm, Hin).
      rewrite lookup_insert_ne in Hk by (unfold c; lia).
      apply Hne, Hc, elem_of_onMap. split; assumption.
    - intros ->. split; [left; reflexivity|]. rewrite lookup_insert_eq. reflexivity. }
  split; [|split; [|split]].
  - unfold stamped. rewrite Hid, Hsl, Hsc, Hobj. repeat split.
    + intros id Hlook. destruct (decide (id = c)) as [->|Hne]; [lia|].
      rewrite lookup_insert_ne in Hlook by congruence. apply Ho in Hlook. unfold c. lia.
    + intros id Hin. apply Hmap in Hin as [->|[Hin _]]; [lia|].
      apply Hm in Hin. unfold c. lia.
    + intros id Hin. apply Hs in Hin. unfold c. lia.
    + intros id Hin. injection Hin as <-. lia.
  - intros id Hin. apply Hcircles in Hin as ->. exact Hsc.
  - apply leibniz_equiv. intros id. rewrite Hcircles, elem_of_singleton. reflexivity.
  - intros m Hm'. rewrite Hsl in Hm'. apply Hs in Hm'. unfold c. lia.
Qed.

Lemma highlightSearchLocation_keeps (lat lon : number) (label : value) (st : State) :
  invalidLatLng lat lon = false ->
  stamped st -> oneCircle st ->
  let st' := locationMarked lat lon label st in
  stamped st' /\ oneCircle st'
  /\ (forall c, onMap isCircle st = {[c]} ->
        (forall m, searchLocationMarker (globals st) = Some m -> m <> c) ->
        onMap isCircle st' = {[c]}
        /\ objects (leaflet st') !! c = objects (leaflet st) !! c).
Proof.
  intros Hv (Ho & Hm & Hs & Hcb) Hc. cbv zeta.
  destruct (highlightSearchLocation_shape lat lon label st Hv)
    as (Hsc & Hsl & Hid & Hobj & Hkind & Hmap & _). cbv zeta in *.
  set (st' := locationMarked lat lon label st) in *.
  set (m := S (lastId (leaflet st))) in *.
  assert (Hold : forall id, id ∈ mapLayers (leaflet st) ->
            hasKind isCircle st' id = hasKind isCircle st id).
  { intros id Hin. unfold hasKind. rewrite Hobj; [reflexivity|].
    apply Hm in Hin. unfold m. lia. }
  split; [|split].
  - unfold stamped. rewrite Hid, Hsl, Hsc. repeat split.
    + intros id Hlook. destruct (decide (id = m)) as [->|Hne]; [lia|].
      rewrite Hobj in Hlook by exact Hne. apply Ho in Hlook. unfold m. lia.
    + intros id Hin. apply Hmap in Hin as [->|[Hin _]]; [lia|].
      apply Hm in Hin. unfold m. lia.
    + intros id Hin. injection Hin as <-. lia.
    + intros id Hin. apply Hcb in Hin. unfold m. lia.
  - intros id Hin. rewrite Hsc. apply Hc.
    apply elem_of_onMap in Hin as [Hin Hk]. apply Hmap in Hin as [->|[Hin _]].
    + rewrite Hkind in Hk. discriminate.
    + apply elem_of_onMap. split; [exact Hin|]. rewrite <- Hold by exact Hin. exact Hk.
  - intros c Hone Hne.
    assert (Hcin : c ∈ onMap isCircle st) by (rewrite Hone; apply elem_of_singleton; reflexivity).
    apply elem_of_onMap in Hcin as [Hcin Hck].
    split.
    + apply leibniz_equiv. intros id. rewrite elem_of_singleton, elem_of_onMap, Hmap. split.
      * intros [[->|[Hin _]] Hk]; [rewrite Hkind in Hk; discriminate|].
        rewrite Hold in Hk by exact Hin.
        assert (Hid' : id ∈ onMap isCircle st) by (apply elem_of_onMap; split; assumption).
        rewrite Hone in Hid'. apply elem_of_singleton in Hid'. exact Hid'.
      * intros ->. split.
        -- right. split; [exact Hcin|]. intros Heq. exact (Hne c Heq eq_refl).
        -- rewrite Hold by exact Hcin. exact Hck.
    + apply Hobj. apply Hm in Hcin. unfold m. lia.
Qed.

(** Taking a layer off the map breaks nothing. *)
Lemma removeLayer_keeps (id : nat) (st : State) :
  stamped st /\ oneCircle st -> stamped (removeLayer id st) /\ oneCircle (removeLayer id st).
Proof.
  intros [(Ho & Hm & Hs & Hc) Hone]. split.
  - unfold stamped. simpl. split; [exact Ho|]. split; [|split; [exact Hs | exact Hc]].
    intros i Hi. apply elem_of_difference in Hi as [Hi _]. apply Hm, Hi.
  - intros i Hi. apply elem_of_onMap in Hi as [Hi Hk]. simpl in Hi.
    apply elem_of_difference in Hi as [Hi _].
    apply (Hone i), elem_of_onMap. split; [exact Hi | exact Hk].
Qed.

(** Whether Leaflet accepts the centre or not, the layers stay numbered
    and [searchCircle] stays the only circle. *)
Lemma drawSearchCircle_maintains (lat lon radiusMiles : number) :
  maintains (fun s => stamped s /\ oneCircle s) (drawSearchCircle lat lon radiusMiles).
Proof.
  intros st [Hs Ho]. destruct (invalidLatLng lat lon) eqn:Hv.
  - rewrite (drawSearchCircle_throws _ _ _ _ Hv). simpl.
    destruct (searchCircle (globals st)); [apply removeLayer_keeps|]; split; assumption.
  - rewrite (drawSearchCircle_returns _ _ _ _ Hv). simpl.
    destruct (drawSearchCircle_keeps lat lon radiusMiles st Hv Hs Ho) as (? & ? & _).
    split; assumption.
Qed.

Lemma highlightSearchLocation_maintains (lat lon : number) (label : value) :
  maintains (fun s => stamped s /\ oneCircle s) (highlightSearchLocation lat lon label).
Proof.
  intros st [Hs Ho]. destruct (invalidLatLng lat lon) eqn:Hv.
  - rewrite (highlightSearchLocation_throws _ _ _ _ Hv). simpl.
    destruct (searchLocationMarker (globals st)); [apply removeLayer_keeps|]; split; assumption.
  - rewrite (highlightSearchLocation_returns _ _ _ _ Hv). simpl.
    destruct (highlightSearchLocation_keeps lat lon label st Hv Hs Ho) as (? & ? & _).
    split; assumption.
Qed.

Lemma drawSearchCircle_events (lat lon radiusMiles : number) (st : State) :
  events (snd (drawSearchCircle lat lon radiusMiles st)) = events st.
Proof.
  unfold drawSearchCircle.
  destruct (invalidLatLng lat lon); destruct (searchCircle (globals st)); reflexivity.
Qed.

Lemma highlightSearchLocation_events (lat lon : number) (label : value) (st : State) :
  events (snd (highlightSearchLocation lat lon label st)) = events st.
Proof.
  unfold highlightSearchLocation.
  destruct (invalidLatLng lat lon); destruct (searchLocationMarker (globals st));
    try reflexivity; destruct (truthy _); reflexivity.
Qed.

Lemma setView_maintains (I : State -> Prop) (lat lon : number) :
  (forall e s, I s -> I (emit e s)) -> maintains I (setView lat lon).
Proof.
  intros Hemit st H. unfold setView. destruct (invalidLatLng lat lon); simpl;
    [exact H | apply Hemit, H].
Qed.
End Circle.

Section SearchRun.
Context {E : Engine}.

(** ** A search from the query response on *)

Lemma plotMarker_events (raw : record) (st : State) :
  events st `prefix_of` events (plotMarker raw st).
Proof.
  destruct (plottable raw) eqn:Hp.
  - rewrite (plotMarker_place raw st Hp). simpl. reflexivity.
  - rewrite (plotMarker_skip raw st Hp). simpl. apply prefix_app_r. reflexivity.
Qed.

Lemma plotMarkers_events (data : list record) (st : State) :
  events st `prefix_of` events (plotMarkers data st).
Proof.
  assert (Hloop : forall l s, events s `prefix_of`
                    events (foldl (fun s raw => plotMarker raw s) s l)).
  { induction l as [|raw l IH]; intros s; simpl; [reflexivity|].
    etransitivity; [apply plotMarker_events | apply IH]. }
  unfold plotMarkers. destruct data as [|raw data]; [reflexivity|].
  destruct (markers (globals (foldl _ st (raw :: data)))).
  - apply (Hloop (raw :: data)).
  - simpl events. etransitivity; [apply (Hloop (raw :: data))|].
    apply prefix_app_r. reflexivity.
Qed.

(** Whatever every step of the search keeps, the search keeps, however
    the query and the sidebar turn out. *)
Lemma handleSearch_queried_maintains (I : State -> Prop) (task : SearchTask)
    (g : GeoResult) (response : outcome (list record)) :
  (forall s, I s -> I (clearMarkers s)) ->
  (forall data s, I s -> I (plotMarkers data s)) ->
  (forall f s, I s -> I (with_page f s)) ->
  (forall a b r, maintains I (drawSearchCircle a b r)) ->
  (forall a b l, maintains I (highlightSearchLocation a b l)) ->
  (forall e s, I s -> I (emit e s)) ->
  (forall b s, I s -> I (with_globals (set_isLoading b) s)) ->
  forall st, I st -> I (handleSearch_queried task g response st).
Proof.
  intros Hclear Hplot Hpage Hdraw Hhigh Hemit Hload st H.
  unfold handleSearch_queried. rewrite try_finally_snd.
  unfold showLoading. apply Hload, Hpage.
  revert st H. apply (maintains_try_catch I).
  - destruct response as [data|]; [|apply maintains_throw].
    unfold showResults.
    apply maintains_bind; [apply maintains_run, Hclear|]. intros _.
    apply maintains_bind; [apply maintains_run, Hplot|]. intros _.
    apply maintains_bind; [apply updateSidebar_maintains; intros; apply Hpage; assumption|].
    intros _.
    apply maintains_bind; [apply Hdraw|]. intros _.
    apply maintains_bind; [apply Hhigh|]. intros _.
    apply maintains_bind; [apply setView_maintains, Hemit|]. intros _.
    apply maintains_run. intros s Hs. destruct data; [apply Hpage|]; exact Hs.
  - intros s Hs. apply Hpage, Hs.
Qed.

Lemma handleSearch_queried_events (task : SearchTask) (g : GeoResult)
    (response : outcome (list record)) (st : State) (e : event) :
  In e (events st) -> In e (events (handleSearch_queried task g response st)).
Proof.
  assert (Hpre : forall s s', events s `prefix_of` events s' ->
                   In e (events s) -> In e (events s')).
  { intros s s' [k ->] Hin. apply in_or_app. left. exact Hin. }
  apply (handleSearch_queried_maintains (fun s => In e (events s))).
  - intros s. rewrite clearMarkers_eq. exact (fun H => H).
  - intros data s. apply Hpre, plotMarkers_events.
  - intros f s H. exact H.
  - intros a b r s. rewrite drawSearchCircle_events. exact (fun H => H).
  - intros a b l s. rewrite highlightSearchLocation_events. exact (fun H => H).
  - intros e' s H. simpl. apply in_or_app. left. exact H.
  - intros b s H. exact H.
Qed.

Lemma handleSearch_queried_keeps (task : SearchTask) (g : GeoResult)
    (response : outcome (list record)) (st : State) :
  stamped st /\ oneCircle st ->
  stamped (handleSearch_queried task g response st)
  /\ oneCircle (handleSearch_queried task g response st).
Proof.
  apply (handleSearch_queried_maintains (fun s => stamped s /\ oneCircle s)).
  - intros s [H1 H2]. apply clearMarkers_keeps; assumption.
  - intros data s [H1 H2]. apply plotMarkers_keeps; assumption.
  - intros f s [H1 H2]. split; [exact H1 | exact H2].
  - apply drawSearchCircle_maintains.
  - apply highlightSearchLocation_maintains.
  - intros e s [H1 H2]. split; [exact H1 | exact H2].
  - intros b s [H1 H2]. split; [exact H1 | exact H2].
Qed.

(** The page after a search whose results were all rendered. *)
Lemma handleSearch_queried_ok (task : SearchTask) (g : GeoResult)
    (data : list record) (st : State) :
  Forall (fun raw => renderable raw = true) data ->
  invalidLatLng (lat g) (lon g) = false ->
  exists shown : State,
    updateSidebar data (task_radius task) (plotMarkers data (clearMarkers st))
    = (inr tt, shown)
    /\ handleSearch_queried task g (Resolved data) st
       = showLoading false
           ((fun s => match data with
                      | [] => showError "No locations found within that radius." s
                      | _ => s
                      end)
              (emit (SetView (lat g) (lon g))
                 (locationMarked (lat g) (lon g)
                    (or_ (display_name g) (VStr (task_address task)))
                    (circleDrawn (lat g) (lon g) (task_radius task) shown)))).
Proof.
  intros Hr Hv.
  destruct (updateSidebar_ok data (task_radius task)
              (plotMarkers data (clearMarkers st)) Hr) as (shown & Hshown & _).
  exists shown. split; [exact Hshown|].
  unfold handleSearch_queried. rewrite try_finally_snd. f_equal.
  unfold try_catch, showResults, mbind, M_bind, bind, run.
  rewrite Hshown, (drawSearchCircle_returns _ _ _ _ Hv),
    (highlightSearchLocation_returns _ _ _ _ Hv).
  unfold setView. rewrite Hv. reflexivity.
Qed.

End SearchRun.

Section TwoViews.
Context {E : Engine}.

(** ** The map and the sidebar *)

Lemma nullish_parsed (v w : value) : isNaN (parseFloat v) = false -> nullish v w = v.
Proof. destruct v; simpl; congruence. Qed.

(** A record the map accepts gets a distance in the sidebar as soon as
    there is a search location. *)
Lemma plottable_hasDistance (loc : number * number) (i : nat) (raw : record) :
  plottable raw = true -> hasDistance (processResult (Some loc) i raw) = true.
Proof.
  unfold plottable, markerLat, markerLon. intros H.
  apply negb_true_iff, orb_false_iff in H as [Hlat Hlon].
  unfold hasDistance, processResult. destruct loc as [lat0 lon0]. cbv zeta. simpl distance.
  assert (Hla : forall w, nullish (get (unwrap raw) "latitude") w
                          = get (unwrap raw) "latitude")
    by (intros w; apply nullish_parsed, Hlat).
  assert (Hlo : forall w, nullish (get (unwrap raw) "longitude") w
                          = get (unwrap raw) "longitude")
    by (intros w; apply nullish_parsed, Hlon).
  rewrite !Hla, !Hlo, Hlat, Hlon. reflexivity.
Qed.

Lemma sortByDistance_unranked_perm (l : list Processed) :
  Permutation (map unranked (sortByDistance l)) (map unranked l).
Proof.
  unfold sortByDistance. destruct (_ && _); [|reflexivity].
  unfold renumber. rewrite imap_set_index_unranked.
  apply Permutation_map, sort_perm.
Qed.

End TwoViews.

Section MarkerSet.
Context {E : Engine}.

(** ** The markers on the map *)

Lemma clearMarkers_clears (st : State) :
  tracked st ->
  onMap isMarker (clearMarkers st) = ∅ /\ markers (globals (clearMarkers st)) = [].
Proof.
  intros Ht. rewrite clearMarkers_eq. split; [|reflexivity].
  apply leibniz_equiv, elem_of_equiv_empty. intros id Hid.
  apply elem_of_onMap in Hid as [Hid Hk]. simpl in Hid.
  apply elem_of_difference in Hid as [Hin Hout]. apply Hout.
  apply elem_of_list_to_set, list_elem_of_In, Ht, elem_of_onMap. split; assumption.
Qed.

(** After the loop of [plotMarkers] the markers on the map are the old
    ones and the new ones. *)
Lemma plotMarkers_onMap (data : list record) (st : State) :
  stamped st ->
  onMap isMarker (plotMarkers data st)
  = list_to_set (seq (S (lastId (leaflet st))) (length (List.filter plottable data)))
    ∪ onMap isMarker st.
Proof.
  intros (Ho & Hm & _).
  destruct (plotMarkers_loop data st) as (_ & Hl & _).
  destruct (plot_all data st) as (_ & _ & _ & _ & _ & _ & Hold & _ & Hobj & Hmap & _).
  cbv zeta in *.
  set (st1 := foldl (fun s raw => plotMarker raw s) st data) in *.
  set (passed := List.filter plottable data) in *.
  set (base := lastId (leaflet st)) in *.
  apply leibniz_equiv. intros id.
  rewrite elem_of_union, !elem_of_onMap, elem_of_list_to_set, list_elem_of_In, in_seq.
  unfold hasKind. rewrite Hl, Hmap, elem_of_union, elem_of_list_to_set, list_elem_of_In, in_seq.
  split.
  - intros [[Hnew|Hin] Hk]; [left; exact Hnew|].
    right. split; [exact Hin|]. rewrite <- Hold by (apply Hm, Hin). exact Hk.
  - intros [Hnew|[Hin Hk]].
    + split; [left; exact Hnew|].
      destruct (lookup_lt_is_Some_2 passed (id - S base)) as [raw Hraw]; [lia|].
      apply Hobj in Hraw. replace (S base + (id - S base))%nat with id in Hraw by lia.
      rewrite Hraw. reflexivity.
    + split; [right; exact Hin|]. rewrite Hold by (apply Hm, Hin). exact Hk.
Qed.

Lemma plotMarkers_tracked (data : list record) (st : State) :
  stamped st -> tracked st -> tracked (plotMarkers data st).
Proof.
  intros Hs Ht id Hid. rewrite (plotMarkers_onMap data st Hs) in Hid.
  destruct (plotMarkers_loop data st) as (Hg & _).
  destruct (plot_all data st) as (Hm & _). cbv zeta in *.
  rewrite Hg, Hm. apply in_or_app.
  apply elem_of_union in Hid as [Hid|Hid].
  - right. apply elem_of_list_to_set in Hid. apply list_elem_of_In. exact Hid.
  - left. apply Ht, Hid.
Qed.

Lemma drawSearchCircle_markers (lat lon radiusMiles : number) (st : State) (id : nat) :
  invalidLatLng lat lon = false ->
  stamped st ->
  id ∈ onMap isMarker (circleDrawn lat lon radiusMiles st)
  <-> id ∈ onMap isMarker st /\ searchCircle (globals st) <> Some id.
Proof.
  intros Hv (_ & Hm & _).
  destruct (drawSearchCircle_shape lat lon radiusMiles st Hv)
    as (_ & _ & _ & Hobj & Hmap & _).
  cbv zeta in *. rewrite !elem_of_onMap, Hmap. unfold hasKind. rewrite Hobj. split.
  - intros [[->|[Hin Hne]] Hk].
    + rewrite lookup_insert_eq in Hk. discriminate.
    + rewrite lookup_insert_ne in Hk by (apply Hm in Hin; lia). tauto.
  - intros [[Hin Hk] Hne]. split; [right; tauto|].
    rewrite lookup_insert_ne by (apply Hm in Hin; lia). exact Hk.
Qed.

Lemma highlightSearchLocation_markers (lat lon : number) (label : value) (st : State)
    (id : nat) :
  invalidLatLng lat lon = false ->
  stamped st ->
  id ∈ onMap isMarker (locationMarked lat lon label st)
  <-> id ∈ onMap isMarker st /\ searchLocationMarker (globals st) <> Some id.
Proof.
  intros Hv (_ & Hm & _).
  destruct (highlightSearchLocation_shape lat lon label st Hv)
    as (_ & _ & _ & Hobj & _ & Hmap & _).
  assert (Hnew : hasKind isMarker (locationMarked lat lon label st)
                   (S (lastId (leaflet st))) = false).
  { unfold locationMarked, highlightSearchLocation, hasKind. rewrite Hv.
    destruct (truthy _); destruct (searchLocationMarker (globals st)); simpl;
      rewrite ?lookup_alter_eq, lookup_insert_eq; reflexivity. }
  cbv zeta in *. rewrite !elem_of_onMap, Hmap. split.
  - intros [[->|[Hin Hne]] Hk].
    + rewrite Hnew in Hk. discriminate.
    + unfold hasKind in *. rewrite Hobj in Hk by (apply Hm in Hin; lia). tauto.
  - intros [[Hin Hk] Hne]. split; [right; tauto|].
    unfold hasKind in *. rewrite Hobj by (apply Hm in Hin; lia). exact Hk.
Qed.

Lemma drawSearchCircle_list (lat lon radiusMiles : number) (st : State) :
  markers (globals (circleDrawn lat lon radiusMiles st)) = markers (globals st).
Proof.
  unfold circleDrawn, drawSearchCircle.
  destruct (invalidLatLng lat lon); destruct (searchCircle (globals st)); reflexivity.
Qed.

Lemma highlightSearchLocation_list (lat lon : number) (label : value) (st : State) :
  markers (globals (locationMarked lat lon label st)) = markers (globals st).
Proof.
  unfold locationMarked, highlightSearchLocation.
  destruct (invalidLatLng lat lon); destruct (searchLocationMarker (globals st));
    try reflexivity; destruct (truthy _); reflexivity.
Qed.

End MarkerSet.

Section Reload.
Context {E : Engine}.

(** ** [loadAllPins] *)

(** A reload takes nothing away: what [markers] held it still holds, in
    front of the new markers, and what was on the map is still there. *)
Lemma loadAllPins_keeps_markers (response : outcome (list record)) (st : State) :
  markers (globals st) `prefix_of` markers (globals (loadAllPins response st))
  /\ mapLayers (leaflet st) ⊆ mapLayers (leaflet (loadAllPins response st)).
Proof.
  unfold loadAllPins, loadAllPins_loaded, loadAllPins_begin.
  destruct response as [data|]; simpl; [|split; reflexivity].
  set (st1 := emit _ (showLoading true st)).
  destruct (plotMarkers_loop data st1) as (Hg & Hl & _).
  destruct (plot_all data st1) as (Hm & _ & _ & _ & _ & _ & _ & _ & _ & Hmap & _).
  cbv zeta in *. rewrite Hg, Hl, Hm, Hmap. split.
  - apply prefix_app_r. reflexivity.
  - apply union_subseteq_r.
Qed.

Lemma loadAllPins_invariant (response : outcome (list record)) (st : State) :
  stamped st -> oneCircle st -> tracked st ->
  stamped (loadAllPins response st)
  /\ oneCircle (loadAllPins response st)
  /\ tracked (loadAllPins response st).
Proof.
  intros Hs Ho Ht.
  unfold loadAllPins, loadAllPins_loaded, loadAllPins_begin.
  set (st1 := emit _ (showLoading true st)).
  assert (Hs1 : stamped st1)
    by (apply (stamped_frame st); [reflexivity | reflexivity | reflexivity | exact Hs]).
  assert (Ho1 : oneCircle st1)
    by (apply (oneCircle_frame st); [reflexivity | reflexivity | exact Ho]).
  assert (Ht1 : tracked st1).
  { intros id Hid. apply (Ht id).
    rewrite (onMap_leaflet isMarker st st1) in Hid by reflexivity. exact Hid. }
  assert (Hend : forall s, stamped s -> oneCircle s -> tracked s ->
            stamped (showLoading false s) /\ oneCircle (showLoading false s)
            /\ tracked (showLoading false s)).
  { intros s H1 H2 H3. split; [|split].
    - apply (stamped_frame s); [reflexivity | reflexivity | reflexivity | exact H1].
    - apply (oneCircle_frame s); [reflexivity | reflexivity | exact H2].
    - intros id Hid. apply (H3 id).
      rewrite (onMap_leaflet isMarker s) in Hid by reflexivity. exact Hid. }
  destruct response as [data|].
  - destruct (plotMarkers_keeps data st1 Hs1 Ho1) as [H1 H2].
    apply Hend; [exact H1 | exact H2 | apply plotMarkers_tracked; assumption].
  - apply Hend.
    + apply (stamped_frame st1); [reflexivity | reflexivity | reflexivity | exact Hs1].
    + apply (oneCircle_frame st1); [reflexivity | reflexivity | exact Ho1].
    + intros id Hid. apply (Ht1 id).
      rewrite (onMap_leaflet isMarker st1) in Hid by reflexivity. exact Hid.
Qed.
End Reload.

Section Feedback.
Context {E : Engine}.

(** ** The feedback form *)

(** Choosing a star twice is choosing it once. *)
Lemma star_click_idempotent (i : nat) (c : Card) :
  star_click i (star_click i c) = star_click i c.
Proof. reflexivity. Qed.

(** The stars lit are those up to the rating chosen. *)
Lemma updateStars_count (rating : nat) :
  (rating <= 5)%nat ->
  length (List.filter (fun lit => lit) (updateStars rating)) = rating.
Proof.
  intros H. do 6 (destruct rating as [|rating]; [reflexivity|]). lia.
Qed.

(** With a rating chosen, a click on the submit button sends one request,
    carrying the serial, the rating and the trimmed text, and switches the
    controls of the card off. *)
Lemma submit_with_rating_posts (c : Card) :
  selectedRating c <> 0%nat ->
  submitBtn_click c
  = (set_controls true "⏳ Submitting..." (submitBtn_background c) "none" c,
     [HttpPost API_REVIEW_URL
        (requestBody (card_result c) (selectedRating c) (trim (textarea_value c)))],
     Some (trim (textarea_value c))).
Proof.
  intros H. unfold submitBtn_click.
  destruct (Nat.eqb_spec (selectedRating c) 0); [contradiction | reflexivity].
Qed.

(** A failed request gives the controls back and keeps the draft. *)
Lemma failed_submit_keeps_draft (c : Card) :
  let c' := fst (submitBtn_posted Rejected c) in
  selectedRating c' = selectedRating c
  /\ textarea_value c' = textarea_value c
  /\ stars_selected c' = stars_selected c
  /\ disabled (submitBtn c') = false
  /\ textarea_disabled c' = false
  /\ stars_pointerEvents c' = "auto"
  /\ snd (submitBtn_posted Rejected c)
     = [Alert "Failed to submit feedback. Please try again."].
Proof. cbv zeta. repeat split. Qed.

(** A request that went through shows what was sent and empties the
    form. *)
Lemma finished_submit_resets (feedbackText : string) (c : Card) :
  let c' := fst (submitBtn_finished feedbackText c) in
  ratingDisplay c' = Number_toString (of_nat (selectedRating c)) ++ " ⭐"
  /\ feedbackDisplay c'
     = (if String.eqb feedbackText "" then "No feedback yet" else feedbackText)
  /\ selectedRating c' = 0%nat
  /\ textarea_value c' = ""
  /\ feedbackForm_display c' = "none"
  /\ disabled (submitBtn c') = false.
Proof. cbv zeta. repeat split. Qed.
End Feedback.

Section Popup.
Context {E : Engine}.

(** ** The popup *)

Lemma substring_skip (a s : string) (m n : nat) :
  substring (String.length a + m) n (a ++ s) = substring m n s.
Proof. induction a as [|ch a IH]; simpl; [reflexivity | exact IH]. Qed.

Lemma substring_take (s t : string) :
  substring 0 (String.length s) (s ++ t) = s.
Proof.
  induction s as [|ch s IH]; simpl; [destruct t; reflexivity | rewrite IH; reflexivity].
Qed.

(** [s] stands in [t] at position [m]. *)
Lemma includes_found (t s : string) (m : nat) :
  s <> "" -> substring m (String.length s) t = s -> includes t s = true.
Proof.
  intros Hs Hm. unfold includes.
  destruct (String.index 0 s t) eqn:Hi; [reflexivity|]. exfalso.
  exact (index_correct3 0 m s t Hi Hs (Nat.le_0_l m) Hm).
Qed.

Lemma includes_right (a t s : string) :
  s <> "" -> includes t s = true -> includes (a ++ t) s = true.
Proof.
  intros Hs. unfold includes at 1.
  destruct (String.index 0 s t) as [m|] eqn:Hi; [intros _ | discriminate].
  apply index_correct1 in Hi.
  apply (includes_found _ _ (String.length a + m) Hs).
  rewrite substring_skip. exact Hi.
Qed.

Lemma includes_head (s t : string) : s <> "" -> includes (s ++ t) s = true.
Proof. intros Hs. apply (includes_found _ _ 0 Hs), substring_take. Qed.

(** X2.  Whenever a record carries neither [email] nor [Email], the word
    "undefined" is in its popup, whatever else the record holds. *)
Lemma popup_without_email (rec : value) :
  or_ (get rec "email") (get rec "Email") = VUndef ->
  includes (popupContent rec) "undefined" = true.
Proof.
  intros H. unfold popupContent. rewrite H. simpl ToString.
  repeat lazymatch goal with
         | |- includes ("undefined" ++ _) _ = true => fail
         | |- includes (_ ++ _) _ = true => apply includes_right; [discriminate|]
         end.
  apply includes_head. discriminate.
Qed.
End Popup.

(** ** Worked runs on the reference engine *)

Section Runs.
Import Samples.
#[local] Existing Instance RefEngine.engine.

Lemma loaded_stamped : stamped loaded.
Proof.
  repeat split; simpl.
  - intros id [o H]. apply lookup_singleton_Some in H as [<- _]. lia.
  - intros id H. apply elem_of_singleton in H as ->. lia.
  - discriminate.
  - discriminate.
Qed.

Lemma loaded_oneCircle : oneCircle loaded.
Proof.
  intros id H. apply elem_of_onMap in H as [H Hk].
  simpl in H. apply elem_of_singleton in H as ->. discriminate.
Qed.

Lemma loaded_tracked : tracked loaded.
Proof.
  intros id H. apply elem_of_onMap in H as [H Hk].
  simpl in H. apply elem_of_singleton in H as ->. discriminate.
Qed.

(** The three invariants hold after the first load, whatever it brings. *)
Example first_load_invariant (response : outcome (list record)) :
  stamped (loadAllPins response loaded)
  /\ oneCircle (loadAllPins response loaded)
  /\ tracked (loadAllPins response loaded).
Proof.
  apply loadAllPins_invariant;
    [exact loaded_stamped | exact loaded_oneCircle | exact loaded_tracked].
Qed.

(** The Update Map button: the webhook is called, and on success a reload
    is scheduled and the controls come back. *)
Example update_then_reload :
  let st1 := fst (handleUpdateMap_begin loaded) in
  let st2 := handleUpdateMap_updated (Resolved VNull) st1 in
  snd (handleUpdateMap_begin loaded) = true
  /\ isLoading (globals st1) = true
  /\ updateMapBtn (page st1) = Some {| disabled := true; textContent := "Updating..." |}
  /\ events st2 = [HttpPost API_UPDATE_URL VUndef; SetTimeout 1000 "loadAllPins"]
  /\ message (page st2) = Some (SuccessMessage, "Map update triggered successfully!")
  /\ updateMapBtn (page st2) = Some {| disabled := false; textContent := "Update Map" |}
  /\ isLoading (globals st2) = false.
Proof. cbv zeta. repeat split. Qed.

(** One round of feedback on the card of a search result: open the form,
    pick four stars, type, submit, and see the card updated. *)
Example feedback_round :
  let st := snd (updateSidebar [montgomery] (Fin 10) loaded) in
  exists c, cards st = [c]
    /\ let c1 := set_textarea_value " Great " (star_click 4 (writeFeedbackBtn_click c)) in
       let c2 := fst (fst (submitBtn_click c1)) in
       let c3 := fst (submitBtn_posted (Resolved VNull) c2) in
       let c4 := fst (submitBtn_finished "Great" c3) in
       feedbackForm_display c1 = "block"
       /\ stars_selected c1 = [true; true; true; true; false]
       /\ snd (fst (submitBtn_click c1))
          = [HttpPost API_REVIEW_URL (requestBody (card_result c) 4 "Great")]
       /\ snd (submitBtn_click c1) = Some "Great"
       /\ requestBody (card_result c) 4 "Great"
          = VObj (<["serial" := VStr "1"]> (<["review" := VNum (of_nat 4)]>
                 (<["feedback" := VStr "Great"]> ∅)))
       /\ disabled (submitBtn c2) = true
       /\ textarea_disabled c2 = true
       /\ ratingDisplay c = "Not rated yet"
       /\ ratingDisplay c4 = "4 ⭐"
       /\ feedbackDisplay c4 = "Great"
       /\ selectedRating c4 = 0%nat
       /\ disabled (submitBtn c4) = false.
Proof.
  cbv zeta. eexists. split; [vm_compute; reflexivity|].
  repeat split; vm_compute; reflexivity.
Qed.

Example geocode_birmingham : geocodeAddress (Resolved [birmingham]) = inr (Some birminghamResult).
Proof. vm_compute. reflexivity. Qed.

(** The distance from Birmingham to Montgomery, in miles. *)
Example distance_birmingham_montgomery :
  map distance (processResults (Some (Fin 33.5207, fin (-86.8025))) [montgomery])
  = [Some (Fin 84.9)].
Proof. vm_compute. reflexivity. Qed.




(** C3, counterexample.  A list with a missing distance followed by a
    NaN distance is left in that order: the element without a distance
    stands before one that has a distance. *)
Lemma sortByDistance_NaN_after_null :
  let l := [withDistance None; withDistance (Some NaN)] in
  existsb hasDistance l = true
  /\ map distance (sortByDistance l) = [None; Some NaN]
  /\ map index (sortByDistance l) = [1; 2]%nat.
Proof. cbv zeta. repeat split; vm_compute; reflexivity. Qed.

(** Such a list does come out of [updateSidebar]'s processing. *)
Example NaN_distance_from_a_record :
  map distance (processResults (Some (Fin 33.5207, fin (-86.8025))) [unplaced; unbounded])
  = [None; Some NaN].
Proof. vm_compute. reflexivity. Qed.

(** And a search shows it: the card without a distance is ranked first. *)
Example NaN_distance_in_the_sidebar :
  let st' := handleSearch "Birmingham, AL" "10" (Resolved [birmingham])
               (Resolved [unplaced; unbounded]) loaded in
  map (fun c => (name (card_result c), index (card_result c), distance (card_result c)))
      (cards st')
  = [(VStr "Nowhere", 1%nat, None); (VStr "Pole", 2%nat, Some NaN)]
  /\ markers (globals st') = [].
Proof. cbv zeta. split; vm_compute; reflexivity. Qed.

(** C3, an instance of the amended statement. *)
Lemma sortByDistance_sorts_witness :
  let l := [withDistance (Some (Fin 3)); withDistance None;
            withDistance (Some (Fin 1.5)); withDistance (Some (Fin 3))] in
  existsb hasDistance l = true
  /\ Forall (fun r => finiteDistance r = true) l
  /\ exists sorted : list Processed,
       Permutation sorted l
       /\ StronglySorted precedes sorted
       /\ (forall d, List.filter (sameDistance d) sorted = List.filter (sameDistance d) l)
       /\ map unranked (sortByDistance l) = map unranked sorted
       /\ map index (sortByDistance l) = seq 1 (length l).
Proof.
  cbv zeta. split; [reflexivity|]. split; [repeat constructor|].
  apply sortByDistance_sorts; [reflexivity | repeat constructor].
Defined.

Example sortByDistance_run :
  map (fun r => (index r, distance r))
      (sortByDistance [withDistance (Some (Fin 3)); withDistance None;
                       withDistance (Some (Fin 1.5)); withDistance (Some (Fin 3))])
  = [(1%nat, Some (Fin 1.5)); (2%nat, Some (Fin 3)); (3%nat, Some (Fin 3)); (4%nat, None)].
Proof. vm_compute. reflexivity. Qed.


(** A geocoder answer without coordinates: the query is sent, the
    markers and the cards are replaced, then Leaflet refuses the centre;
    the search ends with "Search failed" and the circle of the search
    before is off the map. *)
Example search_without_centre :
  let st1 := handleSearch "Birmingham, AL" "10" (Resolved [birmingham])
               (Resolved [montgomery]) loaded in
  let st2 := handleSearch "Somewhere" "10" (Resolved [uncharted])
               (Resolved [noEmail]) st1 in
  geocodeAddress (Resolved [uncharted])
  = inr (Some {| lat := NaN; lon := NaN; display_name := VStr "Somewhere" |})
  /\ message (page st2) = Some (ErrorMessage, "Search failed. Please try again.")
  /\ size (onMap isCircle st1) = 1%nat
  /\ size (onMap isCircle st2) = 0%nat
  /\ searchCircle (globals st2) = searchCircle (globals st1)
  /\ layersOf st2 (markers (globals st2)) = [Some (markerOf noEmail)]
  /\ map (fun c => distance (card_result c)) (cards st2) = [Some NaN]
  /\ controlsEnabled st2.
Proof. cbv zeta. repeat split; vm_compute; reflexivity. Qed.

(** C6, the code at the failing input.  [loadAllPins] run on a page
    that already shows the marker of an earlier load: the old marker is
    still in [markers] and on the map, next to the new one. *)
Lemma reload_keeps_stale_markers :
  let st1 := loadAllPins (Resolved [noEmail]) loaded in
  let st2 := loadAllPins (Resolved [montgomery]) st1 in
  markers (globals st1) = [2%nat]
  /\ markers (globals st2) = [2%nat; 3%nat]
  /\ onMap isMarker st2 = {[2%nat; 3%nat]}
  /\ layersOf st2 [2%nat; 3%nat] = [Some (markerOf noEmail); Some (markerOf montgomery)].
Proof. cbv zeta. repeat split; vm_compute; reflexivity. Qed.

(** A search from the same page does take them away. *)
Example search_replaces_markers :
  let st1 := loadAllPins (Resolved [noEmail]) loaded in
  let st2 := handleSearch "Birmingham, AL" "10" (Resolved [birmingham])
               (Resolved [montgomery]) st1 in
  markers (globals st2) = [3%nat]
  /\ onMap isMarker st2 = {[3%nat]}
  /\ layersOf st2 [3%nat] = [Some (markerOf montgomery)].
Proof. cbv zeta. repeat split; vm_compute; reflexivity. Qed.

(** C7, the code at the failing input.  The popup of a record that has
    coordinates and no e-mail address contains the word "undefined". *)
Lemma popup_prints_undefined :
  let st := plotMarkers [noEmail] loaded in
  layersOf st (markers (globals st))
  = [Some (Marker (markerLat noEmail) (markerLon noEmail)
             (Some (popupContent (unwrap noEmail))))]
  /\ includes (popupContent (unwrap noEmail)) "mailto:undefined?" = true
  /\ includes (popupContent (unwrap noEmail)) "undefined" = true.
Proof. cbv zeta. repeat split; vm_compute; reflexivity. Qed.

(** C8, an instance: the first card after a search, its form untouched. *)
Lemma submit_without_rating_is_rejected_witness :
  let st := snd (updateSidebar [montgomery] (Fin 10) loaded) in
  exists c,
    sidebarContent (page st) !! 0%nat = Some (ResultCard c)
    /\ selectedRating c = 0%nat
    /\ submitBtn_click c = (c, [Alert "Please select a star rating before submitting."], None)
    /\ snd (submit_click 0 st) = None
    /\ page (fst (submit_click 0 st)) = page st
    /\ globals (fst (submit_click 0 st)) = globals st
    /\ events (fst (submit_click 0 st))
       = (events st ++ [Alert "Please select a star rating before submitting."])%list
    /\ List.filter isRequest (events (fst (submit_click 0 st)))
       = List.filter isRequest (events st).
Proof.
  cbv zeta. eexists.
  assert (H : sidebarContent (page (snd (updateSidebar [montgomery] (Fin 10) loaded)))
              !! 0%nat = Some (ResultCard ?[c])) by (vm_compute; reflexivity).
  split; [exact H|]. split; [reflexivity|].
  exact (submit_without_rating_is_rejected 0 _ _ H eq_refl).
Defined.



(** C10, an instance: the geocoding request is rejected. *)
Lemma geocoding_failure_is_not_found_witness :
  let task := {| task_address := "Birmingham, AL"; task_radius := Fin 10;
                 task_radiusKm := fin 16.0934 |} in
  let st1 := fst (handleSearch_begin "Birmingham, AL" "10" loaded) in
  handleSearch_begin "Birmingham, AL" "10" loaded = (st1, Some task)
  /\ geocodeAddress_try Rejected = inl NetworkError
  /\ (forall response', exists r, geocodeAddress response' = inr r)
  /\ geocodeAddress Rejected = inr None
  /\ let st' := handleSearch "Birmingham, AL" "10" Rejected (Resolved [montgomery]) loaded in
     message (page st')
     = Some (ErrorMessage,
             "Could not find the specified address. Please try a different address.")
     /\ events st' = (events loaded ++ [HttpGet (geocodeUrl (trim "Birmingham, AL"))])%list
     /\ List.filter isPost (events st') = List.filter isPost (events loaded)
     /\ leaflet st' = leaflet loaded
     /\ controlsEnabled st'.
Proof.
  cbv zeta.
  assert (H : handleSearch_begin "Birmingham, AL" "10" loaded
              = (fst (handleSearch_begin "Birmingham, AL" "10" loaded),
                 Some {| task_address := "Birmingham, AL"; task_radius := Fin 10;
                         task_radiusKm := fin 16.0934 |}))
    by (vm_compute; reflexivity).
  split; [exact H|]. split; [reflexivity|].
  exact (geocoding_failure_is_not_found "Birmingham, AL" "10" Rejected
           (Resolved [montgomery]) loaded _ _ NetworkError H eq_refl).
Defined.
End Runs.

Section Consistency.
Context {E : Engine}.

(** ** What every reachable page satisfies *)

Lemma consistent_frame (st st' : State) :
  leaflet st' = leaflet st ->
  markers (globals st') = markers (globals st) ->
  searchCircle (globals st') = searchCircle (globals st) ->
  searchLocationMarker (globals st') = searchLocationMarker (globals st) ->
  consistent st -> consistent st'.
Proof.
  intros Hl Hm Hc Hs (H1 & H2 & H3 & H4 & H5 & H6 & H7).
  unfold consistent, stamped, oneCircle, oneSearchMarker, tracked, held, sorted_out in *.
  rewrite !(onMap_leaflet _ st st' Hl).
  unfold hasKind in *. rewrite Hl, Hm, Hc, Hs. tauto.
Qed.

Lemma emit_all_frame (calls : list event) (st : State) :
  globals (emit_all calls st) = globals st
  /\ leaflet (emit_all calls st) = leaflet st
  /\ page (emit_all calls st) = page st.
Proof.
  unfold emit_all. revert st. induction calls as [|e calls IH]; intros st; simpl.
  - repeat split.
  - destruct (IH (emit e st)) as (-> & -> & ->). repeat split.
Qed.

(** Two kinds of layer that exclude one another. *)
Lemma kinds_apart (k1 k2 : layerObj -> bool) (st : State) (id : nat) :
  (forall o, k1 o = true -> k2 o = true -> False) ->
  hasKind k1 st id = true -> hasKind k2 st id = true -> False.
Proof.
  unfold hasKind. intros H. destruct (objects (leaflet st) !! id) as [o|]; [apply H|discriminate].
Qed.

Lemma removeLayer_consistent (id : nat) (st : State) :
  ~ In id (markers (globals st)) -> consistent st -> consistent (removeLayer id st).
Proof.
  intros Hid (H1 & H2 & H3 & H4 & H5 & H6 & H7).
  destruct (removeLayer_keeps id st (conj H1 H2)) as [H1' H2'].
  assert (Hsub : forall k i, i ∈ onMap k (removeLayer id st) -> i ∈ onMap k st).
  { intros k i Hi. apply elem_of_onMap in Hi as [Hi Hk]. simpl in Hi.
    apply elem_of_difference in Hi as [Hi _]. apply elem_of_onMap. split; assumption. }
  split; [exact H1'|]. split; [exact H2'|].
  split; [intros i Hi; apply (H3 i), Hsub, Hi|].
  split; [intros i Hi; apply (H4 i), Hsub, Hi|].
  split; [|split; [exact H6 | exact H7]].
  intros i Hi. specialize (H5 i Hi). apply elem_of_onMap in H5 as [Hin Hk].
  apply elem_of_onMap. split; [|exact Hk]. simpl.
  apply elem_of_difference. split; [exact Hin|].
  intros Heq. apply elem_of_singleton in Heq. subst i. exact (Hid Hi).
Qed.

Lemma clearMarkers_consistent (st : State) : consistent st -> consistent (clearMarkers st).
Proof.
  intros (H1 & H2 & H3 & H4 & H5 & H6 & H7).
  destruct (clearMarkers_keeps st H1 H2) as [H1' H2'].
  destruct (clearMarkers_clears st H4) as [Hon Hmk].
  split; [exact H1'|]. split; [exact H2'|].
  split; [|split; [|split; [|split]]].
  - rewrite clearMarkers_eq. intros i Hi. apply (H3 i).
    apply elem_of_onMap in Hi as [Hi Hk]. simpl in Hi.
    apply elem_of_difference in Hi as [Hi _]. apply elem_of_onMap. split; assumption.
  - intros i Hi. rewrite Hon in Hi. apply elem_of_empty in Hi. contradiction.
  - intros i Hi. rewrite Hmk in Hi. contradiction.
  - rewrite clearMarkers_eq. exact H6.
  - rewrite Hmk. constructor.
Qed.

Lemma plotMarkers_consistent (data : list record) (st : State) :
  consistent st -> consistent (plotMarkers data st).
Proof.
  intros (H1 & H2 & H3 & H4 & H5 & H6 & H7).
  destruct (plotMarkers_keeps data st H1 H2) as [H1' H2'].
  assert (H4' := plotMarkers_tracked data st H1 H4).
  assert (Hon := plotMarkers_onMap data st H1).
  destruct (plotMarkers_loop data st) as (Hg & Hl & _).
  destruct (plot_all data st)
    as (Hm & Hsc & Hsl & _ & _ & Hid & Hold & _ & Hobj & Hmap & _).
  cbv zeta in *.
  set (passed := List.filter plottable data) in *.
  set (base := lastId (leaflet st)) in *.
  destruct H1 as (Ho & Hml & Hs & Hcb).
  split; [exact H1'|]. split; [exact H2'|].
  split; [|split; [exact H4'|split; [|split]]].
  - intros id Hin. rewrite Hg, Hsl. apply elem_of_onMap in Hin as [Hin Hk].
    rewrite Hl, Hmap, elem_of_union, elem_of_list_to_set, list_elem_of_In, in_seq in Hin.
    unfold hasKind in Hk. rewrite Hl in Hk.
    destruct Hin as [Hin|Hin].
    + exfalso. destruct (lookup_lt_is_Some_2 passed (id - S base)) as [raw Hraw]; [lia|].
      apply Hobj in Hraw. replace (S base + (id - S base))%nat with id in Hraw by lia.
      rewrite Hraw in Hk. discriminate.
    + apply H3. apply elem_of_onMap. split; [exact Hin|].
      unfold hasKind. rewrite <- Hold by (apply Hml; exact Hin). exact Hk.
  - intros id Hin. rewrite Hg, Hm in Hin. rewrite Hon.
    apply in_app_or in Hin as [Hin|Hin].
    + apply elem_of_union. right. apply H5, Hin.
    + apply elem_of_union. left. apply elem_of_list_to_set, list_elem_of_In. exact Hin.
  - unfold sorted_out, hasKind. rewrite Hg, Hl, Hsc, Hsl. split.
    + intros c Hc. rewrite Hold by (apply Hcb, Hc). apply (proj1 H6 c Hc).
    + intros m Hm'. rewrite Hold by (apply Hs, Hm'). apply (proj2 H6 m Hm').
  - rewrite Hg, Hm. apply NoDup_app. split; [exact H7|]. split; [|apply NoDup_seq].
    intros id Hin Hnew. apply list_elem_of_In in Hin, Hnew.
    apply H5, elem_of_onMap in Hin as [Hin _]. apply Hml in Hin.
    apply in_seq in Hnew. lia.
Qed.

Lemma circleDrawn_onMap (k : layerObj -> bool) (lat lon radiusMiles : number)
    (st : State) (id : nat) :
  invalidLatLng lat lon = false -> stamped st ->
  (forall a b c, k (Circle a b c) = false) ->
  id ∈ onMap k (circleDrawn lat lon radiusMiles st)
  <-> id ∈ onMap k st /\ searchCircle (globals st) <> Some id.
Proof.
  intros Hv (_ & Hm & _) Hk.
  destruct (drawSearchCircle_shape lat lon radiusMiles st Hv)
    as (_ & _ & _ & Hobj & Hmap & _).
  cbv zeta in *. rewrite !elem_of_onMap, Hmap. unfold hasKind. rewrite Hobj. split.
  - intros [[->|[Hin Hne]] Hk'].
    + rewrite lookup_insert_eq, Hk in Hk'. discriminate.
    + rewrite lookup_insert_ne in Hk' by (apply Hm in Hin; lia). tauto.
  - intros [[Hin Hk'] Hne]. split; [right; tauto|].
    rewrite lookup_insert_ne by (apply Hm in Hin; lia). exact Hk'.
Qed.

(** The label [highlightSearchLocation] works with, and the popup it
    binds. *)
Lemma locationMarked_object (lat lon : number) (label : value) (st : State) :
  invalidLatLng lat lon = false ->
  objects (leaflet (locationMarked lat lon label st)) !! S (lastId (leaflet st))
  = Some (CircleMarker lat lon
            (let label := match label with VUndef => VStr "" | _ => label end in
             if truthy label
             then Some ("<strong>Search location</strong><br>" ++ ToString label)
             else None)).
Proof.
  intros Hv. unfold locationMarked, highlightSearchLocation. rewrite Hv. cbv zeta.
  destruct (truthy match label with VUndef => VStr "" | _ => label end);
    destruct (searchLocationMarker (globals st)); simpl;
    rewrite ?lookup_alter_eq, lookup_insert_eq; reflexivity.
Qed.

Lemma locationMarked_onMap (k : layerObj -> bool) (lat lon : number) (label : value)
    (st : State) (id : nat) :
  invalidLatLng lat lon = false -> stamped st ->
  (forall a b p, k (CircleMarker a b p) = false) ->
  id ∈ onMap k (locationMarked lat lon label st)
  <-> id ∈ onMap k st /\ searchLocationMarker (globals st) <> Some id.
Proof.
  intros Hv (_ & Hm & _) Hk.
  destruct (highlightSearchLocation_shape lat lon label st Hv)
    as (_ & _ & _ & Hobj & _ & Hmap & _).
  assert (Hnew := locationMarked_object lat lon label st Hv).
  cbv zeta in *. rewrite !elem_of_onMap, Hmap. unfold hasKind. split.
  - intros [[->|[Hin Hne]] Hk'].
    + rewrite Hnew, Hk in Hk'. discriminate.
    + rewrite Hobj in Hk' by (apply Hm in Hin; lia). tauto.
  - intros [[Hin Hk'] Hne]. split; [right; tauto|].
    rewrite Hobj by (apply Hm in Hin; lia). exact Hk'.
Qed.

Lemma drawSearchCircle_consistent (lat lon radiusMiles : number) :
  maintains consistent (drawSearchCircle lat lon radiusMiles).
Proof.
  intros st Hc.
  assert (Hfree : forall c, searchCircle (globals st) = Some c ->
                    ~ In c (markers (globals st))).
  { intros c Hsc Hin. destruct Hc as (_ & _ & _ & _ & H5 & H6 & _).
    apply H5, elem_of_onMap in Hin as [_ Hk].
    apply (kinds_apart isCircle isMarker st c); [|apply (proj1 H6 c Hsc)|exact Hk].
    intros [] ; discriminate. }
  destruct (invalidLatLng lat lon) eqn:Hv.
  - rewrite (drawSearchCircle_throws _ _ _ _ Hv). simpl.
    destruct (searchCircle (globals st)) as [c|] eqn:Hsc; [|exact Hc].
    apply removeLayer_consistent; [apply Hfree; reflexivity | exact Hc].
  - rewrite (drawSearchCircle_returns _ _ _ _ Hv). simpl.
    destruct Hc as (H1 & H2 & H3 & H4 & H5 & H6 & H7).
    destruct (drawSearchCircle_keeps lat lon radiusMiles st Hv H1 H2) as (H1' & H2' & _).
    destruct (drawSearchCircle_shape lat lon radiusMiles st Hv)
      as (Hsc & Hsl & Hid & Hobj & Hmap & _).
    assert (Hmk := drawSearchCircle_list lat lon radiusMiles st).
    cbv zeta in *.
    split; [exact H1'|]. split; [exact H2'|].
    split; [|split; [|split; [|split]]].
    + intros id Hin. rewrite Hsl. apply H3.
      apply (circleDrawn_onMap isCircleMarker) in Hin as [Hin _];
        [exact Hin | exact Hv | exact H1 | reflexivity].
    + intros id Hin. rewrite Hmk. apply H4.
      apply (circleDrawn_onMap isMarker) in Hin as [Hin _];
        [exact Hin | exact Hv | exact H1 | reflexivity].
    + intros id Hin. rewrite Hmk in Hin.
      apply (circleDrawn_onMap isMarker); [exact Hv | exact H1 | reflexivity|].
      split; [apply H5, Hin|]. intros Heq. exact (Hfree id Heq Hin).
    + unfold sorted_out, hasKind. rewrite Hsc, Hsl, Hobj. split.
      * intros c Heq. injection Heq as <-. rewrite lookup_insert_eq. reflexivity.
      * intros m Hm. rewrite lookup_insert_ne.
        -- apply (proj2 H6 m Hm).
        -- destruct H1 as (_ & _ & Hs & _). apply Hs in Hm. lia.
    + rewrite Hmk. exact H7.
Qed.

Lemma highlightSearchLocation_consistent (lat lon : number) (label : value) :
  maintains consistent (highlightSearchLocation lat lon label).
Proof.
  intros st Hc.
  assert (Hfree : forall m, searchLocationMarker (globals st) = Some m ->
                    ~ In m (markers (globals st))).
  { intros m Hsl Hin. destruct Hc as (_ & _ & _ & _ & H5 & H6 & _).
    apply H5, elem_of_onMap in Hin as [_ Hk].
    apply (kinds_apart isCircleMarker isMarker st m); [|apply (proj2 H6 m Hsl)|exact Hk].
    intros []; discriminate. }
  destruct (invalidLatLng lat lon) eqn:Hv.
  - rewrite (highlightSearchLocation_throws _ _ _ _ Hv). simpl.
    destruct (searchLocationMarker (globals st)) as [m|] eqn:Hsl; [|exact Hc].
    apply removeLayer_consistent; [apply Hfree; reflexivity | exact Hc].
  - rewrite (highlightSearchLocation_returns _ _ _ _ Hv). simpl.
    destruct Hc as (H1 & H2 & H3 & H4 & H5 & H6 & H7).
    destruct (highlightSearchLocation_keeps lat lon label st Hv H1 H2) as (H1' & H2' & _).
    destruct (highlightSearchLocation_shape lat lon label st Hv)
      as (Hsc & Hsl & Hid & Hobj & _ & Hmap & _).
    assert (Hnew := locationMarked_object lat lon label st Hv).
    assert (Hmk := highlightSearchLocation_list lat lon label st).
    cbv zeta in *.
    split; [exact H1'|]. split; [exact H2'|].
    split; [|split; [|split; [|split]]].
    + intros id Hin. rewrite Hsl. apply elem_of_onMap in Hin as [Hin Hk].
      apply Hmap in Hin as [->|[Hin Hne]]; [reflexivity|]. exfalso.
      apply Hne, H3, elem_of_onMap. split; [exact Hin|].
      unfold hasKind in *. rewrite Hobj in Hk; [exact Hk|].
      destruct H1 as (_ & Hm & _). apply Hm in Hin. lia.
    + intros id Hin. rewrite Hmk. apply H4.
      apply (locationMarked_onMap isMarker) in Hin as [Hin _];
        [exact Hin | exact Hv | exact H1 | reflexivity].
    + intros id Hin. rewrite Hmk in Hin.
      apply (locationMarked_onMap isMarker); [exact Hv | exact H1 | reflexivity|].
      split; [apply H5, Hin|]. intros Heq. exact (Hfree id Heq Hin).
    + unfold sorted_out, hasKind. rewrite Hsc, Hsl. split.
      * intros c Heq. rewrite Hobj.
        -- apply (proj1 H6 c Heq).
        -- destruct H1 as (_ & _ & _ & Hcb). apply Hcb in Heq. lia.
      * intros m Heq. injection Heq as <-. rewrite Hnew. reflexivity.
    + rewrite Hmk. exact H7.
Qed.

Lemma handleSearch_queried_consistent (task : SearchTask) (g : GeoResult)
    (response : outcome (list record)) (st : State) :
  consistent st -> consistent (handleSearch_queried task g response st).
Proof.
  apply (handleSearch_queried_maintains consistent).
  - apply clearMarkers_consistent.
  - apply plotMarkers_consistent.
  - intros f s. apply consistent_frame; reflexivity.
  - apply drawSearchCircle_consistent.
  - apply highlightSearchLocation_consistent.
  - intros e s. apply consistent_frame; reflexivity.
  - intros b s. apply consistent_frame; reflexivity.
Qed.

Lemma loaded_consistent : consistent loaded.
Proof.
  assert (Hnone : forall k, k (TileLayer "https://{s}.tile.openstreetmap.org/{z}/{x}/{y}.png") = false ->
                   forall id, id ∈ onMap k loaded -> False).
  { intros k Hk id H. apply elem_of_onMap in H as [H Hk'].
    simpl in H. apply elem_of_singleton in H as ->.
    unfold hasKind in Hk'. simpl in Hk'. rewrite lookup_singleton_eq in Hk'. congruence. }
  split; [|split; [|split; [|split; [|split; [|split]]]]].
  - repeat split; simpl.
    + intros id [o H]. apply lookup_singleton_Some in H as [<- _]. lia.
    + intros id H. apply elem_of_singleton in H as ->. lia.
    + discriminate.
    + discriminate.
  - intros id H. exfalso. exact (Hnone isCircle eq_refl id H).
  - intros id H. exfalso. exact (Hnone isCircleMarker eq_refl id H).
  - intros id H. exfalso. exact (Hnone isMarker eq_refl id H).
  - intros id H. contradiction.
  - split; discriminate.
  - constructor.
Qed.

Lemma stretch_consistent (st st' : State) :
  stretch st st' -> consistent st -> consistent st'.
Proof.
  intros Hstep Hc. destruct Hstep.
  - unfold handleSearch_begin.
    destruct (String.eqb _ ""); [revert Hc; apply consistent_frame; reflexivity|].
    destruct (negb _ || _); [revert Hc; apply consistent_frame; reflexivity|].
    destruct (isLoading _); [exact Hc|].
    revert Hc; apply consistent_frame; reflexivity.
  - destruct geocodeResult as [g|]; revert Hc; apply consistent_frame; reflexivity.
  - apply handleSearch_queried_consistent, Hc.
  - revert Hc; apply consistent_frame; reflexivity.
  - unfold loadAllPins_loaded. destruct response as [data|].
    + apply (consistent_frame (plotMarkers data st)); try reflexivity.
      apply plotMarkers_consistent, Hc.
    + revert Hc; apply consistent_frame; reflexivity.
  - unfold handleUpdateMap_begin. destruct (isLoading _); [exact Hc|].
    revert Hc; apply consistent_frame; reflexivity.
  - unfold handleUpdateMap_updated.
    destruct response; revert Hc; apply consistent_frame; reflexivity.
  - unfold card_step. destruct (sidebarContent (page st) !! i) as [[|c]|]; try exact Hc.
    destruct (listener c) as [c' calls].
    destruct (emit_all_frame calls
                (with_page (fun p =>
                   set_sidebarContent (<[i := ResultCard c']> (sidebarContent p)) p) st))
      as (Hg & Hl & _).
    revert Hc; apply consistent_frame; [rewrite Hl | rewrite Hg | rewrite Hg | rewrite Hg];
      reflexivity.
Qed.

End Consistency.

Section Controls.
Context {E : Engine}.

Lemma controlsFollow_frame (st st' : State) :
  isLoading (globals st') = isLoading (globals st) ->
  searchBtn_disabled (page st') = searchBtn_disabled (page st) ->
  loadingIndicator_hidden (page st') = loadingIndicator_hidden (page st) ->
  updateMapBtn (page st') = updateMapBtn (page st) ->
  controlsFollow st -> controlsFollow st'.
Proof. unfold controlsFollow. intros -> -> -> ->. tauto. Qed.

Lemma showLoading_follows (show : bool) (st : State) : controlsFollow (showLoading show st).
Proof.
  unfold controlsFollow. simpl. split; [reflexivity|]. split; [reflexivity|].
  destruct (updateMapBtn (page st)); [reflexivity | exact I].
Qed.

Lemma stretch_controls (st st' : State) :
  stretch st st' -> controlsFollow st -> controlsFollow st'.
Proof.
  intros Hstep Hc. destruct Hstep.
  - unfold handleSearch_begin.
    destruct (String.eqb _ ""); [revert Hc; apply controlsFollow_frame; reflexivity|].
    destruct (negb _ || _); [revert Hc; apply controlsFollow_frame; reflexivity|].
    destruct (isLoading _); [exact Hc|].
    apply (controlsFollow_frame (showLoading true st)); try reflexivity.
    apply showLoading_follows.
  - destruct geocodeResult as [g|]; simpl.
    + revert Hc; apply controlsFollow_frame; reflexivity.
    + apply showLoading_follows.
  - unfold handleSearch_queried. rewrite try_finally_snd. apply showLoading_follows.
  - apply (controlsFollow_frame (showLoading true st)); try reflexivity.
    apply showLoading_follows.
  - apply showLoading_follows.
  - unfold handleUpdateMap_begin. destruct (isLoading (globals st)) eqn:Hl; [exact Hc|].
    unfold controlsFollow. simpl. split; [reflexivity|]. split; [reflexivity|].
    destruct (updateMapBtn (page st)); [reflexivity | exact I].
  - unfold handleUpdateMap_updated, controlsFollow. simpl.
    split; [reflexivity|]. split; [reflexivity|].
    destruct response; simpl; destruct (updateMapBtn (page st)); simpl; auto.
  - unfold card_step. destruct (sidebarContent (page st) !! i) as [[|c]|]; try exact Hc.
    destruct (listener c) as [c' calls].
    destruct (emit_all_frame calls
                (with_page (fun p =>
                   set_sidebarContent (<[i := ResultCard c']> (sidebarContent p)) p) st))
      as (Hg & _ & Hp).
    revert Hc; apply controlsFollow_frame; rewrite ?Hg, ?Hp; reflexivity.
Qed.

(** X4.  On every page the script can reach, the search button and the Update
    Map button are disabled, and the loading indicator is shown, exactly
    while [isLoading] is set. *)
Theorem controls_follow_the_flag (st : State) :
  reachable st ->
  searchBtn_disabled (page st) = isLoading (globals st)
  /\ loadingIndicator_hidden (page st) = negb (isLoading (globals st))
  /\ (forall b, updateMapBtn (page st) = Some b -> disabled b = isLoading (globals st)).
Proof.
  intros Hr.
  assert (Hc : controlsFollow st).
  { induction Hr as [|st st' _ IH Hstep].
    - repeat split.
    - exact (stretch_controls st st' Hstep IH). }
  destruct Hc as (H1 & H2 & H3). split; [exact H1|]. split; [exact H2|].
  intros b Hb. rewrite Hb in H3. exact H3.
Qed.
End Controls.

Lemma validRadius_positive (radius : number) : validRadius radius = ltb (Fin 0) radius.
Proof.
  destruct (ltb (Fin 0) radius) eqn:H; [apply positive_is_valid, H|].
  destruct radius as [| | |q]; try reflexivity; try discriminate.
  unfold ltb in H. unfold validRadius, num_truthy, leb.
  destruct (Qeq_bool q 0) eqn:Hq; [reflexivity|]. simpl.
  destruct (Qcompare_spec 0%Q q) as [E|E|E]; try discriminate.
  - apply Qeq_bool_neq in Hq. exfalso. apply Hq. symmetry. exact E.
  - destruct (Qcompare_spec q 0%Q); [reflexivity | reflexivity | lra].
Qed.

Section Flow.
Context {E : Engine}.

(** ** How a search starts and ends *)


(** X6.  When the query request fails, the search ends with "Search failed":
    the map, the markers and the sidebar are those of before, while
    [lastSearchLocation] already is the new location. *)
Theorem failed_query_keeps_the_map (addressInput_value radiusInput_value : string)
    (geocoding : outcome (list value)) (st : State) (g : GeoResult) :
  trim addressInput_value <> "" ->
  ltb (Fin 0) (parseFloatStr radiusInput_value) = true ->
  isLoading (globals st) = false ->
  geocodeAddress geocoding = inr (Some g) ->
  let st' := handleSearch addressInput_value radiusInput_value geocoding Rejected st in
  message (page st') = Some (ErrorMessage, "Search failed. Please try again.")
  /\ leaflet st' = leaflet st
  /\ markers (globals st') = markers (globals st)
  /\ searchCircle (globals st') = searchCircle (globals st)
  /\ searchLocationMarker (globals st') = searchLocationMarker (globals st)
  /\ sidebarTitle (page st') = sidebarTitle (page st)
  /\ sidebarContent (page st') = sidebarContent (page st)
  /\ lastSearchLocation (globals st') = Some (lat g, lon g)
  /\ events st'
     = (events st
        ++ [HttpGet (geocodeUrl (trim addressInput_value));
            HttpPost (API_BASE_URL ++ "/query")
              (queryBody g (mul (parseFloatStr radiusInput_value) (Fin 1.60934)))])%list
  /\ controlsEnabled st'.
Proof.
  intros Ha Hr Hl Hg. cbv zeta. unfold handleSearch.
  rewrite (handleSearch_begin_valid _ _ _ Ha (positive_is_valid _ Hr) Hl), Hg.
  unfold handleSearch_geocoded. cbv beta iota. simpl task_radiusKm.
  unfold handleSearch_queried. rewrite try_finally_snd.
  split; [reflexivity|]. split; [reflexivity|]. split; [reflexivity|].
  split; [reflexivity|]. split; [reflexivity|]. split; [reflexivity|].
  split; [reflexivity|]. split; [reflexivity|].
  split; [simpl; rewrite <- app_assoc; reflexivity|].
  apply showLoading_false_enables.
Qed.

Lemma circleDrawn_page (lat lon radiusMiles : number) (st : State) :
  page (circleDrawn lat lon radiusMiles st) = page st.
Proof.
  unfold circleDrawn, drawSearchCircle.
  destruct (invalidLatLng lat lon); destruct (searchCircle (globals st)); reflexivity.
Qed.

Lemma locationMarked_page (lat lon : number) (label : value) (st : State) :
  page (locationMarked lat lon label st) = page st.
Proof.
  unfold locationMarked, highlightSearchLocation.
  destruct (invalidLatLng lat lon); destruct (searchLocationMarker (globals st));
    try reflexivity; destruct (truthy _); reflexivity.
Qed.


(** The card loop stops at the first result whose website is not a
    string: the cards before it are in the sidebar, the others are not. *)
Lemma forEach_appendCard_stops (l : list Processed) (st : State) :
  Exists (fun r => exists e, websiteField (website r) = inl e) l ->
  exists e st',
    forEach appendCard l st = (inl e, st')
    /\ globals st' = globals st /\ leaflet st' = leaflet st /\ events st' = events st
    /\ message (page st') = message (page st)
    /\ (length (cards st') < length (cards st) + length l)%nat.
Proof.
  revert st. induction l as [|r l IH]; intros st Hex; [inversion Hex|].
  simpl. unfold bind. unfold appendCard at 1.
  destruct (newCard r) as [e|c] eqn:Hc.
  - exists e, st. repeat split. simpl. lia.
  - assert (Hl : Exists (fun r => exists e, websiteField (website r) = inl e) l).
    { inversion Hex as [? ? [e He]|]; subst; [|assumption].
      unfold newCard in Hc. rewrite He in Hc. discriminate. }
    destruct (IH (with_page (fun p =>
                set_sidebarContent (sidebarContent p ++ [ResultCard c]) p) st) Hl)
      as (e & st' & Hrun & Hg & Hle & Hev & Hmsg & Hlen).
    exists e, st'. split; [exact Hrun|]. rewrite Hg, Hle, Hev, Hmsg.
    do 4 (split; [reflexivity|]).
    unfold cards in *. simpl in Hlen. rewrite omap_app, length_app in Hlen. simpl in *. lia.
Qed.

Lemma processResults_unrenderable (loc : option (number * number)) (results : list record) :
  Exists (fun raw => renderable raw = false) results ->
  Exists (fun r => exists e, websiteField (website r) = inl e) (processResults loc results).
Proof.
  intros Hex. apply List.Exists_exists in Hex as (raw & Hin & Hraw).
  assert (Hw : forall r, websiteField (website r) = websiteField (website (unranked r)))
    by reflexivity.
  apply list_elem_of_In, list_elem_of_lookup in Hin as [i Hi].
  set (bad := processResult loc i raw).
  assert (Hbad : exists e, websiteField (website bad) = inl e).
  { unfold bad. rewrite website_processResult. unfold renderable in Hraw.
    destruct (websiteField (website (processResult None 0 raw))); [eauto | discriminate]. }
  assert (Hin1 : In (unranked bad) (map unranked (imap (processResult loc) results))).
  { apply in_map, list_elem_of_In, elem_of_lookup_imap. exists i, raw. split; [reflexivity | exact Hi]. }
  unfold processResults.
  eapply Permutation_in in Hin1; [|symmetry; apply sortByDistance_unranked_perm].
  apply in_map_iff in Hin1 as (r & Hr & Hrin).
  apply List.Exists_exists. exists r. split; [exact Hrin|].
  rewrite Hw, Hr, <- Hw. exact Hbad.
Qed.


Lemma or_last_truthy (a b : value) : truthy b = true -> truthy (or_ a b) = true.
Proof. intros H. unfold or_. destruct (truthy a) eqn:Ha; assumption. Qed.

Lemma truthy_defined (v : value) :
  truthy v = true -> match v with VUndef => VStr "" | _ => v end = v.
Proof. destruct v; try reflexivity. discriminate. Qed.


(** ** Geocoding *)


(** ** The cards *)

(** X11.  Whatever the distances are, the ranks of the processed results are 1,
    2, ..., n in the order of the cards. *)
Theorem ranks_are_positions (loc : option (number * number)) (results : list record) :
  map index (processResults loc results) = seq 1 (length results).
Proof.
  unfold processResults, sortByDistance.
  destruct (_ && _).
  - unfold renumber. rewrite imap_set_index_index.
    rewrite (Permutation_length (sort_perm byDistance _)), length_imap. reflexivity.
  - rewrite (imap_shift0 (processResult loc)). apply imap_processResult_index.
Qed.

(** X12.  An item that wraps its record as [{json: record}] is read through the
    wrapper, by the map and by the sidebar alike, whatever else the wrapper
    holds. *)
Theorem wrapped_record_is_unwrapped (rec wrapper : record) :
  truthy (get (VObj rec) "json") = false ->
  let raw := <["json" := VObj rec]> wrapper in
  unwrap raw = VObj rec
  /\ (forall st, plotMarker raw st = plotMarker rec st)
  /\ (forall loc i, processResult loc i raw = processResult loc i rec)
  /\ (forall data st, plotMarkers (raw :: data) st = plotMarkers (rec :: data) st).
Proof.
  intros Hj. cbv zeta.
  assert (Hraw : unwrap (<["json" := VObj rec]> wrapper) = VObj rec).
  { unfold unwrap, get. rewrite lookup_insert_eq. reflexivity. }
  assert (Hrec : unwrap rec = VObj rec).
  { unfold unwrap, or_. rewrite Hj. reflexivity. }
  split; [exact Hraw|].
  assert (Hplot : forall st, plotMarker (<["json" := VObj rec]> wrapper) st = plotMarker rec st).
  { intros st. unfold plotMarker. rewrite Hraw, Hrec. reflexivity. }
  split; [exact Hplot|].
  split; [intros loc i; unfold processResult; rewrite Hraw, Hrec; reflexivity|].
  intros data st. unfold plotMarkers. simpl foldl. rewrite Hplot. reflexivity.
Qed.
End Flow.

Section Forms.
Context {E : Engine}.

(** ** The feedback form, from click to answer *)

(** X13.  A review the webhook accepts: one request carries the serial, the
    rating and the trimmed text; after the pause the card shows that rating
    and text ("No feedback yet" for an empty text), the form is closed and
    empty again, and its controls are usable. *)
Theorem accepted_review_updates_the_card (c : Card) (answer : value) :
  selectedRating c <> 0%nat ->
  let feedbackText := trim (textarea_value c) in
  let c1 := fst (fst (submitBtn_click c)) in
  let c2 := fst (submitBtn_posted (Resolved answer) c1) in
  let c3 := fst (submitBtn_finished feedbackText c2) in
  submitBtn_click c
  = (c1, [HttpPost API_REVIEW_URL
            (VObj (<["serial" := VStr (ToString (serial (card_result c)))]>
                  (<["review" := VNum (of_nat (selectedRating c))]>
                  (<["feedback" := VStr feedbackText]> ∅))))],
     Some feedbackText)
  /\ (disabled (submitBtn c1) = true /\ textarea_disabled c1 = true
      /\ stars_pointerEvents c1 = "none")
  /\ snd (submitBtn_posted (Resolved answer) c1) = [SetTimeout 500 "resolve"]
  /\ snd (submitBtn_finished feedbackText c2) = [Alert "Feedback submitted!"]
  /\ ratingDisplay c3 = Number_toString (of_nat (selectedRating c)) ++ " ⭐"
  /\ feedbackDisplay c3
     = (if String.eqb feedbackText "" then "No feedback yet" else feedbackText)
  /\ feedbackForm_display c3 = "none" /\ writeFeedbackBtn_display c3 = "block"
  /\ selectedRating c3 = 0%nat
  /\ stars_selected c3 = [false; false; false; false; false]
  /\ textarea_value c3 = ""
  /\ submitBtn c3 = {| disabled := false; textContent := "💾 Submit" |}
  /\ textarea_disabled c3 = false /\ stars_pointerEvents c3 = "auto"
  /\ submitBtn_background c3 = ""
  /\ card_result c3 = card_result c /\ card_fields c3 = card_fields c.
Proof.
  intros Hr. cbv zeta. unfold submitBtn_click.
  destruct (Nat.eqb_spec (selectedRating c) 0) as [H0|_]; [contradiction|].
  simpl. repeat split.
Qed.

(** X14.  A review the webhook turns down: the alert says so, the controls come
    back, and the draft is kept, so that a second click on the submit
    button sends the same request again. *)
Theorem failed_review_can_be_sent_again (c : Card) :
  selectedRating c <> 0%nat ->
  let c1 := fst (fst (submitBtn_click c)) in
  let c2 := fst (submitBtn_posted Rejected c1) in
  snd (submitBtn_posted Rejected c1) = [Alert "Failed to submit feedback. Please try again."]
  /\ selectedRating c2 = selectedRating c
  /\ stars_selected c2 = stars_selected c
  /\ textarea_value c2 = textarea_value c
  /\ feedbackForm_display c2 = feedbackForm_display c
  /\ ratingDisplay c2 = ratingDisplay c /\ feedbackDisplay c2 = feedbackDisplay c
  /\ submitBtn c2 = {| disabled := false; textContent := "💾 Submit" |}
  /\ textarea_disabled c2 = false /\ stars_pointerEvents c2 = "auto"
  /\ snd (fst (submitBtn_click c2)) = snd (fst (submitBtn_click c))
  /\ snd (submitBtn_click c2) = snd (submitBtn_click c).
Proof.
  intros Hr. cbv zeta. unfold submitBtn_click.
  destruct (Nat.eqb_spec (selectedRating c) 0) as [H0|_]; [contradiction|].
  simpl.
  destruct (Nat.eqb_spec (selectedRating c) 0) as [H0|_]; [contradiction|].
  repeat split.
Qed.

(** X15.  The "Write Feedback" button swaps itself with the form: after a click
    exactly one of the two is displayed, the form opens on an empty draft
    with no star lit, and closing it keeps what was typed. *)
Theorem write_feedback_swaps_form_and_button (c : Card) :
  let c1 := writeFeedbackBtn_click c in
  (feedbackForm_display c = "none" ->
   feedbackForm_display c1 = "block" /\ writeFeedbackBtn_display c1 = "none"
   /\ selectedRating c1 = 0%nat
   /\ stars_selected c1 = [false; false; false; false; false]
   /\ textarea_value c1 = "")
  /\ (feedbackForm_display c <> "none" ->
      feedbackForm_display c1 = "none" /\ writeFeedbackBtn_display c1 = "block"
      /\ selectedRating c1 = selectedRating c
      /\ stars_selected c1 = stars_selected c
      /\ textarea_value c1 = textarea_value c)
  /\ (feedbackForm_display c1 = "none" <-> writeFeedbackBtn_display c1 = "block")
  /\ feedbackForm_display (writeFeedbackBtn_click c1)
     = (if String.eqb (feedbackForm_display c) "none" then "none" else "block")
  /\ card_result c1 = card_result c /\ submitBtn c1 = submitBtn c.
Proof.
  cbv zeta. unfold writeFeedbackBtn_click.
  destruct (String.eqb_spec (feedbackForm_display c) "none") as [Hn|Hn]; simpl.
  - split; [intros _; repeat split|]. split; [intros H; contradiction|].
    split; [split; discriminate|]. repeat split.
  - split; [intros H; contradiction|]. split; [intros _; repeat split|].
    split; [split; reflexivity|]. repeat split.
Qed.
End Forms.

Section Updating.
Context {E : Engine}.

(** ** [handleUpdateMap] and [loadAllPins] *)

(** X16.  A click on "Update Map" while something is loading does nothing.
    Otherwise the update webhook is called once; when it has answered the
    controls are usable and the button reads "Update Map" again, the map and
    the markers are untouched, and a reload is scheduled, one second later,
    only if the call went through. *)
Theorem update_map_round (response : outcome value) (st : State) :
  let begun := handleUpdateMap_begin st in
  let st' := handleUpdateMap_updated response (fst begun) in
  (isLoading (globals st) = true -> begun = (st, false))
  /\ (isLoading (globals st) = false ->
      snd begun = true
      /\ events (fst begun) = (events st ++ [HttpPost API_UPDATE_URL VUndef])%list
      /\ isLoading (globals (fst begun)) = true
      /\ (forall b, updateMapBtn (page st) = Some b ->
            updateMapBtn (page (fst begun))
            = Some {| disabled := true; textContent := "Updating..." |}
            /\ updateMapBtn (page st')
               = Some {| disabled := false; textContent := "Update Map" |})
      /\ controlsEnabled st'
      /\ leaflet st' = leaflet st
      /\ markers (globals st') = markers (globals st)
      /\ sidebarContent (page st') = sidebarContent (page st)
      /\ match response with
         | Resolved _ =>
             message (page st') = Some (SuccessMessage, "Map update triggered successfully!")
             /\ events st'
                = (events st ++ [HttpPost API_UPDATE_URL VUndef;
                                 SetTimeout 1000 "loadAllPins"])%list
         | Rejected =>
             message (page st')
             = Some (ErrorMessage, "Failed to trigger map update. Please try again.")
             /\ events st' = (events st ++ [HttpPost API_UPDATE_URL VUndef])%list
         end).
Proof.
  cbv zeta. unfold handleUpdateMap_begin.
  destruct (isLoading (globals st)) eqn:Hl.
  - split; [reflexivity | discriminate].
  - split; [discriminate|]. intros _.
    split; [reflexivity|]. split; [reflexivity|]. split; [reflexivity|].
    split.
    { intros b Hb. unfold handleUpdateMap_updated. destruct response; simpl; rewrite Hb;
        split; reflexivity. }
    split.
    { unfold handleUpdateMap_updated, controlsEnabled. destruct response; simpl;
        destruct (updateMapBtn (page st)); repeat split. }
    unfold handleUpdateMap_updated.
    destruct response; simpl; repeat split; rewrite <- app_assoc; reflexivity.
Qed.

(** X17.  A reload only adds: the markers held before stay in [markers], in
    front of the new ones, and every layer on the map stays on it; the
    controls are usable afterwards.  When the request fails nothing on the
    map changes and the failure is reported. *)
Theorem reload_only_adds (response : outcome (list record)) (st : State) :
  let st' := loadAllPins response st in
  markers (globals st) `prefix_of` markers (globals st')
  /\ mapLayers (leaflet st) ⊆ mapLayers (leaflet st')
  /\ searchCircle (globals st') = searchCircle (globals st)
  /\ searchLocationMarker (globals st') = searchLocationMarker (globals st)
  /\ sidebarContent (page st') = sidebarContent (page st)
  /\ controlsEnabled st'
  /\ (response = Rejected ->
      leaflet st' = leaflet st
      /\ markers (globals st') = markers (globals st)
      /\ message (page st')
         = Some (ErrorMessage,
                 "Failed to load locations. Please check your connection and try again.")
      /\ events st' = (events st ++ [HttpGet (API_BASE_URL ++ "/data")])%list).
Proof.
  cbv zeta. destruct (loadAllPins_keeps_markers response st) as [Hm Hl].
  split; [exact Hm|]. split; [exact Hl|].
  unfold loadAllPins, loadAllPins_loaded, loadAllPins_begin.
  set (st1 := emit _ (showLoading true st)).
  split; [|split; [|split; [|split; [apply showLoading_false_enables|]]]].
  - destruct response as [data|]; [|reflexivity]. simpl.
    destruct (plotMarkers_loop data st1) as (Hg & _).
    destruct (plot_all data st1) as (_ & Hsc & _). cbv zeta in Hsc.
    rewrite Hg, Hsc. reflexivity.
  - destruct response as [data|]; [|reflexivity]. simpl.
    destruct (plotMarkers_loop data st1) as (Hg & _).
    destruct (plot_all data st1) as (_ & _ & Hsl & _). cbv zeta in Hsl.
    rewrite Hg, Hsl. reflexivity.
  - destruct response as [data|]; [|reflexivity]. simpl.
    destruct (plotMarkers_loop data st1) as (_ & _ & Hp).
    destruct (plot_all data st1) as (_ & _ & _ & _ & _ & _ & _ & _ & _ & _ & Hpage).
    cbv zeta in Hpage. rewrite Hp, Hpage. reflexivity.
  - intros ->. repeat split.
Qed.
End Updating.

(** ** The sidebar toggle and the width of the map *)

Lemma class_added_removed (name : string) (cl : gset string) :
  name ∉ cl -> ({[name]} ∪ cl) ∖ {[name]} = cl.
Proof.
  intros H. apply leibniz_equiv. intros x.
  rewrite elem_of_difference, elem_of_union, !elem_of_singleton.
  split; [intros [[->|Hx] Hne]; [contradiction | exact Hx]|].
  intros Hx. split; [right; exact Hx|]. intros ->. contradiction.
Qed.

Lemma class_removed_added (name : string) (cl : gset string) :
  name ∈ cl -> {[name]} ∪ cl ∖ {[name]} = cl.
Proof.
  intros H. apply leibniz_equiv. intros x.
  rewrite elem_of_union, elem_of_difference, !elem_of_singleton.
  split; [intros [->|[Hx _]]; assumption|].
  intros Hx. destruct (decide (x = name)) as [->|Hne]; [left; reflexivity | right; tauto].
Qed.

(** X18.  With the sidebar, the button and the map element in the document, two
    clicks on the toggle undo one another on the sidebar: its classes and
    its style are as before.  After each click the button says what the
    next click will do, and after the second the map is wide unless the
    window is wide and the sidebar expanded. *)
Theorem toggleSidebar_twice (innerWidth : Z) (l : Layout)
    (s : SidebarElement) (b : ToggleButton) (w : string) :
  sidebar l = Some s -> toggleSidebarBtn l = Some b -> mapElement_width l = Some w ->
  exists l1 l2,
    toggleSidebar innerWidth l = (inr tt, l1)
    /\ toggleSidebar innerWidth l1 = (inr tt, l2)
    /\ has_class "minimized" l1 = negb (has_class "minimized" l)
    /\ sidebar l2 = sidebar l
    /\ toggleAgrees l1 /\ toggleAgrees l2
    /\ mapElement_width l2
       = Some (if (768 <? innerWidth)%Z && negb (has_class "minimized" l)
               then "calc(100vw - 32%)" else "100vw")
    /\ timers l2
       = (timers l ++ [SetTimeout 300 "invalidateSize"; SetTimeout 300 "invalidateSize"])%list.
Proof.
  destruct l as [sb tb mw tm]. simpl. intros -> -> ->.
  destruct s as [cl tr].
  unfold toggleSidebar, has_class, toggleAgrees. simpl.
  destruct (bool_decide (("minimized" : string) ∈ cl)) eqn:Hmin.
  - apply bool_decide_eq_true in Hmin.
    assert (Hout : bool_decide (("minimized" : string) ∈ cl ∖ {["minimized"]}) = false).
    { apply bool_decide_eq_false. rewrite elem_of_difference, elem_of_singleton. tauto. }
    assert (Hin : bool_decide (("minimized" : string) ∈ cl) = true)
      by (apply bool_decide_eq_true; exact Hmin).
    destruct (768 <? innerWidth)%Z; simpl;
      (eexists; eexists; split; [reflexivity|]);
      unfold invalidateSize_later, set_width, set_toggle, set_classList; simpl;
      rewrite Hout; simpl; (split; [reflexivity|]);
      unfold has_class, toggleAgrees; simpl;
      rewrite ?(class_removed_added _ _ Hmin), ?Hin, ?Hout;
      repeat split; rewrite <- ?app_assoc; reflexivity.
  - apply bool_decide_eq_false in Hmin.
    assert (Hin : bool_decide (("minimized" : string) ∈ {["minimized"]} ∪ cl) = true).
    { apply bool_decide_eq_true. rewrite elem_of_union, elem_of_singleton. tauto. }
    assert (Hout : bool_decide (("minimized" : string) ∈ cl) = false)
      by (apply bool_decide_eq_false; exact Hmin).
    simpl.
    destruct (768 <? innerWidth)%Z eqn:Hw;
      (eexists; eexists; split; [reflexivity|]);
      unfold invalidateSize_later, set_width, set_toggle, set_classList; simpl;
      rewrite Hin, ?Hw; simpl; (split; [reflexivity|]);
      unfold has_class, toggleAgrees; simpl;
      rewrite ?(class_added_removed _ _ Hmin), ?Hout, ?Hin;
      repeat split; rewrite <- ?app_assoc; reflexivity.
Qed.

Lemma has_class_open_removed (name : string) (cl : gset string) :
  name <> "open" ->
  bool_decide (name ∈ cl ∖ {["open"]}) = bool_decide (name ∈ cl).
Proof.
  intros Hne. apply bool_decide_ext.
  rewrite elem_of_difference, elem_of_singleton. tauto.
Qed.

(** X19.  [adjustMapWidth] gives the map the width that goes with the window and
    the sidebar: wide unless the window is wider than 768 pixels and the
    sidebar neither hidden nor minimized.  It leaves those two classes and
    the toggle button alone, a second call changes nothing but the timers,
    and without a sidebar or a map element it does nothing at all. *)
Theorem adjustMapWidth_fits_the_map (innerWidth : Z) (l : Layout) :
  let l1 := adjustMapWidth innerWidth l in
  (forall s w, sidebar l = Some s -> mapElement_width l = Some w ->
     mapElement_width l1 = Some (fittedWidth innerWidth l)
     /\ timers l1 = (timers l ++ [SetTimeout 100 "invalidateSize"])%list)
  /\ fittedWidth innerWidth l1 = fittedWidth innerWidth l
  /\ has_class "hidden" l1 = has_class "hidden" l
  /\ has_class "minimized" l1 = has_class "minimized" l
  /\ toggleSidebarBtn l1 = toggleSidebarBtn l
  /\ sidebar (adjustMapWidth innerWidth l1) = sidebar l1
  /\ mapElement_width (adjustMapWidth innerWidth l1) = mapElement_width l1
  /\ (sidebar l = None \/ mapElement_width l = None -> l1 = l).
Proof.
  cbv zeta. destruct l as [[[cl tr]|] tb [w|] tm];
    unfold adjustMapWidth, fittedWidth, has_class; simpl;
    try (repeat split; try discriminate; intros [H|H]; (discriminate || reflexivity)).
  destruct (768 <? innerWidth)%Z eqn:Hw; simpl; rewrite ?Hw; simpl.
  - destruct (bool_decide (("hidden" : string) ∈ cl)) eqn:Hh; simpl; rewrite ?Hw, ?Hh; simpl.
    + repeat split; try (intros s0 w0 _ _; split; reflexivity).
      intros [H|H]; discriminate.
    + destruct (bool_decide (("minimized" : string) ∈ cl)) eqn:Hm; simpl;
        rewrite ?Hw, ?Hh, ?Hm; simpl.
      * repeat split; try (intros s0 w0 _ _; split; reflexivity).
        intros [H|H]; discriminate.
      * rewrite !has_class_open_removed, Hh, Hm by discriminate. simpl.
        rewrite ?Hw. simpl.
        assert (Hoo : (cl ∖ {["open"]}) ∖ {["open"]} = cl ∖ {["open"]}).
        { apply leibniz_equiv. intros x.
          rewrite !elem_of_difference, elem_of_singleton. tauto. }
        rewrite Hoo.
        repeat split; try (intros s0 w0 _ _; split; reflexivity).
        intros [H|H]; discriminate.
  - repeat split; try (intros s0 w0 _ _; split; reflexivity).
    intros [H|H]; discriminate.
Qed.

(** X20.  As long as the sidebar is not hidden, a click on the toggle leaves the
    map at the width [adjustMapWidth] would give it: a map that was fitted
    before the click is fitted after it. *)
Theorem toggleSidebar_keeps_the_map_fitted (innerWidth : Z) (l l1 : Layout) :
  has_class "hidden" l = false ->
  mapElement_width l = Some (fittedWidth innerWidth l) ->
  toggleSidebar innerWidth l = (inr tt, l1) ->
  mapElement_width l1 = Some (fittedWidth innerWidth l1)
  /\ mapElement_width (adjustMapWidth innerWidth l1) = mapElement_width l1
  /\ has_class "hidden" l1 = false.
Proof.
  destruct l as [[[cl tr]|] [b|] [w|] tm];
    unfold toggleSidebar, fittedWidth, has_class; simpl;
    try (intros Hh Hf Ht; discriminate Hf);
    try (intros Hh Hf Ht; injection Ht as <-; simpl; rewrite ?Hh;
         unfold adjustMapWidth, has_class, fittedWidth; simpl; rewrite ?Hh;
         repeat split; try assumption; try reflexivity; fail).
  - intros Hh Hf.
    assert (Hkeep1 : bool_decide (("hidden" : string) ∈ cl ∖ {["minimized"]}) = false).
    { apply bool_decide_eq_false. apply bool_decide_eq_false in Hh.
      rewrite elem_of_difference. tauto. }
    assert (Hkeep2 : bool_decide (("hidden" : string) ∈ {["minimized"]} ∪ cl) = false).
    { apply bool_decide_eq_false. apply bool_decide_eq_false in Hh.
      rewrite elem_of_union, elem_of_singleton. intros [H|H]; [discriminate | tauto]. }
    assert (Hout : bool_decide (("minimized" : string) ∈ cl ∖ {["minimized"]}) = false).
    { apply bool_decide_eq_false. rewrite elem_of_difference, elem_of_singleton. tauto. }
    assert (Hin : bool_decide (("minimized" : string) ∈ {["minimized"]} ∪ cl) = true).
    { apply bool_decide_eq_true. rewrite elem_of_union, elem_of_singleton. tauto. }
    destruct (bool_decide (("minimized" : string) ∈ cl)) eqn:Hm.
    + destruct (768 <? innerWidth)%Z eqn:Hw; simpl; intros Ht; injection Ht as <-;
        unfold adjustMapWidth, has_class, fittedWidth; simpl;
        rewrite ?Hw, ?Hkeep1, ?Hout; simpl; rewrite ?Hw, ?Hkeep1, ?Hout; simpl.
      * repeat split.
      * rewrite ?Hw, ?Hh in Hf. simpl in Hf. injection Hf as ->. repeat split.
    + simpl; intros Ht; injection Ht as <-;
        unfold adjustMapWidth, has_class, fittedWidth; simpl;
        rewrite ?Hkeep2, ?Hin; simpl.
      destruct (768 <? innerWidth)%Z; simpl; rewrite ?Hkeep2, ?Hin; repeat split.
  - intros Hh Hf Ht. injection Ht as <-. simpl. split; [exact Hf|]. split; [|exact Hh].
    unfold adjustMapWidth, has_class. simpl. rewrite Hf, Hh.
    destruct (768 <? innerWidth)%Z, (bool_decide (("minimized" : string) ∈ cl)); reflexivity.
Qed.

(** X21.  [updateSidebar] always leaves the sidebar shown and expanded, with a
    button that offers to minimize it and the map fitted to it; on a
    window of at most 768 pixels the sidebar is opened over the map. *)
Theorem updateSidebar_shows_the_sidebar (innerWidth : Z) (l : Layout)
    (s : SidebarElement) (b : ToggleButton) (w : string) :
  sidebar l = Some s -> toggleSidebarBtn l = Some b -> mapElement_width l = Some w ->
  exists l',
    updateSidebar_reveal innerWidth (updateSidebar_expand l) = (inr tt, l')
    /\ has_class "hidden" l' = false /\ has_class "minimized" l' = false
    /\ toggleSidebarBtn l'
       = Some {| toggle_textContent := "−"; toggle_title := "Minimize sidebar" |}
    /\ mapElement_width l' = Some (fittedWidth innerWidth l')
    /\ has_class "open" l' = (innerWidth <=? 768)%Z
    /\ (forall name, name <> "hidden" -> name <> "minimized" -> name <> "open" ->
          has_class name l' = has_class name l).
Proof.
  destruct l as [sb tb mw tm]. simpl. intros -> -> ->. destruct s as [cl tr].
  assert (Hh : forall X : gset string,
            bool_decide (("hidden" : string) ∈ (X ∖ {["hidden"]}) ∖ {["minimized"]}) = false).
  { intros X. apply bool_decide_eq_false.
    rewrite !elem_of_difference, !elem_of_singleton. tauto. }
  assert (Hm : forall X : gset string,
            bool_decide (("minimized" : string) ∈ (X ∖ {["hidden"]}) ∖ {["minimized"]}) = false).
  { intros X. apply bool_decide_eq_false.
    rewrite !elem_of_difference, !elem_of_singleton. tauto. }
  unfold updateSidebar_reveal, updateSidebar_expand. simpl.
  destruct (innerWidth <=? 768)%Z eqn:Hle.
  - assert (Hw : (768 <? innerWidth)%Z = false) by lia.
    unfold adjustMapWidth, has_class. simpl. rewrite Hw. simpl.
    eexists. split; [reflexivity|].
    unfold fittedWidth, has_class. simpl. rewrite Hw. simpl.
    split; [|split; [|split; [reflexivity|split; [reflexivity|split]]]].
    + apply bool_decide_eq_false.
      rewrite elem_of_union, !elem_of_difference, !elem_of_singleton.
      intros [H|H]; [discriminate | tauto].
    + apply bool_decide_eq_false.
      rewrite elem_of_union, !elem_of_difference, !elem_of_singleton.
      intros [H|H]; [discriminate | tauto].
    + apply bool_decide_eq_true. rewrite elem_of_union, elem_of_singleton. tauto.
    + intros name H1 H2 H3. apply bool_decide_ext.
      rewrite elem_of_union, !elem_of_difference, !elem_of_singleton. tauto.
  - assert (Hw : (768 <? innerWidth)%Z = true) by lia.
    unfold adjustMapWidth, has_class. simpl. rewrite Hw, Hh, Hm. simpl.
    eexists. split; [reflexivity|].
    unfold fittedWidth, has_class. simpl. rewrite Hw.
    rewrite !has_class_open_removed, Hh, Hm by discriminate. simpl.
    split; [reflexivity|]. split; [reflexivity|]. split; [reflexivity|].
    split; [reflexivity|]. split.
    + apply bool_decide_eq_false. rewrite !elem_of_difference, !elem_of_singleton. tauto.
    + intros name H1 H2 H3. apply bool_decide_ext.
      rewrite !elem_of_difference, !elem_of_singleton. tauto.
Qed.

(** ** Distances *)

Lemma fin_zero (q : Q) : (q == 0)%Q -> fin q = Fin 0.
Proof. intros H. unfold fin. rewrite (Qred_complete q 0 H). reflexivity. Qed.

Lemma fin_one (q : Q) : (q == 1)%Q -> fin q = Fin 1.
Proof. intros H. unfold fin. rewrite (Qred_complete q 1 H). reflexivity. Qed.

Section Distance.
Context {E : Engine}.

(** X22.  In an engine whose [Math.PI] is a finite number, whose cosine of a
    finite number is finite and which gives the exact values at 0 and 1
    that the language prescribes, a place at the search location itself is
    at distance 0, and that is what its card shows. *)
Theorem distance_to_the_same_point_is_zero (pi lat lng : Q) :
  Math_PI = Fin pi ->
  Math_sin (Fin 0) = Fin 0 ->
  (forall x, isFinite (Math_cos (Fin x)) = true) ->
  Math_sqrt (Fin 0) = Fin 0 ->
  Math_sqrt (Fin 1) = Fin 1 ->
  Math_atan2 (Fin 0) (Fin 1) = Fin 0 ->
  calculateDistance (Fin lat) (Fin lng) (Fin lat) (Fin lng) = Fin 0
  /\ toFixed1 (calculateDistance (Fin lat) (Fin lng) (Fin lat) (Fin lng)) = Fin 0.
Proof.
  intros Hpi Hsin Hcos Hs0 Hs1 Hat.
  assert (Hsub : forall x, sub (Fin x) (Fin x) = Fin 0).
  { intros x. unfold sub, neg, add. apply fin_zero. unfold fin. rewrite Qred_correct. ring. }
  assert (Hrad0 : toRadians (Fin 0) = Fin 0).
  { unfold toRadians. rewrite Hpi. unfold mul. rewrite (fin_zero (0 * pi)) by ring.
    unfold div, of_Z. simpl Qcompare. apply fin_zero. reflexivity. }
  assert (Hhalf : div (Fin 0) (of_Z 2) = Fin 0).
  { unfold div, of_Z. simpl Qcompare. apply fin_zero. reflexivity. }
  assert (Hd : calculateDistance (Fin lat) (Fin lng) (Fin lat) (Fin lng) = Fin 0).
  { unfold calculateDistance. cbv zeta.
    rewrite !Hsub, Hrad0, Hhalf, Hsin.
    assert (Hfin : forall x, exists r, toRadians (Fin x) = Fin r).
    { intros x. unfold toRadians. rewrite Hpi. unfold mul, fin, div, of_Z.
      simpl Qcompare. eexists. reflexivity. }
    destruct (Hfin lat) as [r1 ->].
    specialize (Hcos r1). destruct (Math_cos (Fin r1)) as [| | |c1]; try discriminate.
    assert (Ha : add (mul (Fin 0) (Fin 0))
                     (mul (mul (mul (Fin c1) (Fin c1)) (Fin 0)) (Fin 0)) = Fin 0).
    { assert (Hz : forall x, mul (Fin x) (Fin 0) = Fin 0)
        by (intros x; unfold mul; apply fin_zero; ring).
      change (mul (Fin c1) (Fin c1)) with (Fin (Qred (c1 * c1))).
      rewrite !Hz. unfold add. apply fin_zero. ring. }
    rewrite Ha, Hs0.
    assert (H1 : sub (of_Z 1) (Fin 0) = Fin 1).
    { unfold sub, neg, add, of_Z. apply fin_one. unfold fin. rewrite Qred_correct.
      unfold inject_Z. ring. }
    rewrite H1, Hs1, Hat.
    unfold mul, of_Z. rewrite (fin_zero (inject_Z 2 * 0)) by ring.
    apply fin_zero. ring. }
  split; [exact Hd|]. rewrite Hd. reflexivity.
Qed.
End Distance.

(** ** The fields of a card *)

Lemma startsWith_itself (t s : string) : startsWith (t ++ s) t = true.
Proof.
  unfold startsWith. induction t as [|c t IH]; simpl.
  - destruct s; reflexivity.
  - destruct (ascii_dec c c) as [_|Hne]; [exact IH | contradiction].
Qed.

(** X23.  The website link of a card is absolute: the address as given when it
    starts with "http://" or "https://", and "https://" put in front of it
    otherwise.  A website that is missing, empty or otherwise falsy gives no
    field, and one that is set but is no string makes the card loop
    throw. *)
Theorem website_links_are_absolute (v : value) :
  (truthy v = false -> websiteField v = inr [])
  /\ (forall s, v = VStr s -> s <> "" ->
        exists websiteUrl,
          websiteField v
          = inr [{| label := "Website:"; text := v; href := Some websiteUrl |}]
          /\ (startsWith websiteUrl "http://" || startsWith websiteUrl "https://") = true
          /\ (websiteUrl = s \/ websiteUrl = "https://" ++ s)
          /\ (startsWith s "http://" || startsWith s "https://" = true -> websiteUrl = s))
  /\ ((exists e, websiteField v = inl e)
      <-> truthy v = true /\ forall s, v <> VStr s).
Proof.
  split; [|split].
  - intros H. unfold websiteField. rewrite H. reflexivity.
  - intros s -> Hs. unfold websiteField. simpl truthy.
    destruct (String.eqb_spec s "") as [->|_]; [contradiction|]. simpl negb.
    destruct (startsWith s "http://") eqn:H1; simpl.
    + exists s. rewrite H1. repeat split; auto.
    + destruct (startsWith s "https://") eqn:H2; simpl.
      * exists s. rewrite H1, H2. repeat split; auto.
      * exists ("https://" ++ s). split; [reflexivity|].
        split; [rewrite (startsWith_itself "https://" s); apply orb_true_r|].
        split; [right; reflexivity | discriminate].
  - unfold websiteField. destruct (truthy v) eqn:Ht.
    + destruct v; try discriminate;
        try (split; [intros _; split; [reflexivity | intros s0; discriminate]
                    | intros _; eexists; reflexivity]).
      split; [intros [e He]; discriminate | intros [_ H]; exfalso; exact (H s eq_refl)].
    + split; [intros [e He]; discriminate | intros [H _]; discriminate].
Qed.

Section Earlier.
Context {E : Engine}.

(** ** The earlier copy of the script *)

Lemma legacy_circle_shape (lat lon radiusKm : number) (st : State) :
  invalidLatLng lat lon = false ->
  let st' := snd (Legacy.drawSearchCircle lat lon radiusKm st) in
  let c := S (lastId (leaflet st)) in
  fst (Legacy.drawSearchCircle lat lon radiusKm st) = inr tt
  /\ globals st' = set_searchCircle (Some c) (globals st)
  /\ lastId (leaflet st') = c
  /\ objects (leaflet st') = <[c := Circle lat lon (mul radiusKm (Fin 1000))]>
                               (objects (leaflet st))
  /\ (forall id, id ∈ mapLayers (leaflet st') <->
        id = c \/ (id ∈ mapLayers (leaflet st) /\ searchCircle (globals st) <> Some id))
  /\ page st' = page st
  /\ events st' = events st.
Proof.
  intros Hv. cbv zeta. unfold Legacy.drawSearchCircle. rewrite Hv.
  destruct (searchCircle (globals st)) as [old|] eqn:Hold; simpl;
    repeat (split; [reflexivity|]); (split; [|split; reflexivity]); intros id.
  - rewrite elem_of_union, elem_of_singleton, elem_of_difference, elem_of_singleton.
    split; (intros [?|[? ?]]; [left; assumption | right; split; [assumption|congruence]]).
  - rewrite elem_of_union, elem_of_singleton.
    split; [intros [?|?]; [left; assumption | right; split; [assumption|congruence]]
           | intros [?|[? _]]; [left|right]; assumption].
Qed.

Lemma legacy_circle_only (lat lon radiusKm : number) (st : State) :
  invalidLatLng lat lon = false ->
  stamped st -> oneCircle st ->
  onMap isCircle (snd (Legacy.drawSearchCircle lat lon radiusKm st))
  = {[S (lastId (leaflet st))]}.
Proof.
  intros Hv (Ho & Hm & Hs & _) Hc.
  destruct (legacy_circle_shape lat lon radiusKm st Hv)
    as (_ & _ & _ & Hobj & Hmap & _). cbv zeta in *.
  apply leibniz_equiv. intros id.
  rewrite elem_of_singleton, elem_of_onMap, Hmap. unfold hasKind. rewrite Hobj. split.
  - intros [[->|[Hin Hne]] Hk]; [reflexivity|]. exfalso.
    assert (id <= lastId (leaflet st))%nat by (apply Hm, Hin).
    rewrite lookup_insert_ne in Hk by lia.
    apply Hne, Hc, elem_of_onMap. split; assumption.
  - intros ->. split; [left; reflexivity|]. rewrite lookup_insert_eq. reflexivity.
Qed.

(** What every step of the earlier search keeps, the search keeps. *)
Lemma legacy_search_maintains (I : State -> Prop) (task : SearchTask)
    (g : GeoResult) (response : outcome (list record)) :
  (forall s, I s -> I (clearMarkers s)) ->
  (forall data s, I s -> I (plotMarkers data s)) ->
  (forall text s, I s -> I (showError text s)) ->
  (forall a b r, maintains I (Legacy.drawSearchCircle a b r)) ->
  (forall e s, I s -> I (emit e s)) ->
  (forall b s, I s -> I (Legacy.showLoading b s)) ->
  forall st, I st -> I (Legacy.handleSearch_queried task g response st).
Proof.
  intros Hclear Hplot Herr Hdraw Hemit Hload st H.
  unfold Legacy.handleSearch_queried. rewrite try_finally_snd.
  apply Hload.
  revert st H. apply (maintains_try_catch I).
  - destruct response as [data|]; [|apply maintains_throw].
    unfold Legacy.showResults.
    apply maintains_bind; [apply maintains_run, Hclear|]. intros _.
    apply maintains_bind; [apply maintains_run, Hplot|]. intros _.
    apply maintains_bind; [apply Hdraw|]. intros _.
    apply maintains_bind; [apply setView_maintains, Hemit|]. intros _.
    apply maintains_run. intros s Hs. destruct data; [apply Herr|]; exact Hs.
  - intros s Hs. apply Herr, Hs.
Qed.

End Earlier.

Section Units.
Context {E : Engine}.

End Units.

Section Markers.
Context {E : Engine}.

(** ** What [plotMarkers] and [clearMarkers] report and leave *)

Lemma plot_all_events (data : list record) (st : State) :
  events (foldl (fun s raw => plotMarker raw s) st data)
  = (events st
     ++ map (fun raw => ConsoleWarn "Invalid coordinates in record:" (unwrap raw))
            (List.filter (fun raw => negb (plottable raw)) data))%list.
Proof.
  revert st. induction data as [|raw data IH]; intros st; simpl.
  - rewrite app_nil_r. reflexivity.
  - rewrite IH. destruct (plottable raw) eqn:Hp; simpl.
    + rewrite (plotMarker_place raw st Hp). reflexivity.
    + rewrite (plotMarker_skip raw st Hp). simpl. rewrite <- app_assoc. reflexivity.
Qed.


End Markers.

(** ** The circle and the query *)

Lemma miles_to_metres (radius : number) :
  mul (mul radius (Fin 1.60934)) (Fin 1000) = mul radius (Fin 1609.34).
Proof.
  destruct radius as [| | |q]; try reflexivity.
  unfold mul, fin. f_equal. apply Qred_complete. rewrite Qred_correct.
  unfold Qeq. simpl. lia.
Qed.

Section Circles.
Context {E : Engine}.

End Circles.

(** ** Printing a number and reading it back *)

Lemma digit_of_pretty_N_char (d : N) :
  (d < 10)%N -> digit_of (pretty_N_char d) = Some (Z.of_N d).
Proof.
  intros H.
  assert (d = 0 \/ d = 1 \/ d = 2 \/ d = 3 \/ d = 4 \/ d = 5 \/ d = 6 \/ d = 7
          \/ d = 8 \/ d = 9)%N as Hd by lia.
  repeat (destruct Hd as [->|Hd]; [reflexivity|]). subst d. reflexivity.
Qed.

Lemma allDigits_pretty_N_go (x : N) (s : string) :
  allDigits s = true -> allDigits (pretty_N_go x s) = true.
Proof.
  revert s. induction (N.lt_wf_0 x) as [x _ IH]. intros s Hs.
  destruct (N.eq_0_gt_0_cases x) as [->|Hx]; [exact Hs|].
  rewrite pretty_N_go_step by exact Hx. apply IH.
  - apply N.div_lt; [exact Hx | reflexivity].
  - simpl. rewrite digit_of_pretty_N_char by (apply N.mod_lt; discriminate). exact Hs.
Qed.

Lemma readDigits_pretty_N_go (x : N) (s : string) :
  readDigits (pretty_N_go x s) 0 = readDigits s (Z.of_N x).
Proof.
  revert s. induction (N.lt_wf_0 x) as [x _ IH]. intros s.
  destruct (N.eq_0_gt_0_cases x) as [->|Hx]; [reflexivity|].
  rewrite pretty_N_go_step by exact Hx.
  rewrite IH by (apply N.div_lt; [exact Hx | reflexivity]).
  simpl. rewrite digit_of_pretty_N_char by (apply N.mod_lt; discriminate).
  f_equal. rewrite N2Z.inj_div, N2Z.inj_mod. simpl Z.of_N.
  symmetry. apply Z.div_mod. discriminate.
Qed.

Lemma length_pretty_N_go (x : N) (s : string) :
  (String.length s <= String.length (pretty_N_go x s))%nat.
Proof.
  revert s. induction (N.lt_wf_0 x) as [x _ IH]. intros s.
  destruct (N.eq_0_gt_0_cases x) as [->|Hx]; [reflexivity|].
  rewrite pretty_N_go_step by exact Hx.
  etransitivity; [|apply IH; apply N.div_lt; [exact Hx | reflexivity]]. simpl. lia.
Qed.

Lemma pretty_N_digits (x : N) :
  allDigits (pretty x) = true /\ readDigits (pretty x) 0 = Z.of_N x
  /\ (1 <= String.length (pretty x))%nat.
Proof.
  unfold pretty, pretty_N. destruct (decide (x = 0%N)) as [->|Hx].
  - repeat split. simpl. lia.
  - split; [apply allDigits_pretty_N_go; reflexivity|].
    split; [apply readDigits_pretty_N_go|].
    rewrite pretty_N_go_step by lia.
    etransitivity; [|apply length_pretty_N_go]. simpl. lia.
Qed.

Lemma zeros_digits (k : nat) (m : string) :
  allDigits (zeros k) = true /\ String.length (zeros k) = k
  /\ readDigits (zeros k ++ m) 0 = readDigits m 0.
Proof.
  induction k as [|k (IH1 & IH2 & IH3)]; [repeat split|].
  simpl. split; [exact IH1|]. split; [rewrite IH2; reflexivity | exact IH3].
Qed.

Lemma allDigits_app (a b : string) :
  allDigits (a ++ b) = allDigits a && allDigits b.
Proof.
  induction a as [|c a IH]; [reflexivity|]. simpl.
  destruct (digit_of c); [exact IH | reflexivity].
Qed.

Lemma readDigits_app (a b : string) (acc : Z) :
  allDigits a = true -> readDigits (a ++ b) acc = readDigits b (readDigits a acc).
Proof.
  revert acc. induction a as [|c a IH]; intros acc Ha; [reflexivity|].
  simpl in *. destruct (digit_of c); [apply IH, Ha | discriminate].
Qed.

Lemma take_digits_end (rest : string) (acc : Z) (count : nat) :
  endsLiteral rest = true -> take_digits rest acc count = (acc, count, rest).
Proof.
  destruct rest as [|c r]; [reflexivity|]. simpl.
  destruct (digit_of c); [discriminate | reflexivity].
Qed.

Lemma take_digits_app (a rest : string) (acc : Z) (count : nat) :
  allDigits a = true ->
  take_digits (a ++ rest) acc count
  = take_digits rest (readDigits a acc) (count + String.length a).
Proof.
  revert acc count. induction a as [|c a IH]; intros acc count Ha; simpl.
  - rewrite Nat.add_0_r. reflexivity.
  - simpl in Ha. destruct (digit_of c); [|discriminate].
    rewrite IH by exact Ha. f_equal. lia.
Qed.

Lemma string_length_app (a b : string) :
  String.length (a ++ b) = (String.length a + String.length b)%nat.
Proof. induction a as [|c a IH]; [reflexivity|]. simpl. rewrite IH. reflexivity. Qed.

Lemma string_app_assoc (a b c : string) : (a ++ b) ++ c = a ++ b ++ c.
Proof.
  induction a as [|x a IH]; [reflexivity|].
  change (String x ((a ++ b) ++ c) = String x (a ++ b ++ c)). rewrite IH. reflexivity.
Qed.

(** A string cut in two by [substring]. *)
Lemma substring_cut (m : string) (k : nat) :
  (k <= String.length m)%nat ->
  exists a b,
    m = a ++ b /\ substring 0 k m = a
    /\ substring k (String.length m - k) m = b
    /\ String.length a = k /\ String.length b = (String.length m - k)%nat.
Proof.
  revert k. induction m as [|c m IH]; intros k Hk.
  - simpl in Hk. assert (k = 0%nat) by lia. subst k. exists "", "". repeat split.
  - destruct k as [|k].
    + exists "", (String c m). split; [reflexivity|]. split; [reflexivity|].
      split; [|split; reflexivity].
      simpl. f_equal. clear. induction m as [|d m IH]; [reflexivity|].
      simpl. f_equal. exact IH.
    + simpl in Hk. destruct (IH k ltac:(lia)) as (a & b & Hm & Ha & Hb & Hla & Hlb).
      exists (String c a), b. simpl.
      split; [rewrite Hm at 1; reflexivity|]. split; [rewrite Ha; reflexivity|].
      split; [exact Hb|]. split; [rewrite Hla; reflexivity | exact Hlb].
Qed.

Lemma digit_char (c : ascii) (d : Z) :
  digit_of c = Some d ->
  c = "0"%char \/ c = "1"%char \/ c = "2"%char \/ c = "3"%char \/ c = "4"%char
  \/ c = "5"%char \/ c = "6"%char \/ c = "7"%char \/ c = "8"%char \/ c = "9"%char.
Proof.
  unfold digit_of. intros H.
  destruct ((48 <=? nat_of_ascii c)%nat && (nat_of_ascii c <=? 57)%nat) eqn:Hb;
    [|discriminate].
  apply andb_true_iff in Hb as [H1 H2].
  apply Nat.leb_le in H1, H2.
  rewrite <- (ascii_nat_embedding c).
  assert (Hn : (nat_of_ascii c = 48 \/ nat_of_ascii c = 49 \/ nat_of_ascii c = 50
                \/ nat_of_ascii c = 51 \/ nat_of_ascii c = 52 \/ nat_of_ascii c = 53
                \/ nat_of_ascii c = 54 \/ nat_of_ascii c = 55 \/ nat_of_ascii c = 56
                \/ nat_of_ascii c = 57)%nat) by lia.
  repeat (destruct Hn as [->|Hn]; [tauto|]). rewrite Hn. tauto.
Qed.

(** Reading a literal made of a sign, digits, a point and digits, whatever
    follows it. *)
Lemma parseFloatStr_fixed (negative : bool) (a b rest : string) :
  allDigits a = true -> allDigits b = true ->
  (1 <= String.length a)%nat -> endsLiteral rest = true ->
  parseFloatStr ((if negative then "-" else "") ++ a ++ "." ++ b ++ rest)
  = decimal (if negative then (- readDigits b (readDigits a 0))%Z
             else readDigits b (readDigits a 0))
            (- Z.of_nat (String.length b)).
Proof.
  intros Ha Hb Hla Hrest.
  destruct a as [|c a]; [simpl in Hla; lia|].
  assert (Hc : exists d, digit_of c = Some d).
  { simpl in Ha. destruct (digit_of c); [eauto | discriminate]. }
  destruct Hc as [d Hd].
  assert (Hstart : skip_ws ((if negative then "-" else "") ++ String c a ++ "." ++ b ++ rest)
                   = (if negative then "-" else "") ++ String c a ++ "." ++ b ++ rest
                   /\ take_sign ((if negative then "-" else "") ++ String c a ++ "." ++ b ++ rest)
                      = (negative, String c a ++ "." ++ b ++ rest)
                   /\ String.prefix "Infinity" (String c a ++ "." ++ b ++ rest) = false).
  { destruct (digit_char c d Hd) as [->|[->|[->|[->|[->|[->|[->|[->|[->| ->]]]]]]]]];
      destruct negative; repeat split. }
  destruct Hstart as (Hws & Hsign & Hinf).
  unfold parseFloatStr. rewrite Hws, Hsign, Hinf.
  rewrite (take_digits_app (String c a) ("." ++ b ++ rest) 0 0 Ha).
  change (take_digits ("." ++ b ++ rest) (readDigits (String c a) 0)
            (0 + String.length (String c a)))
    with (readDigits (String c a) 0, (0 + String.length (String c a))%nat,
          String "."%char (b ++ rest)).
  cbv beta iota.
  rewrite (take_digits_app b rest _ 0 Hb), (take_digits_end rest _ _ Hrest).
  assert (Hexp : take_exponent rest = 0%Z).
  { destruct rest as [|e rest]; [reflexivity|]. simpl in Hrest. simpl.
    destruct (digit_of e); [discriminate|]. apply negb_true_iff in Hrest.
    rewrite Hrest. reflexivity. }
  rewrite Hexp. simpl String.length. simpl Nat.add. cbv iota.
  reflexivity.
Qed.

Lemma Qfloor_nonneg (x : Q) : (0 <= x)%Q -> (0 <= Qfloor x)%Z.
Proof. intros H. change 0%Z with (Qfloor 0). apply Qfloor_resp_le, H. Qed.

Section Reading.
Context {E : Engine}.

(** The text [toFixed] makes of a magnitude below 1e21, with at least one
    fraction digit. *)
Lemma toFixed_shape (f : nat) (q : Q) :
  Qle_bool (inject_Z (10 ^ 21)) (Qabs q) = false ->
  exists a b,
    toFixed (S f) (Fin q) = (if Qle_bool 0 q then "" else "-") ++ a ++ "." ++ b
    /\ allDigits a = true /\ allDigits b = true
    /\ (1 <= String.length a)%nat /\ String.length b = S f
    /\ readDigits b (readDigits a 0)
       = Qfloor (Qabs q * inject_Z (10 ^ Z.of_nat (S f)) + (1 # 2)).
Proof.
  intros Hbig. unfold toFixed. rewrite Hbig. cbv zeta.
  set (n := Qfloor (Qabs q * inject_Z (10 ^ Z.of_nat (S f)) + (1 # 2))).
  assert (Hn : (0 <= n)%Z).
  { apply Qfloor_nonneg.
    assert (H1 := Qabs_nonneg q).
    assert (H2 : (0 <= inject_Z (10 ^ Z.of_nat (S f)))%Q).
    { change 0%Q with (inject_Z 0). rewrite <- Zle_Qle. apply Z.pow_nonneg. lia. }
    assert (H3 := Qmult_le_0_compat _ _ H1 H2). lra. }
  destruct (pretty_N_digits (Z.to_N n)) as (Hd & Hv & Hlen).
  rewrite Z2N.id in Hv by exact Hn.
  set (m := pretty (Z.to_N n)) in *.
  set (m' := if (String.length m <=? S f)%nat
             then zeros (S f + 1 - String.length m) ++ m else m).
  assert (Hm' : allDigits m' = true /\ readDigits m' 0 = n
                /\ (S f + 1 <= String.length m')%nat).
  { unfold m'. destruct (Nat.leb_spec (String.length m) (S f)) as [Hle|Hgt].
    - destruct (zeros_digits (S f + 1 - String.length m) m) as (Hz & Hzl & Hzv).
      rewrite allDigits_app, Hz, Hd, Hzv, Hv.
      split; [reflexivity|]. split; [reflexivity|].
      rewrite string_length_app, Hzl. lia.
    - split; [exact Hd|]. split; [exact Hv | lia]. }
  destruct Hm' as (Hd' & Hv' & Hlen').
  destruct (substring_cut m' (String.length m' - S f) ltac:(lia))
    as (a & b & Hm & Ha & Hb & Hla & Hlb).
  replace (String.length m' - (String.length m' - S f))%nat with (S f) in Hb, Hlb by lia.
  exists a, b. rewrite Ha, Hb.
  rewrite Hm, allDigits_app in Hd'. apply andb_true_iff in Hd' as [Hda Hdb].
  split; [reflexivity|]. split; [exact Hda|]. split; [exact Hdb|].
  split; [lia|]. split; [exact Hlb|].
  rewrite <- (readDigits_app a b 0 Hda), <- Hm. exact Hv'.
Qed.

(** [parseFloat] reads back what [toFixed] has printed: the number
    rounded to the fraction digits asked for, whatever text follows that
    cannot continue the literal. *)
Lemma parseFloatStr_toFixed (f : nat) (q : Q) (rest : string) :
  Qle_bool (inject_Z (10 ^ 21)) (Qabs q) = false ->
  endsLiteral rest = true ->
  parseFloatStr (toFixed (S f) (Fin q) ++ rest) = fin (rounded (S f) q).
Proof.
  intros Hbig Hrest.
  destruct (toFixed_shape f q Hbig) as (a & b & Hs & Ha & Hb & Hla & Hlb & Hv).
  rewrite Hs.
  replace (((if Qle_bool 0 q then "" else "-") ++ a ++ "." ++ b) ++ rest)
    with ((if negb (Qle_bool 0 q) then "-" else "") ++ a ++ "." ++ b ++ rest).
  2:{ destruct (Qle_bool 0 q); simpl; rewrite !string_app_assoc; reflexivity. }
  rewrite (parseFloatStr_fixed _ a b rest Ha Hb Hla Hrest), Hv, Hlb.
  unfold decimal, rounded.
  assert (Hneg : (0 <=? - Z.of_nat (S f))%Z = false) by (apply Z.leb_gt; lia).
  rewrite Hneg, Z.opp_involutive.
  destruct (Qle_bool 0 q); reflexivity.
Qed.
End Reading.

(** Rounding to [f] decimals moves a number by at most half a unit of the
    last decimal. *)
Lemma rounded_close (f : nat) (q : Q) :
  (Qabs (rounded f q - q) * inject_Z (2 * 10 ^ Z.of_nat f) <= 1)%Q.
Proof.
  unfold rounded. cbv zeta.
  set (T := (10 ^ Z.of_nat f)%Z).
  assert (HT : (0 < T)%Z) by (apply Z.pow_pos_nonneg; lia).
  set (y := Qabs q).
  set (n := Qfloor (y * inject_Z T + (1 # 2))).
  assert (Hlo := Qfloor_le (y * inject_Z T + (1 # 2))). fold n in Hlo.
  assert (Hhi := Qlt_floor (y * inject_Z T + (1 # 2))). fold n in Hhi.
  rewrite inject_Z_plus in Hhi.
  assert (HTq : (0 < inject_Z T)%Q).
  { change 0%Q with (inject_Z 0). rewrite <- Zlt_Qlt. exact HT. }
  assert (Hr : (Qmake n (Z.to_pos T) * inject_Z T == inject_Z n)%Q).
  { rewrite Qmake_Qdiv, (Z2Pos.id T HT). field. lra. }
  assert (H2 : (inject_Z (2 * T) == 2 * inject_Z T)%Q) by (rewrite inject_Z_mult; reflexivity).
  rewrite H2.
  assert (Hy : (y == q \/ y == - q)%Q /\ (0 <= y)%Q).
  { split; [|apply Qabs_nonneg]. unfold y.
    destruct (Qlt_le_dec q 0) as [Hq|Hq];
      [right; apply Qabs_neg; lra | left; apply Qabs_pos; exact Hq]. }
  destruct Hy as [Hy Hy0].
  assert (Hsign : (if Qle_bool 0 q then y == q else y == - q)%Q).
  { destruct (Qle_bool 0 q) eqn:Hq.
    - apply Qle_bool_iff in Hq. apply Qabs_pos. exact Hq.
    - apply Qabs_neg. destruct (Qlt_le_dec q 0) as [H|H]; [lra|].
      apply Qle_bool_iff in H. congruence. }
  set (r := Qmake n (Z.to_pos T)) in *.
  assert (Hd : (Qabs (r - y) * (2 * inject_Z T) <= 1)%Q).
  { assert (Hexp : ((r - y) * (2 * inject_Z T) == 2 * inject_Z n - 2 * (y * inject_Z T))%Q)
      by (rewrite <- Hr; ring).
    assert (Hexp' : (- (r - y) * (2 * inject_Z T)
                     == 2 * (y * inject_Z T) - 2 * inject_Z n)%Q)
      by (rewrite <- Hr; ring).
    change (inject_Z 1) with 1%Q in Hhi.
    apply Qabs_case; intros _; [rewrite Hexp | rewrite Hexp']; lra. }
  destruct (Qle_bool 0 q).
  - rewrite <- Hsign. exact Hd.
  - assert (Heq : (- r - q == - (r - y))%Q) by (rewrite Hsign; ring).
    rewrite Heq, Qabs_opp. exact Hd.
Qed.

Section Coordinates.
Context {E : Engine}.


End Coordinates.

(** ** More worked runs on the reference engine *)

Section MoreRuns.
Import Samples Cases.
#[local] Existing Instance RefEngine.engine.


Lemma after_a_reload_reachable :
  reachable (loadAllPins_loaded (Resolved [montgomery]) (loadAllPins_begin loaded)).
Proof.
  eapply reachable_stretch;
    [eapply reachable_stretch; [apply reachable_loaded | apply pins_begun]
    | apply pins_loaded].
Qed.


Lemma controls_follow_the_flag_witness :
  let st := loadAllPins_loaded (Resolved [montgomery]) (loadAllPins_begin loaded) in
  reachable st
  /\ searchBtn_disabled (page st) = isLoading (globals st)
  /\ loadingIndicator_hidden (page st) = negb (isLoading (globals st)).
Proof.
  cbv zeta. split; [exact after_a_reload_reachable|].
  destruct (controls_follow_the_flag _ after_a_reload_reachable) as (H1 & H2 & _).
  split; assumption.
Defined.

Lemma failed_query_keeps_the_map_witness :
  let st' := handleSearch "Birmingham, AL" "10" (Resolved [birmingham]) Rejected loaded in
  (trim "Birmingham, AL" <> ""
   /\ ltb (Fin 0) (parseFloatStr "10") = true
   /\ isLoading (globals loaded) = false
   /\ geocodeAddress (Resolved [birmingham]) = inr (Some birminghamResult))
  /\ message (page st') = Some (ErrorMessage, "Search failed. Please try again.")
  /\ leaflet st' = leaflet loaded.
Proof.
  cbv zeta.
  split; [split; [discriminate | split; [reflexivity | split;
                 [reflexivity | vm_compute; reflexivity]]]|].
  assert (H : _) by
    (apply (failed_query_keeps_the_map "Birmingham, AL" "10" (Resolved [birmingham])
              loaded birminghamResult);
     [ discriminate | reflexivity | reflexivity | vm_compute; reflexivity ]).
  cbv zeta in H. destruct H as (H1 & H2 & _). split; assumption.
Defined.




Lemma wrapped_record_is_unwrapped_witness :
  truthy (get (VObj montgomery) "json") = false
  /\ unwrap item = VObj montgomery
  /\ forall st, plotMarker item st = plotMarker montgomery st.
Proof.
  assert (Hj : truthy (get (VObj montgomery) "json") = false) by reflexivity.
  split; [exact Hj|].
  assert (H := wrapped_record_is_unwrapped montgomery
                 (<["pairedItem" := VNum (Fin 0)]> ∅) Hj).
  cbv zeta in H. destruct H as (H1 & H2 & _). split; assumption.
Defined.

Lemma accepted_review_updates_the_card_witness :
  let c1 := fst (fst (submitBtn_click draft)) in
  let c2 := fst (submitBtn_posted (Resolved VNull) c1) in
  let c3 := fst (submitBtn_finished "Great" c2) in
  selectedRating draft <> 0%nat
  /\ trim (textarea_value draft) = "Great"
  /\ ratingDisplay c3 = Number_toString (of_nat 4) ++ " ⭐"
  /\ feedbackDisplay c3 = "Great"
  /\ textarea_value c3 = "".
Proof.
  cbv zeta.
  assert (Hr : selectedRating draft <> 0%nat) by discriminate.
  split; [exact Hr|]. split; [reflexivity|].
  assert (H := accepted_review_updates_the_card draft VNull Hr).
  cbv zeta in H.
  destruct H as (_ & _ & _ & _ & H5 & H6 & _ & _ & _ & _ & H11 & _).
  split; [exact H5 | split; [exact H6 | exact H11]].
Defined.

Lemma failed_review_can_be_sent_again_witness :
  let c1 := fst (fst (submitBtn_click draft)) in
  let c2 := fst (submitBtn_posted Rejected c1) in
  selectedRating draft <> 0%nat
  /\ snd (submitBtn_posted Rejected c1)
     = [Alert "Failed to submit feedback. Please try again."]
  /\ selectedRating c2 = selectedRating draft
  /\ textarea_value c2 = textarea_value draft.
Proof.
  cbv zeta.
  assert (Hr : selectedRating draft <> 0%nat) by discriminate.
  split; [exact Hr|].
  assert (H := failed_review_can_be_sent_again draft Hr).
  cbv zeta in H. destruct H as (H1 & H2 & _ & H4 & _).
  split; [exact H1 | split; [exact H2 | exact H4]].
Defined.

Lemma toggleSidebar_twice_witness :
  exists l1 l2,
    toggleSidebar 1280 expanded = (inr tt, l1)
    /\ toggleSidebar 1280 l1 = (inr tt, l2)
    /\ has_class "minimized" l1 = negb (has_class "minimized" expanded)
    /\ sidebar l2 = sidebar expanded.
Proof.
  destruct (toggleSidebar_twice 1280 expanded _ _ _ eq_refl eq_refl eq_refl)
    as (l1 & l2 & H1 & H2 & H3 & H4 & _).
  exists l1, l2. repeat split; assumption.
Defined.

Lemma toggleSidebar_keeps_the_map_fitted_witness :
  let l1 := snd (toggleSidebar 1280 expanded) in
  (has_class "hidden" expanded = false
   /\ mapElement_width expanded = Some (fittedWidth 1280 expanded)
   /\ toggleSidebar 1280 expanded = (inr tt, l1))
  /\ mapElement_width l1 = Some (fittedWidth 1280 l1)
  /\ has_class "hidden" l1 = false.
Proof.
  cbv zeta.
  assert (Hh : has_class "hidden" expanded = false) by (vm_compute; reflexivity).
  assert (Hw : mapElement_width expanded = Some (fittedWidth 1280 expanded))
    by (vm_compute; reflexivity).
  assert (Ht : toggleSidebar 1280 expanded = (inr tt, snd (toggleSidebar 1280 expanded)))
    by reflexivity.
  split; [split; [exact Hh | split; [exact Hw | exact Ht]]|].
  destruct (toggleSidebar_keeps_the_map_fitted 1280 expanded _ Hh Hw Ht) as (H1 & _ & H3).
  split; assumption.
Defined.

Lemma updateSidebar_shows_the_sidebar_witness :
  let l := snd (toggleSidebar 1280 expanded) in
  exists l',
    updateSidebar_reveal 1280 (updateSidebar_expand l) = (inr tt, l')
    /\ has_class "hidden" l' = false /\ has_class "minimized" l' = false.
Proof.
  cbv zeta.
  destruct (updateSidebar_shows_the_sidebar 1280 (snd (toggleSidebar 1280 expanded))
              _ _ _ eq_refl eq_refl eq_refl) as (l' & H1 & H2 & H3 & _).
  exists l'. repeat split; assumption.
Defined.

Lemma distance_to_the_same_point_is_zero_witness :
  (Math_PI = Fin RefEngine.pi
   /\ Math_sin (Fin 0) = Fin 0
   /\ (forall x, isFinite (Math_cos (Fin x)) = true)
   /\ Math_sqrt (Fin 0) = Fin 0
   /\ Math_sqrt (Fin 1) = Fin 1
   /\ Math_atan2 (Fin 0) (Fin 1) = Fin 0)
  /\ calculateDistance (Fin 33.5207) (Fin (-86.8025)) (Fin 33.5207) (Fin (-86.8025))
     = Fin 0.
Proof.
  assert (Hp : Math_PI = Fin RefEngine.pi) by reflexivity.
  assert (Hs : Math_sin (Fin 0) = Fin 0) by (vm_compute; reflexivity).
  assert (Hc : forall x, isFinite (Math_cos (Fin x)) = true) by (intros x; reflexivity).
  assert (H0 : Math_sqrt (Fin 0) = Fin 0) by (vm_compute; reflexivity).
  assert (H1 : Math_sqrt (Fin 1) = Fin 1) by (vm_compute; reflexivity).
  assert (Ha : Math_atan2 (Fin 0) (Fin 1) = Fin 0) by (vm_compute; reflexivity).
  split; [repeat split; assumption|].
  exact (proj1 (distance_to_the_same_point_is_zero RefEngine.pi 33.5207 (-86.8025)
                  Hp Hs Hc H0 H1 Ha)).
Defined.




Lemma popup_without_email_witness :
  or_ (get (VObj noEmail) "email") (get (VObj noEmail) "Email") = VUndef
  /\ includes (popupContent (VObj noEmail)) "undefined" = true.
Proof.
  assert (H : or_ (get (VObj noEmail) "email") (get (VObj noEmail) "Email") = VUndef)
    by reflexivity.
  split; [exact H | exact (popup_without_email (VObj noEmail) H)].
Defined.
End MoreRuns.
